(** * json-tree-view: the schema validator, the tree search and the metrics pass

    A shallow embedding of
      - [src/lib/json-parser.ts]: [countNodes], [getMaxDepth],
        [getTypeDistribution], [validateJsonSchema], [validateAgainstSchema],
        [getJsonType];
      - the search bar component: [performSearch], the timer callback of
        [debouncedSearch], [navigateSearch], [handleKeyDown];
      - [src/components/json-tree-node.tsx]: [hasValidationError],
        [isCurrentSearchResult], [matchesSearch] and the paths given to the
        child nodes.

    JavaScript values are modelled as they come out of [JSON.parse]: numbers
    are binary64 floats, strings are sequences of code units (here the code
    units U+0000 to U+00FF, one [ascii] each), an object is the list of its
    own properties in enumeration order.  What the engine supplies and the
    repository does not define (number printing and reading, the JSON reader,
    regular expressions, [URL], [Date.parse]) is the [Host] interface. *)

From Stdlib Require Import List String Ascii Bool Arith ZArith Lia.
From Stdlib Require Import Floats DecimalString Permutation.
Import ListNotations.

Local Open Scope string_scope.
Local Open Scope list_scope.

Infix "+++" := String.append (right associativity, at level 60).

(** ** JSON values *)

(** The nesting through [list] is handled by hand where a proof needs it; no
    induction scheme is generated. *)
Unset Elimination Schemes.
Inductive json : Type :=
| JNull
| JBool (b : bool)
| JNumber (n : float)
| JString (s : string)
| JArray (items : list json)
| JObject (fields : list (string * json)).
Set Elimination Schemes.

(** Values the validator can meet in its [data] argument: JSON values, and
    what member access on a plain object yields for a name the object
    inherits from [Object.prototype]. *)
Inductive jsval : Type :=
| VUndefined
| VJson (j : json)
| VObjectPrototype
| VFunction (name : string).

(** Number of nodes of a value, and its height; they bound the loops and the
    recursion below. *)
Fixpoint json_size (j : json) : nat :=
  match j with
  | JArray items => S (list_sum (map json_size items))
  | JObject fields => S (list_sum (map (fun kv => json_size (snd kv)) fields))
  | _ => 1
  end.

Fixpoint height (j : json) : nat :=
  match j with
  | JArray items => S (list_max (map height items))
  | JObject fields => S (list_max (map (fun kv => height (snd kv)) fields))
  | _ => 0
  end.

(** ** The host interface *)

Class Host : Type := {
  (** [Number::toString], as used by [String(x)] and template literals *)
  NumberToString : float -> string;
  (** [ToNumber] on a string *)
  StringToNumber : string -> float;
  (** [JSON.parse]; [None] when it throws a SyntaxError *)
  JSON_parse : string -> option json;
  (** [new RegExp(source, flags).test(subject)]; [None] when the constructor
      throws *)
  RegExp_test : string -> string -> string -> option bool;
  (** whether [new URL(s)] returns *)
  URL_parses : string -> bool;
  (** [isNaN(Date.parse(s))] *)
  Date_parse_isNaN : string -> bool
}.

(** ** JavaScript primitives on these values *)

Module JS.

Definition dquote : ascii := ascii_of_nat 34.
Definition backslash : ascii := ascii_of_nat 92.

Definition nat_toString (n : nat) : string :=
  NilEmpty.string_of_uint (Nat.to_uint n).

(** An array length or index as a number. *)
Definition Number_of_nat (n : nat) : float :=
  PrimFloat.of_uint63 (Uint63.of_Z (Z.of_nat n)).

Definition Number_isFinite (x : float) : bool := PrimFloat.is_finite x.

Definition Number_isInteger (x : float) : bool :=
  match Prim2SF x with
  | S754_zero _ => true
  | S754_finite _ m e => (0 <=? e)%Z || (Z.pos m mod 2 ^ (- e) =? 0)%Z
  | S754_infinity _ => false
  | S754_nan => false
  end.

(** [typeof] *)
Definition typeof_json (j : json) : string :=
  match j with
  | JNull => "object"
  | JBool _ => "boolean"
  | JNumber _ => "number"
  | JString _ => "string"
  | JArray _ => "object"
  | JObject _ => "object"
  end.

Definition typeof (v : jsval) : string :=
  match v with
  | VUndefined => "undefined"
  | VJson j => typeof_json j
  | VObjectPrototype => "object"
  | VFunction _ => "function"
  end.

(** Truthiness ([ToBoolean]). *)
Definition truthy (j : json) : bool :=
  match j with
  | JNull => false
  | JBool b => b
  | JNumber n => negb (PrimFloat.eqb n 0 || PrimFloat.is_nan n)
  | JString s => negb (s =? "")
  | JArray _ => true
  | JObject _ => true
  end.

(** [x === "literal"] for a JSON value [x]. *)
Definition is_string (x : json) (lit : string) : bool :=
  match x with
  | JString s => s =? lit
  | _ => false
  end.

(** [String.prototype.includes] *)
Fixpoint includes (s t : string) : bool :=
  prefix t s ||
  match s with
  | EmptyString => false
  | String _ s' => includes s' t
  end.

(** [String.prototype.toLowerCase] on the code units U+0000 to U+00FF:
    A-Z, and U+00C0 to U+00DE except the multiplication sign U+00D7, move up
    by 32. *)
Definition lower_unit (c : ascii) : ascii :=
  let n := nat_of_ascii c in
  if (((65 <=? n) && (n <=? 90)) || ((192 <=? n) && (n <=? 222) && negb (n =? 215)))%nat
  then ascii_of_nat (n + 32)
  else c.

Fixpoint toLowerCase (s : string) : string :=
  match s with
  | EmptyString => EmptyString
  | String c s' => String (lower_unit c) (toLowerCase s')
  end.

(** [Array.prototype.join] on an array of strings. *)
Definition join (sep : string) (parts : list string) : string :=
  String.concat sep parts.

Section WithHost.
Context {host : Host}.

(** [String(v)] / [ToString]: inside an array, [null] prints as the empty
    string; an object prints as [[object Object]]. *)
Fixpoint ToString (j : json) : string :=
  match j with
  | JNull => "null"
  | JBool true => "true"
  | JBool false => "false"
  | JNumber n => NumberToString n
  | JString s => s
  | JArray items =>
      join "," (map (fun x => match x with JNull => "" | _ => ToString x end) items)
  | JObject _ => "[object Object]"
  end.

(** [ToNumber], as applied to the right operand of [<], [>], [/] when the
    left one is a number. *)
Definition ToNumber (j : json) : float :=
  match j with
  | JNull => 0%float
  | JBool true => 1%float
  | JBool false => 0%float
  | JNumber n => n
  | JString s => StringToNumber s
  | JArray _ => StringToNumber (ToString j)
  | JObject _ => StringToNumber (ToString j)
  end.

(** [QuoteJSONString] of [JSON.stringify]. *)
Definition hex_digit (n : nat) : ascii :=
  if (n <? 10)%nat then ascii_of_nat (48 + n) else ascii_of_nat (87 + n).

Definition escape_unit (c : ascii) : string :=
  let n := nat_of_ascii c in
  if (n =? 8)%nat then String backslash "b"
  else if (n =? 9)%nat then String backslash "t"
  else if (n =? 10)%nat then String backslash "n"
  else if (n =? 12)%nat then String backslash "f"
  else if (n =? 13)%nat then String backslash "r"
  else if (n =? 34)%nat then String backslash (String dquote "")
  else if (n =? 92)%nat then String backslash (String backslash "")
  else if (n <? 32)%nat then
    String backslash ("u00" +++ String (hex_digit (n / 16)) (String (hex_digit (n mod 16)) ""))
  else String c "".

Fixpoint escape (s : string) : string :=
  match s with
  | EmptyString => EmptyString
  | String c s' => escape_unit c +++ escape s'
  end.

Definition quote (s : string) : string :=
  String dquote (escape s +++ String dquote "").

(** [JSON.stringify] of a JSON value: object members are written in
    enumeration order; a number that is not finite is written [null]. *)
Fixpoint stringify (j : json) : string :=
  match j with
  | JNull => "null"
  | JBool true => "true"
  | JBool false => "false"
  | JNumber n => if Number_isFinite n then NumberToString n else "null"
  | JString s => quote s
  | JArray items => "[" +++ join "," (map stringify items) +++ "]"
  | JObject fields =>
      "{"
      +++ join "," (map (fun kv => quote (fst kv) +++ ":" +++ stringify (snd kv)) fields)
      +++ "}"
  end.

(** [JSON.stringify] of any value; [None] is [undefined]. *)
Definition JSON_stringify (v : jsval) : option string :=
  match v with
  | VUndefined => None
  | VJson j => Some (stringify j)
  | VObjectPrototype => Some "{}"
  | VFunction _ => None
  end.

(** A string or [undefined] inside a template literal. *)
Definition show (s : option string) : string :=
  match s with
  | Some s => s
  | None => "undefined"
  end.

(** The text of one member of an object, and what follows the opening brace
    of an object. *)
Definition member (kv : string * json) : string :=
  quote (fst kv) +++ ":" +++ stringify (snd kv).

Definition members_then_close (fields : list (string * json)) : string :=
  join "," (map member fields) +++ "}".

End WithHost.

(** The value of a hexadecimal digit written by [hex_digit]. *)
Definition hex_value (h : ascii) : nat :=
  let n := nat_of_ascii h in if (n <? 58)%nat then n - 48 else n - 87.

(** The inverse of [escape_unit]: reads one escaped code unit from the front
    of a text.  A quoted string therefore ends at its first unescaped
    quotation mark. *)
Definition unescape_unit (s : string) : option (ascii * string) :=
  match s with
  | EmptyString => None
  | String c rest =>
      if Ascii.eqb c dquote then None
      else if Ascii.eqb c backslash then
        match rest with
        | String d rest =>
            if Ascii.eqb d "b" then Some (ascii_of_nat 8, rest)
            else if Ascii.eqb d "t" then Some (ascii_of_nat 9, rest)
            else if Ascii.eqb d "n" then Some (ascii_of_nat 10, rest)
            else if Ascii.eqb d "f" then Some (ascii_of_nat 12, rest)
            else if Ascii.eqb d "r" then Some (ascii_of_nat 13, rest)
            else if Ascii.eqb d dquote then Some (dquote, rest)
            else if Ascii.eqb d backslash then Some (backslash, rest)
            else
              match rest with
              | String _ (String _ (String h1 (String h2 rest))) =>
                  Some (ascii_of_nat (16 * hex_value h1 + hex_value h2), rest)
              | _ => None
              end
        | EmptyString => None
        end
      else Some (c, rest)
  end.

(** Own property lookup. *)
Fixpoint assoc (key : string) (fields : list (string * json)) : option json :=
  match fields with
  | [] => None
  | (k, v) :: rest => if k =? key then Some v else assoc key rest
  end.

(** [schema.name] for one of the keyword names read by the validator, on a
    schema that is not [null]: only a plain object can have such a
    property. *)
Definition get (schema : json) (name : string) : option json :=
  match schema with
  | JObject fields => assoc name fields
  | _ => None
  end.

(** The properties of [Object.prototype]. *)
Definition Object_prototype_names : list string :=
  [ "constructor"; "__defineGetter__"; "__defineSetter__"; "hasOwnProperty";
    "__lookupGetter__"; "__lookupSetter__"; "isPrototypeOf";
    "propertyIsEnumerable"; "toString"; "valueOf"; "__proto__";
    "toLocaleString" ].

Definition mem (key : string) (keys : list string) : bool :=
  existsb (String.eqb key) keys.

(** [typeof data === "object" && data !== null && !Array.isArray(data)] *)
Definition is_plain_object (data : jsval) : bool :=
  match data with
  | VJson (JObject _) => true
  | VObjectPrototype => true
  | _ => false
  end.

(** [Object.keys(data)] for such a [data]. *)
Definition own_keys (data : jsval) : list string :=
  match data with
  | VJson (JObject fields) => map fst fields
  | _ => []
  end.

(** [key in data] for such a [data]: own properties first, then the
    prototype chain. *)
Definition has_property (key : string) (data : jsval) : bool :=
  match data with
  | VJson (JObject fields) => mem key (map fst fields) || mem key Object_prototype_names
  | VObjectPrototype => mem key Object_prototype_names
  | _ => false
  end.

Definition prototype_member (key : string) : jsval :=
  if key =? "__proto__" then VJson JNull
  else if key =? "constructor" then VFunction "Object"
  else if mem key Object_prototype_names then VFunction key
  else VUndefined.

(** [data[key]] for such a [data]. *)
Definition get_member (data : jsval) (key : string) : jsval :=
  match data with
  | VJson (JObject fields) =>
      match assoc key fields with
      | Some v => VJson v
      | None => if key =? "__proto__" then VObjectPrototype else prototype_member key
      end
  | VObjectPrototype => prototype_member key
  | _ => VUndefined
  end.

(** Elements with their indices, as [forEach((item, index) => ...)] sees
    them. *)
Definition indexed {A : Type} (xs : list A) : list (nat * A) :=
  combine (seq 0 (List.length xs)) xs.

Fixpoint units (s : string) : list json :=
  match s with
  | EmptyString => []
  | String c s' => JString (String c "") :: units s'
  end.

(** [Object.entries(x)] for a truthy JSON value [x]. *)
Definition Object_entries (x : json) : list (string * json) :=
  match x with
  | JObject fields => fields
  | JArray items => map (fun iv => (nat_toString (fst iv), snd iv)) (indexed items)
  | JString s => map (fun iv => (nat_toString (fst iv), snd iv)) (indexed (units s))
  | _ => []
  end.

Definition Object_keys (x : json) : list string := map fst (Object_entries x).

End JS.

(** ** Work lists *)

(** The loops below keep a JavaScript array used as a stack.  It is modelled
    as a list whose head is the top: [pop] takes the head, and pushing the
    elements of [xs] one after the other leaves the last of them on top. *)
Definition push_all {A : Type} (xs stack : list A) : list A := rev xs ++ stack.

(** [Object.values] of a container: the elements of an array, the member
    values of an object.  The three metric loops and the search loop push
    exactly these (guarded by [typeof current === "object" && current !==
    null]). *)
Definition children (current : json) : list json :=
  match current with
  | JArray items => items
  | JObject fields => map snd fields
  | _ => []
  end.

(** The number of nodes held by a stack: the iterations its loop still has
    to make. *)
Definition stack_size (stack : list json) : nat := list_sum (map json_size stack).

(** ** The metrics pass ([src/lib/json-parser.ts], lines 38 to 98) *)

Module Metrics.

Fixpoint countNodes_loop (fuel : nat) (stack : list json) (count : nat)
  {struct fuel} : option nat :=
  match stack with
  | [] => Some count
  | current :: stack =>
      match fuel with
      | O => None
      | S fuel => countNodes_loop fuel (push_all (children current) stack) (count + 1)
      end
  end.

Definition countNodes (data : json) : option nat :=
  countNodes_loop (json_size data) [data] 0.

Fixpoint getMaxDepth_loop (fuel : nat) (stack : list (json * nat)) (maxDepth : nat)
  {struct fuel} : option nat :=
  match stack with
  | [] => Some maxDepth
  | (current, depth) :: stack =>
      match fuel with
      | O => None
      | S fuel =>
          getMaxDepth_loop fuel
            (push_all (map (fun item => (item, depth + 1)) (children current)) stack)
            (Nat.max maxDepth depth)
      end
  end.

Definition getMaxDepth (data : json) : option nat :=
  getMaxDepth_loop (json_size data) [(data, 0)] 0.

(** [Record<string, number>]: the keys in insertion order. *)
Definition distribution := list (string * nat).

Fixpoint lookup (d : distribution) (type : string) : option nat :=
  match d with
  | [] => None
  | (k, n) :: rest => if k =? type then Some n else lookup rest type
  end.

Fixpoint store (d : distribution) (type : string) (n : nat) : distribution :=
  match d with
  | [] => [(type, n)]
  | (k, m) :: rest => if k =? type then (k, n) :: rest else (k, m) :: store rest type n
  end.

(** [current === null ? "null" : Array.isArray(current) ? "array" : typeof current] *)
Definition type_tag (current : json) : string :=
  match current with
  | JNull => "null"
  | JArray _ => "array"
  | _ => JS.typeof_json current
  end.

(** [distribution[type] = (distribution[type] || 0) + 1] *)
Definition bump (d : distribution) (type : string) : distribution :=
  store d type (match lookup d type with Some n => n | None => 0 end + 1).

Fixpoint getTypeDistribution_loop (fuel : nat) (stack : list json) (d : distribution)
  {struct fuel} : option distribution :=
  match stack with
  | [] => Some d
  | current :: stack =>
      match fuel with
      | O => None
      | S fuel =>
          getTypeDistribution_loop fuel (push_all (children current) stack)
            (bump d (type_tag current))
      end
  end.

Definition getTypeDistribution (data : json) : option distribution :=
  getTypeDistribution_loop (json_size data) [data] [].

(** The sum of the counts of a distribution. *)
Definition total (d : distribution) : nat := list_sum (map snd d).

End Metrics.

(** ** The tree search ([performSearch] of the search bar component) *)

Module Search.

(** ["key" | "value"] *)
Inductive kind : Type := Key | Value.

Record SearchResult : Type := {
  path : string;
  type : kind;
  text : string;
  position : nat
}.

Section WithHost.
Context {host : Host}.
Variable caseSensitive : bool.

(** [caseSensitive ? s : s.toLowerCase()] *)
Definition fold_case (s : string) : string :=
  if caseSensitive then s else JS.toLowerCase s.

(** The body of [Object.entries(value).forEach(([key, val]) => ...)]: a
    matching key is reported first, then the member is pushed. *)
Fixpoint scan_entries (searchTerm : string) (currentPath : list string)
    (entries : list (string * json))
    (stack : list (json * list string)) (results : list SearchResult)
  : list (json * list string) * list SearchResult :=
  match entries with
  | [] => (stack, results)
  | (key, val) :: entries =>
      let keyToSearch := fold_case key in
      let results :=
        if JS.includes keyToSearch searchTerm
        then results ++ [ {| path := JS.join "." (currentPath ++ [key]);
                             type := Key;
                             text := key;
                             position := List.length results |} ]
        else results in
      scan_entries searchTerm currentPath entries
        ((val, currentPath ++ [key]) :: stack) results
  end.

(** The [while (stack.length > 0)] loop.  The values are trees: every
    container instance is pushed once, so the [visited] set never holds the
    container that is popped and its [continue] is not taken. *)
Fixpoint search_loop (fuel : nat) (searchTerm : string)
    (stack : list (json * list string)) (results : list SearchResult)
  {struct fuel} : option (list SearchResult) :=
  match stack with
  | [] => Some results
  | (value, currentPath) :: stack =>
      match fuel with
      | O => None
      | S fuel =>
          match value with
          | JArray items =>
              search_loop fuel searchTerm
                (push_all
                   (map (fun ix => (snd ix, currentPath ++ [JS.nat_toString (fst ix)]))
                      (JS.indexed items))
                   stack)
                results
          | JObject fields =>
              let (stack, results) :=
                scan_entries searchTerm currentPath fields stack results in
              search_loop fuel searchTerm stack results
          | _ =>
              let valueStr := fold_case (JS.ToString value) in
              search_loop fuel searchTerm stack
                (if JS.includes valueStr searchTerm
                 then results ++ [ {| path := JS.join "." currentPath;
                                      type := Value;
                                      text := JS.ToString value;
                                      position := List.length results |} ]
                 else results)
          end
      end
  end.

Definition performSearch (term : string) (data : json) : option (list SearchResult) :=
  if term =? "" then Some []
  else
    let searchTerm := fold_case term in
    search_loop (json_size data) searchTerm [(data, [])] [].

End WithHost.

(** A node of a value, with the keys and indices that lead to it. *)
Inductive subnode : json -> list string -> json -> Prop :=
| sub_here v : subnode v [] v
| sub_item items i c p v :
    nth_error items i = Some c -> subnode c p v ->
    subnode (JArray items) (JS.nat_toString i :: p) v
| sub_member fields k c p v :
    In (k, c) fields -> subnode c p v ->
    subnode (JObject fields) (k :: p) v.

Definition is_primitive (v : json) : bool :=
  match v with
  | JArray _ => false
  | JObject _ => false
  | _ => true
  end.


(** *** What the results say *)

Section Reports.
Context {host : Host}.
Variable caseSensitive : bool.
Variable searchTerm : string.

Definition entries_size (stack : list (json * list string)) : nat :=
  stack_size (map fst stack).

(** What a result says. *)
Definition reports_key (q : list string) (k : string) (r : SearchResult) : Prop :=
  type r = Key /\ path r = JS.join "." (q ++ [k]) /\ text r = k.

Definition reports_value (q : list string) (v : json) (r : SearchResult) : Prop :=
  type r = Value /\ path r = JS.join "." q /\ text r = JS.ToString v.

Definition key_matches (k : string) : Prop :=
  JS.includes (fold_case caseSensitive k) searchTerm = true.

Definition value_matches (v : json) : Prop :=
  JS.includes (fold_case caseSensitive (JS.ToString v)) searchTerm = true.

(** [r] reports a matching primitive or a matching key found in the value
    [w], itself at path [q]. *)
Inductive emitted (w : json) (q : list string) (r : SearchResult) : Prop :=
| emitted_value p v :
    subnode w p v -> is_primitive v = true -> value_matches v ->
    reports_value (q ++ p) v r -> emitted w q r
| emitted_key p fields k c :
    subnode w p (JObject fields) -> In (k, c) fields -> key_matches k ->
    reports_key (q ++ p) k r -> emitted w q r.

(** Two results that differ at most in their position. *)
Definition same_report (r r' : SearchResult) : Prop :=
  type r = type r' /\ path r = path r' /\ text r = text r'.

(** The stack entries pushed for the children of a container. *)
Definition item_entries (currentPath : list string) (items : list json)
  : list (json * list string) :=
  map (fun ix => (snd ix, currentPath ++ [JS.nat_toString (fst ix)])) (JS.indexed items).

Definition member_entries (currentPath : list string) (fields : list (string * json))
  : list (json * list string) :=
  map (fun kv => (snd kv, currentPath ++ [fst kv])) fields.

End Reports.

End Search.

(** ** The schema validator ([src/lib/json-parser.ts], lines 99 to 461) *)

Module Validator.

Record ValidationError : Type := {
  path : string;
  message : string;
  value : jsval
}.

(** How a call ends: it returns, it throws (a TypeError), or the model ran
    out of fuel. *)
Inductive completion : Type := Normal | Thrown | OutOfFuel.

(** A statement acting on the shared [errors] array.  The array keeps what
    was pushed before a throw. *)
Definition action : Type :=
  list ValidationError -> completion * list ValidationError.

Definition skip : action := fun errors => (Normal, errors).
Definition push (e : ValidationError) : action := fun errors => (Normal, errors ++ [e]).
Definition throw : action := fun errors => (Thrown, errors).

Definition seq (a b : action) : action :=
  fun errors =>
    match a errors with
    | (Normal, errors) => b errors
    | stopped => stopped
    end.

Infix ";;" := seq (at level 61, right associativity).

Definition when (c : bool) (a : action) : action := if c then a else skip.

Fixpoint forEach {A : Type} (xs : list A) (f : A -> action) : action :=
  match xs with
  | [] => skip
  | x :: xs => f x ;; forEach xs f
  end.

(** [xs.filter(p)] for a callback that may throw. *)
Fixpoint filter_with {A : Type} (p : A -> completion * bool) (xs : list A)
  : completion * list A :=
  match xs with
  | [] => (Normal, [])
  | x :: xs =>
      match p x with
      | (Normal, keep) =>
          match filter_with p xs with
          | (Normal, kept) => (Normal, if keep then x :: kept else kept)
          | stopped => stopped
          end
      | (stopped, _) => (stopped, [])
      end
  end.

(** [path ? `${path}.${prop}` : prop] *)
Definition member_path (path prop : string) : string :=
  if path =? "" then prop else path +++ "." +++ prop.

(** [path ? `${path}[${index}]` : `[${index}]`] *)
Definition item_path (path : string) (index : nat) : string :=
  if path =? "" then "[" +++ JS.nat_toString index +++ "]"
  else path +++ "[" +++ JS.nat_toString index +++ "]".

Definition getJsonType (value : jsval) : string :=
  match value with
  | VJson JNull => "null"
  | VJson (JArray _) => "array"
  | VJson (JNumber n) => if JS.Number_isInteger n then "integer" else "number"
  | _ => JS.typeof value
  end.

Section WithHost.
Context {host : Host}.

(** A regular expression literal: its source is well formed. *)
Definition literal_test (source flags subject : string) : bool :=
  match RegExp_test source flags subject with
  | Some b => b
  | None => false
  end.

(** [formatValidators[name]] applied to [value], for the object literal of
    lines 313 to 326: [None] when the lookup is [undefined], [Some None]
    when calling what the lookup finds throws, [Some (Some b)] when the call
    returns a value whose truthiness is [b].  Besides its five own members
    the literal inherits those of [Object.prototype]. *)
Definition formatValidators (name value : string) : option (option bool) :=
  if name =? "email" then Some (Some (literal_test "^[^\s@]+@[^\s@]+\.[^\s@]+$" "" value))
  else if name =? "uri" then Some (Some (URL_parses value))
  else if name =? "date" then
    Some (Some (literal_test "^\d{4}-\d{2}-\d{2}$" "" value && negb (Date_parse_isNaN value)))
  else if name =? "date-time" then Some (Some (negb (Date_parse_isNaN value)))
  else if name =? "uuid" then
    Some (Some (literal_test
      "^[0-9a-f]{8}-[0-9a-f]{4}-[1-5][0-9a-f]{3}-[89ab][0-9a-f]{3}-[0-9a-f]{12}$" "i" value))
  else if name =? "constructor" then Some (Some true)
  else if name =? "toString" then Some (Some true)
  else if name =? "isPrototypeOf" then Some (Some false)
  else if JS.mem name JS.Object_prototype_names then Some None
  else None.

(** Lines 124 to 185: the error of the type check, if it fails. *)
Definition typeCheck (data : jsval) (schema : json) (path : string)
  : option ValidationError :=
  match JS.get schema "type" with
  | Some expectedType =>
      if JS.truthy expectedType then
        let actualType := getJsonType data in
        if JS.is_string expectedType "integer" then
          match data with
          | VJson (JNumber n) =>
              if negb (JS.Number_isInteger n) then
                Some {| path := path;
                        message := "Expected integer, got decimal number " +++ NumberToString n;
                        value := data |}
              else if negb (JS.Number_isFinite n) then
                Some {| path := path;
                        message := "Expected finite integer, got " +++ NumberToString n;
                        value := data |}
              else None
          | _ =>
              Some {| path := path;
                      message := "Expected integer, got " +++ actualType;
                      value := data |}
          end
        else if JS.is_string expectedType "number" then
          match data with
          | VJson (JNumber n) =>
              if negb (JS.Number_isFinite n) then
                Some {| path := path;
                        message := "Expected finite number, got " +++ NumberToString n;
                        value := data |}
              else None
          | _ =>
              Some {| path := path;
                      message := "Expected number, got " +++ actualType;
                      value := data |}
          end
        else if negb (JS.is_string expectedType actualType) then
          Some {| path := path;
                  message := "Expected type " +++ JS.ToString expectedType
                             +++ ", got " +++ actualType;
                  value := data |}
        else None
      else None
  | None => None
  end.

(** Lines 188 to 200.  The reported path and message print the listed
    name. *)
Definition checkRequired (data : jsval) (schema : json) (path : string) : action :=
  match JS.get schema "required" with
  | Some (JArray required) =>
      if JS.is_plain_object data then
        forEach required (fun prop =>
          let prop := JS.ToString prop in
          when (negb (JS.has_property prop data))
            (push {| path := member_path path prop;
                     message := "Missing required property: " +++ prop;
                     value := VUndefined |}))
      else skip
  | _ => skip
  end.

Section Recursive.
(** The recursive calls. *)
Variable self : jsval -> json -> string -> action.

(** Lines 203 to 224. *)
Definition checkProperties (data : jsval) (schema : json) (path : string) : action :=
  match JS.get schema "properties" with
  | Some properties =>
      if JS.truthy properties && JS.is_plain_object data then
        forEach (JS.Object_entries properties) (fun entry =>
          let (prop, propSchema) := entry in
          when (JS.has_property prop data)
            (let propPath := member_path path prop in
             self (JS.get_member data prop) propSchema propPath)) ;;
        match JS.get schema "additionalProperties" with
        | Some (JBool false) =>
            let allowedProps := JS.Object_keys properties in
            forEach (JS.own_keys data) (fun prop =>
              when (negb (JS.mem prop allowedProps))
                (push {| path := member_path path prop;
                         message := "Additional property not allowed: " +++ prop;
                         value := JS.get_member data prop |}))
        | _ => skip
        end
      else skip
  | None => skip
  end.

(** Lines 227 to 232. *)
Definition checkItems (data : jsval) (schema : json) (path : string) : action :=
  match JS.get schema "items", data with
  | Some items, VJson (JArray elements) =>
      if JS.truthy items then
        forEach (JS.indexed elements) (fun entry =>
          let (index, item) := entry in
          let itemPath := item_path path index in
          self (VJson item) items itemPath)
      else skip
  | _, _ => skip
  end.

(** The callback of the [filter] calls of lines 413 and 430: the subschema
    is run on an error list of its own. *)
Definition matches (data : jsval) (path : string) (subSchema : json)
  : completion * bool :=
  let (c, subErrors) := self data subSchema path [] in
  (c, (List.length subErrors =? 0)%nat).

(** Lines 412 to 426. *)
Definition checkOneOf (data : jsval) (schema : json) (path : string) : action :=
  match JS.get schema "oneOf" with
  | Some (JArray oneOf) =>
      fun errors =>
        match filter_with (matches data path) oneOf with
        | (Normal, validSchemas) =>
            when (negb (List.length validSchemas =? 1)%nat)
              (push {| path := path;
                       message := "Data must match exactly one schema. Matched "
                                  +++ JS.nat_toString (List.length validSchemas)
                                  +++ " schemas.";
                       value := data |}) errors
        | (stopped, _) => (stopped, errors)
        end
  | _ => skip
  end.

(** Lines 429 to 443. *)
Definition checkAnyOf (data : jsval) (schema : json) (path : string) : action :=
  match JS.get schema "anyOf" with
  | Some (JArray anyOf) =>
      fun errors =>
        match filter_with (matches data path) anyOf with
        | (Normal, validSchemas) =>
            when (List.length validSchemas =? 0)%nat
              (push {| path := path;
                       message := "Data must match at least one schema. Matched 0 schemas.";
                       value := data |}) errors
        | (stopped, _) => (stopped, errors)
        end
  | _ => skip
  end.

(** Lines 446 to 450. *)
Definition checkAllOf (data : jsval) (schema : json) (path : string) : action :=
  match JS.get schema "allOf" with
  | Some (JArray allOf) => forEach allOf (fun subSchema => self data subSchema path)
  | _ => skip
  end.

End Recursive.

(** Lines 256 to 263: the indices whose serialised item was seen before. *)
Fixpoint find_duplicates (items : list (nat * json)) (seen : list string)
    (duplicates : list nat) : list nat :=
  match items with
  | [] => duplicates
  | (index, item) :: items =>
      let itemStr := JS.stringify item in
      if JS.mem itemStr seen
      then find_duplicates items seen (duplicates ++ [index])
      else find_duplicates items (itemStr :: seen) duplicates
  end.

(** Lines 235 to 273.  An array length prints as its decimal digits. *)
Definition checkArray (data : jsval) (schema : json) (path : string) : action :=
  match data with
  | VJson (JArray elements) =>
      let length := List.length elements in
      match JS.get schema "minItems" with
      | Some minItems =>
          when (JS.truthy minItems
                && PrimFloat.ltb (JS.Number_of_nat length) (JS.ToNumber minItems))
            (push {| path := path;
                     message := "Array too short. Minimum items: " +++ JS.ToString minItems
                                +++ ", got " +++ JS.nat_toString length;
                     value := data |})
      | None => skip
      end ;;
      match JS.get schema "maxItems" with
      | Some maxItems =>
          when (JS.truthy maxItems
                && PrimFloat.ltb (JS.ToNumber maxItems) (JS.Number_of_nat length))
            (push {| path := path;
                     message := "Array too long. Maximum items: " +++ JS.ToString maxItems
                                +++ ", got " +++ JS.nat_toString length;
                     value := data |})
      | None => skip
      end ;;
      match JS.get schema "uniqueItems" with
      | Some (JBool true) =>
          let duplicates := find_duplicates (JS.indexed elements) [] [] in
          when (0 <? List.length duplicates)%nat
            (push {| path := path;
                     message := "Array items must be unique. Duplicate items at indices: "
                                +++ JS.join ", " (map JS.nat_toString duplicates);
                     value := data |})
      | _ => skip
      end
  | _ => skip
  end.

(** Lines 276 to 337. *)
Definition checkString (data : jsval) (schema : json) (path : string) : action :=
  match data with
  | VJson (JString s) =>
      let length := String.length s in
      match JS.get schema "minLength" with
      | Some minLength =>
          when (PrimFloat.ltb (JS.Number_of_nat length) (JS.ToNumber minLength))
            (push {| path := path;
                     message := "String too short. Minimum length: " +++ JS.ToString minLength
                                +++ ", got " +++ JS.nat_toString length;
                     value := data |})
      | None => skip
      end ;;
      match JS.get schema "maxLength" with
      | Some maxLength =>
          when (PrimFloat.ltb (JS.ToNumber maxLength) (JS.Number_of_nat length))
            (push {| path := path;
                     message := "String too long. Maximum length: " +++ JS.ToString maxLength
                                +++ ", got " +++ JS.nat_toString length;
                     value := data |})
      | None => skip
      end ;;
      match JS.get schema "pattern" with
      | Some pattern =>
          if JS.truthy pattern then
            match RegExp_test (JS.ToString pattern) "" s with
            | Some true => skip
            | Some false =>
                push {| path := path;
                        message := "String does not match pattern: " +++ JS.ToString pattern;
                        value := data |}
            | None =>
                push {| path := path;
                        message := "Invalid regex pattern: " +++ JS.ToString pattern;
                        value := VJson pattern |}
            end
          else skip
      | None => skip
      end ;;
      match JS.get schema "format" with
      | Some format =>
          if JS.truthy format then
            match formatValidators (JS.ToString format) s with
            | None => skip
            | Some None => throw
            | Some (Some ok) =>
                when (negb ok)
                  (push {| path := path;
                           message := "String does not match format: " +++ JS.ToString format;
                           value := data |})
            end
          else skip
      | None => skip
      end
  | _ => skip
  end.

(** Lines 340 to 383. *)
Definition checkNumber (data : jsval) (schema : json) (path : string) : action :=
  match data with
  | VJson (JNumber n) =>
      if JS.Number_isFinite n then
        match JS.get schema "minimum" with
        | Some minimum =>
            when (PrimFloat.ltb n (JS.ToNumber minimum))
              (push {| path := path;
                       message := "Number too small. Minimum: " +++ JS.ToString minimum
                                  +++ ", got " +++ NumberToString n;
                       value := data |})
        | None => skip
        end ;;
        match JS.get schema "maximum" with
        | Some maximum =>
            when (PrimFloat.ltb (JS.ToNumber maximum) n)
              (push {| path := path;
                       message := "Number too large. Maximum: " +++ JS.ToString maximum
                                  +++ ", got " +++ NumberToString n;
                       value := data |})
        | None => skip
        end ;;
        match JS.get schema "exclusiveMinimum" with
        | Some exclusiveMinimum =>
            when (PrimFloat.leb n (JS.ToNumber exclusiveMinimum))
              (push {| path := path;
                       message := "Number must be greater than "
                                  +++ JS.ToString exclusiveMinimum
                                  +++ ", got " +++ NumberToString n;
                       value := data |})
        | None => skip
        end ;;
        match JS.get schema "exclusiveMaximum" with
        | Some exclusiveMaximum =>
            when (PrimFloat.leb (JS.ToNumber exclusiveMaximum) n)
              (push {| path := path;
                       message := "Number must be less than "
                                  +++ JS.ToString exclusiveMaximum
                                  +++ ", got " +++ NumberToString n;
                       value := data |})
        | None => skip
        end ;;
        match JS.get schema "multipleOf" with
        | Some multipleOf =>
            if PrimFloat.ltb 0 (JS.ToNumber multipleOf) then
              let division := PrimFloat.div n (JS.ToNumber multipleOf) in
              when (negb (JS.Number_isInteger division))
                (push {| path := path;
                         message := "Number must be a multiple of "
                                    +++ JS.ToString multipleOf
                                    +++ ", got " +++ NumberToString n;
                         value := data |})
            else skip
        | None => skip
        end
      else skip
  | _ => skip
  end.

(** [a === b] for two results of [JSON.stringify]. *)
Definition same_text (a b : option string) : bool :=
  match a, b with
  | Some a, Some b => a =? b
  | None, None => true
  | _, _ => false
  end.

(** Lines 386 to 398. *)
Definition checkEnum (data : jsval) (schema : json) (path : string) : action :=
  match JS.get schema "enum" with
  | Some (JArray enumValues) =>
      let dataStr := JS.JSON_stringify data in
      let isValid :=
        existsb (fun enumValue => same_text (Some (JS.stringify enumValue)) dataStr)
          enumValues in
      when (negb isValid)
        (push {| path := path;
                 message := "Value must be one of: "
                            +++ JS.join ", " (map JS.stringify enumValues)
                            +++ ". Got: " +++ JS.show dataStr;
                 value := data |})
  | _ => skip
  end.

(** Lines 401 to 409. *)
Definition checkConst (data : jsval) (schema : json) (path : string) : action :=
  match JS.get schema "const" with
  | Some const =>
      when (negb (same_text (JS.JSON_stringify data) (Some (JS.stringify const))))
        (push {| path := path;
                 message := "Value must be exactly: " +++ JS.stringify const
                            +++ ". Got: " +++ JS.show (JS.JSON_stringify data);
                 value := data |})
  | None => skip
  end.

(** The body of [validateAgainstSchema], lines 122 to 451, with its
    recursive calls going to [self].  Reading [schema.type] throws when the
    schema is [null]; a failed type check pushes its error and returns. *)
Definition validateAgainstSchema_body (self : jsval -> json -> string -> action)
    (data : jsval) (schema : json) (path : string) : action :=
  match schema with
  | JNull => throw
  | _ =>
      match typeCheck data schema path with
      | Some error => push error
      | None =>
          checkRequired data schema path ;;
          checkProperties self data schema path ;;
          checkItems self data schema path ;;
          checkArray data schema path ;;
          checkString data schema path ;;
          checkNumber data schema path ;;
          checkEnum data schema path ;;
          checkConst data schema path ;;
          checkOneOf self data schema path ;;
          checkAnyOf self data schema path ;;
          checkAllOf self data schema path
      end
  end.

Fixpoint validate_fuel (fuel : nat) (data : jsval) (schema : json) (path : string)
  : action :=
  match fuel with
  | O => fun errors => (OutOfFuel, errors)
  | S fuel => validateAgainstSchema_body (validate_fuel fuel) data schema path
  end.

(** Every recursive call is on a value nested inside [schema]; one unit of
    fuel per level of nesting is enough (lemma [validate_fuel_enough]). *)
Definition validateAgainstSchema (data : jsval) (schema : json) (path : string)
  : action :=
  validate_fuel (S (height schema)) data schema path.

Definition invalidSchema (schemaString : string) : ValidationError :=
  {| path := "schema";
     message := "Invalid schema format";
     value := VJson (JString schemaString) |}.

(** [validateJsonSchema], lines 105 to 120, after [JSON.parse(schemaString)]
    has returned [parsed] ([None] when it threw). *)
Definition validateParsed (data : jsval) (parsed : option json) (schemaString : string)
  : option (list ValidationError) :=
  match parsed with
  | None => Some [invalidSchema schemaString]
  | Some schema =>
      match validateAgainstSchema data schema "" [] with
      | (Normal, errors) => Some errors
      | (Thrown, errors) => Some (errors ++ [invalidSchema schemaString])
      | (OutOfFuel, _) => None
      end
  end.

Definition validateJsonSchema (data : jsval) (schemaString : string)
  : option (list ValidationError) :=
  validateParsed data (JSON_parse schemaString) schemaString.

End WithHost.

(** *** Vocabulary of the properties *)

(** A statement that does not run out of fuel. *)
Definition finishes (a : action) : Prop :=
  forall errors, fst (a errors) <> OutOfFuel.

(** The recursive calls on schemas of height below [h] do not run out of
    fuel; two candidates for the recursive call agree below [h]. *)
Definition finishes_below (h : nat) (self : jsval -> json -> string -> action) : Prop :=
  forall data schema path, height schema < h -> finishes (self data schema path).

Definition agree_below (h : nat) (f g : jsval -> json -> string -> action) : Prop :=
  forall data schema path errors,
    height schema < h -> f data schema path errors = g data schema path errors.

(** The keywords [validateAgainstSchema] reads from a schema. *)
Definition keywords : list string :=
  [ "type"; "required"; "properties"; "additionalProperties"; "items";
    "minItems"; "maxItems"; "uniqueItems"; "minLength"; "maxLength";
    "pattern"; "format"; "minimum"; "maximum"; "exclusiveMinimum";
    "exclusiveMaximum"; "multipleOf"; "enum"; "const"; "oneOf"; "anyOf";
    "allOf" ].

Definition no_recognized_fields (schema : json) : Prop :=
  forall name, In name keywords -> JS.get schema name = None.

(** The type check fails, in the words of the specification: for the type
    ["integer"] the value is not a number, or has a fractional part, or is not
    finite; for ["number"] it is not a number or is not finite; for any other
    type the class of the value is not that type. *)
Definition fails_type_check (data : jsval) (type : json) : Prop :=
  if JS.is_string type "integer" then
    ~ exists n, data = VJson (JNumber n)
                /\ JS.Number_isInteger n = true /\ JS.Number_isFinite n = true
  else if JS.is_string type "number" then
    ~ exists n, data = VJson (JNumber n) /\ JS.Number_isFinite n = true
  else type <> JString (getJsonType data).

Section Matching.
Context {host : Host}.

(** The number of subschemas that [data] matches: those whose run on an
    error list of their own leaves it empty. *)
Definition matched (data : jsval) (path : string) (subs : list json) : nat :=
  List.length
    (filter (fun sub =>
               (List.length (snd (validateAgainstSchema data sub path [])) =? 0)%nat)
       subs).

End Matching.

End Validator.

(** ** A host for closed examples *)

(** Its number printing is exact on the doubles with an integral value
    below 1e21, which JavaScript prints as their decimal digits; the
    examples print no other number.  It reads no number from text, knows the
    empty object as the one JSON text, and has no regular expressions. *)
Module ExampleHost.

Definition integral_toString (x : float) : string :=
  match Prim2SF x with
  | S754_zero _ => "0"
  | S754_finite s m e =>
      (if s then "-" else "")
      +++ JS.nat_toString (Z.to_nat (if (0 <=? e)%Z then Z.pos m * 2 ^ e
                                     else Z.pos m / 2 ^ (- e)))
  | S754_infinity s => if s then "-Infinity" else "Infinity"
  | S754_nan => "NaN"
  end.

Definition example_host : Host := {|
  NumberToString := integral_toString;
  StringToNumber := fun _ => PrimFloat.nan;
  JSON_parse := fun s => if s =? "{}" then Some (JObject []) else None;
  RegExp_test := fun _ _ _ => None;
  URL_parses := fun _ => false;
  Date_parse_isNaN := fun _ => true
|}.

End ExampleHost.

(** ** The documents of the examples *)

Module Documents.

(** [{"a":[1,2,3]}] *)
Definition a123 : json :=
  JObject [("a", JArray [JNumber 1; JNumber 2; JNumber 3])].

(** [{"K":"V"}] *)
Definition KV : json := JObject [("K", JString "V")].

(** The same members in two orders: [{"a":"x","b":"y"}] and
    [{"b":"y","a":"x"}]. *)
Definition ab : list (string * json) := [("a", JString "x"); ("b", JString "y")].
Definition ba : list (string * json) := [("b", JString "y"); ("a", JString "x")].

End Documents.

(** ** What the metric loops compute *)

Module Shape.

(** The depth of the deepest node below a value, the value itself being at
    depth 0. *)
Fixpoint depth (j : json) : nat :=
  match j with
  | JArray items => list_max (map (fun x => S (depth x)) items)
  | JObject fields => list_max (map (fun kv => S (depth (snd kv))) fields)
  | _ => 0
  end.

(** The depth of the deepest node below the entries of the stack of
    [getMaxDepth]. *)
Definition reach (stack : list (json * nat)) : nat :=
  list_max (map (fun e => snd e + depth (fst e)) stack).

(** The number of nodes of a value that carry a type tag. *)
Fixpoint tag_count (tag : string) (j : json) : nat :=
  (if Metrics.type_tag j =? tag then 1 else 0)
  + match j with
    | JArray items => list_sum (map (tag_count tag) items)
    | JObject fields => list_sum (map (fun kv => tag_count tag (snd kv)) fields)
    | _ => 0
    end.

(** The count a distribution holds for a tag. *)
Definition count_of (d : Metrics.distribution) (tag : string) : nat :=
  match Metrics.lookup d tag with
  | Some n => n
  | None => 0
  end.

End Shape.

(** ** Vocabulary for the validator as a whole *)

Module ValidatorSpec.
Import Validator.

(** A statement that only appends to the error list, and appends the same
    errors whatever the list holds. *)
Definition appends (a : action) : Prop :=
  forall errors, a errors = (fst (a []), errors ++ snd (a [])).

(** A statement whose errors all lie at [path] or below it. *)
Definition reports_under (path : string) (a : action) : Prop :=
  forall e, In e (snd (a [])) -> prefix path (Validator.path e) = true.

(** A schema that has at most one of the keywords read by the validator. *)
Definition only_keyword (keyword : string) (schema : json) : Prop :=
  forall name, In name keywords -> name <> keyword -> JS.get schema name = None.

(** The outcome of runs made one after the other, each on an error list of
    its own: the errors of the runs up to and including the first that does
    not return, with the completion of that run, or [Normal] when all of them
    return. *)
Fixpoint sequenced (runs : list (completion * list ValidationError))
  : completion * list ValidationError :=
  match runs with
  | [] => (Normal, [])
  | (Normal, errors) :: runs =>
      let (c, rest) := sequenced runs in (c, errors ++ rest)
  | stopped :: _ => stopped
  end.

(** A schema without one of its fields. *)
Definition without (name : string) (schema : json) : json :=
  match schema with
  | JObject fields => JObject (filter (fun kv => negb (fst kv =? name)) fields)
  | _ => schema
  end.

End ValidatorSpec.

(** ** The matches of a document, in document order *)

Module SearchSpec.
Import Search.

(** A result without its position: path, kind and text. *)
Definition hit : Type := string * kind * string.

Definition strip (r : SearchResult) : hit := (path r, type r, text r).

(** The results carry their indices as positions. *)
Definition numbered (results : list SearchResult) : Prop :=
  forall i r, nth_error results i = Some r -> position r = i.

Section Hits.
Context {host : Host}.
Variable caseSensitive : bool.
Variable searchTerm : string.

Definition key_hit (q : list string) (k : string) : list hit :=
  if JS.includes (fold_case caseSensitive k) searchTerm
  then [ (JS.join "." (q ++ [k]), Key, k) ]
  else [].

(** The matching keys and primitives of the value [v] at path [q]: each key
    of an object before what lies below it, members and elements in their
    order. *)
Fixpoint hits (v : json) (q : list string) : list hit :=
  match v with
  | JArray items =>
      (fix elements (l : list json) (i : nat) : list hit :=
         match l with
         | [] => []
         | x :: l => hits x (q ++ [JS.nat_toString i]) ++ elements l (S i)
         end) items 0
  | JObject fields =>
      (fix members (l : list (string * json)) : list hit :=
         match l with
         | [] => []
         | (k, c) :: l => key_hit q k ++ hits c (q ++ [k]) ++ members l
         end) fields
  | _ =>
      if JS.includes (fold_case caseSensitive (JS.ToString v)) searchTerm
      then [ (JS.join "." q, Value, JS.ToString v) ]
      else []
  end.

End Hits.
End SearchSpec.

(** ** Moving through the results (the search bar component, lines 96 to
    161) *)

Module Navigation.

(** ["next" | "prev"] *)
Inductive direction : Type := next | prev.

(** [navigateSearch], lines 130 to 138: the index that the state update
    given to [setCurrentSearchIndex] computes from the previous one.  The
    remainder [%] takes the sign of its left operand. *)
Definition navigateSearch (d : direction) (length : nat) (index : Z) : Z :=
  if (length =? 0)%nat then index
  else
    match d with
    | next => Z.rem (index + 1) (Z.of_nat length)
    | prev => Z.rem (index - 1 + Z.of_nat length) (Z.of_nat length)
    end.

(** [handleKeyDown], lines 142 to 155, on a key event: its key, whether
    shift is held and whether its target is the search input.  The two state
    updates are applied one after the other. *)
Definition handleKeyDown (key : string) (shiftKey onSearchInput : bool)
    (length : nat) (index : Z) : Z :=
  let index :=
    if ((key =? "F3") || ((key =? "Enter") && onSearchInput)) && (0 <? length)%nat
    then navigateSearch next length index
    else index in
  if (key =? "F3") && shiftKey && (0 <? length)%nat
  then navigateSearch prev length index
  else index.

Section WithHost.
Context {host : Host}.

(** The timer callback of [debouncedSearch], lines 104 to 113: the new
    results and the new current index. *)
Definition runSearch (caseSensitive : bool) (jsonData : json) (term : string)
  : option (list Search.SearchResult * Z) :=
  if JS.truthy jsonData && negb (term =? "") then
    match Search.performSearch caseSensitive term jsonData with
    | Some results =>
        Some (results, if (0 <? List.length results)%nat then 0%Z else (-1)%Z)
    | None => None
    end
  else Some ([], (-1)%Z).

End WithHost.

(** [xs[i]] for a number [i] that is an integer; [None] is [undefined]. *)
Definition at_index {A : Type} (xs : list A) (i : Z) : option A :=
  if (i <? 0)%Z then None else nth_error xs (Z.to_nat i).

(** The index is that of a result, or -1 when there is none. *)
Definition in_step (n : nat) (i : Z) : Prop :=
  (n = 0 /\ i = (-1)%Z) \/ (0 <= i < Z.of_nat n)%Z.

(** What moves the current index: a click on one of the two buttons (lines
    189 and 197) or a key press that reaches the listener of line 157. *)
Inductive event : Type :=
| Click (d : direction)
| KeyDown (key : string) (shiftKey onSearchInput : bool).

Definition handle (length : nat) (index : Z) (e : event) : Z :=
  match e with
  | Click d => navigateSearch d length index
  | KeyDown key shiftKey onSearchInput =>
      handleKeyDown key shiftKey onSearchInput length index
  end.

End Navigation.

(** ** The tree node component ([src/components/json-tree-node.tsx]) *)

Module TreeNode.

(** An element of [path : (string | number)[]]: the index of an array
    element or the key of an object member. *)
Inductive segment : Type :=
| Index (index : nat)
| Name (key : string).

Definition segment_toString (s : segment) : string :=
  match s with
  | Index index => JS.nat_toString index
  | Name key => key
  end.

(** [path.join(".")] *)
Definition currentPath (path : list segment) : string :=
  JS.join "." (map segment_toString path).

(** [hasValidationError], lines 52 to 55. *)
Definition hasValidationError (validationErrors : list Validator.ValidationError)
    (path : list segment) : bool :=
  let currentPath := currentPath path in
  existsb (fun error => Validator.path error =? currentPath) validationErrors.

(** [isCurrentSearchResult], lines 58 to 63. *)
Definition isCurrentSearchResult (currentSearchIndex : Z)
    (searchResults : list Search.SearchResult) (path : list segment) : bool :=
  if (currentSearchIndex =? -1)%Z then false
  else
    match Navigation.at_index searchResults currentSearchIndex with
    | None => false
    | Some currentResult =>
        let currentPath := currentPath path in
        Search.path currentResult =? currentPath
    end.

(** The nodes the component renders below a value, when expanded: an array
    passes [[...path, index]] to each element, an object [[...path, key]] to
    each member (lines 343 to 385). *)
Inductive renders : json -> list segment -> json -> Prop :=
| renders_self v : renders v [] v
| renders_item items i c p v :
    nth_error items i = Some c -> renders c p v ->
    renders (JArray items) (Index i :: p) v
| renders_member fields k c p v :
    In (k, c) fields -> renders c p v ->
    renders (JObject fields) (Name k :: p) v.

Section WithHost.
Context {host : Host}.
Variable caseSensitive : bool.
Variable label : string.

(** [matchesSearch], lines 81 to 109, for a term that is not empty: the
    callback of [Object.entries(data).some] is [entry]; the entries of an
    array are its indices and elements. *)
Fixpoint matchesSearch_from (termToSearch : string) (data : json) : bool :=
  let labelToSearch := Search.fold_case caseSensitive label in
  if JS.includes labelToSearch termToSearch then true
  else
    let entry (key : string) (value : json) (below : bool) : bool :=
      let keyToSearch := Search.fold_case caseSensitive key in
      if JS.includes keyToSearch termToSearch then true
      else if Search.is_primitive value then
        JS.includes (Search.fold_case caseSensitive (JS.ToString value)) termToSearch
      else below in
    match data with
    | JArray items =>
        (fix some (l : list json) (i : nat) : bool :=
           match l with
           | [] => false
           | value :: l =>
               entry (JS.nat_toString i) value (matchesSearch_from termToSearch value)
               || some l (S i)
           end) items 0
    | JObject fields =>
        (fix some (l : list (string * json)) : bool :=
           match l with
           | [] => false
           | (key, value) :: l =>
               entry key value (matchesSearch_from termToSearch value) || some l
           end) fields
    | _ =>
        JS.includes (Search.fold_case caseSensitive (JS.ToString data)) termToSearch
    end.

Definition matchesSearch (data : json) (term : string) : bool :=
  if term =? "" then false
  else matchesSearch_from (Search.fold_case caseSensitive term) data.

End WithHost.

(** The path [validateAgainstSchema] gives to the node reached from the root
    through these keys and indices: [properties] extends the path with
    [member_path], [items] with [item_path]. *)
Definition validator_path (path : list segment) : string :=
  fold_left
    (fun p s =>
       match s with
       | Index index => Validator.item_path p index
       | Name key => Validator.member_path p key
       end)
    path "".

(** The last code unit of a string. *)
Fixpoint last_unit (s : string) : option ascii :=
  match s with
  | EmptyString => None
  | String c EmptyString => Some c
  | String _ s => last_unit s
  end.

End TreeNode.

(** * Properties *)

(** ** Sizes of work lists *)

Lemma list_sum_rev (l : list nat) : list_sum (rev l) = list_sum l.
Proof.
  induction l as [ | x l IH ]; simpl; auto.
  rewrite list_sum_app, IH. simpl. lia.
Qed.

Lemma stack_size_push_all (xs stack : list json) :
  stack_size (push_all xs stack) = stack_size xs + stack_size stack.
Proof.
  unfold stack_size, push_all.
  now rewrite map_app, list_sum_app, map_rev, list_sum_rev.
Qed.

Lemma json_size_children (v : json) : json_size v = S (stack_size (children v)).
Proof.
  destruct v; simpl; auto.
  unfold stack_size. now rewrite map_map.
Qed.

(** ** The metrics pass *)

Module MetricsFacts.
Import Metrics Documents.

Lemma countNodes_loop_counts (fuel : nat) :
  forall stack count,
    stack_size stack <= fuel ->
    countNodes_loop fuel stack count = Some (count + stack_size stack).
Proof.
  induction fuel as [ | fuel IH ]; intros [ | current stack ] count Hfuel;
    simpl; try (f_equal; unfold stack_size; simpl; lia).
  - exfalso. unfold stack_size in Hfuel. simpl in Hfuel.
    rewrite (json_size_children current) in Hfuel. lia.
  - rewrite IH.
    + f_equal. rewrite stack_size_push_all. unfold stack_size at 3. simpl.
      rewrite (json_size_children current). fold (stack_size stack). lia.
    + rewrite stack_size_push_all. unfold stack_size in Hfuel. simpl in Hfuel.
      rewrite (json_size_children current) in Hfuel. fold (stack_size stack) in Hfuel. lia.
Qed.

(** [countNodes] returns, and counts every node once. *)
Lemma countNodes_counts_every_node (data : json) :
  countNodes data = Some (json_size data).
Proof.
  unfold countNodes. rewrite countNodes_loop_counts.
  - f_equal. unfold stack_size. simpl. lia.
  - unfold stack_size. simpl. lia.
Qed.

Lemma lookup_store_total (d : distribution) (type : string) (n : nat) :
  total (store d type n) + match lookup d type with Some m => m | None => 0 end
  = total d + n.
Proof.
  unfold total. induction d as [ | [k m] d IH ]; simpl.
  - lia.
  - destruct (k =? type)%string; simpl; lia.
Qed.

(** One more node, one more unit in exactly one entry. *)
Lemma total_bump (d : distribution) (type : string) :
  total (bump d type) = total d + 1.
Proof.
  unfold bump. pose proof (lookup_store_total d type
    (match lookup d type with Some n => n | None => 0 end + 1)). lia.
Qed.

Lemma getTypeDistribution_loop_total (fuel : nat) :
  forall stack d,
    stack_size stack <= fuel ->
    exists d', getTypeDistribution_loop fuel stack d = Some d'
               /\ total d' = total d + stack_size stack.
Proof.
  induction fuel as [ | fuel IH ]; intros [ | current stack ] d Hfuel; simpl.
  - exists d. split; [reflexivity | unfold stack_size; simpl; lia].
  - exfalso. unfold stack_size in Hfuel. simpl in Hfuel.
    rewrite (json_size_children current) in Hfuel. lia.
  - exists d. split; [reflexivity | unfold stack_size; simpl; lia].
  - unfold stack_size in Hfuel. simpl in Hfuel.
    rewrite (json_size_children current) in Hfuel. fold (stack_size stack) in Hfuel.
    destruct (IH (push_all (children current) stack) (bump d (type_tag current)))
      as [d' [Hrun Htotal]].
    + rewrite stack_size_push_all. lia.
    + exists d'. split; auto.
      rewrite Htotal, total_bump, stack_size_push_all.
      unfold stack_size at 3. simpl. rewrite (json_size_children current).
      fold (stack_size stack). lia.
Qed.

Lemma getMaxDepth_loop_returns (fuel : nat) :
  forall stack maxDepth,
    stack_size (map fst stack) <= fuel ->
    exists depth, getMaxDepth_loop fuel stack maxDepth = Some depth.
Proof.
  induction fuel as [ | fuel IH ]; intros [ | [current depth] stack ] maxDepth Hfuel; simpl.
  - eauto.
  - exfalso. unfold stack_size in Hfuel. simpl in Hfuel.
    rewrite (json_size_children current) in Hfuel. lia.
  - eauto.
  - apply IH. unfold push_all. rewrite map_app, map_rev, map_map. simpl.
    rewrite map_id. fold (push_all (children current) (map fst stack)).
    rewrite stack_size_push_all.
    unfold stack_size in Hfuel. simpl in Hfuel.
    rewrite (json_size_children current) in Hfuel.
    fold (stack_size (map fst stack)) in Hfuel. lia.
Qed.

Lemma getMaxDepth_returns (data : json) :
  exists depth, getMaxDepth data = Some depth.
Proof.
  apply getMaxDepth_loop_returns. unfold stack_size. simpl. lia.
Qed.

(** C8: on [{"a":[1,2,3]}] the node count is 5 (the root object, the array
    and the three numbers, one per node, as the type distribution shows) and
    the maximal depth is 2, the root being at depth 0. *)
Theorem metrics_of_a123 :
  countNodes a123 = Some 5
  /\ getMaxDepth a123 = Some 2
  /\ getTypeDistribution a123 = Some [("object", 1); ("array", 1); ("number", 3)].
Proof. repeat split; reflexivity. Qed.

(** C9: for every JSON value both passes return, and the counts of the type
    distribution add up to the node count. *)
Theorem typeDistribution_sums_to_nodeCount (data : json) :
  exists d n,
    getTypeDistribution data = Some d /\ countNodes data = Some n /\ total d = n.
Proof.
  destruct (getTypeDistribution_loop_total (json_size data) [data] [])
    as [d [Hrun Htotal]].
  - unfold stack_size. simpl. lia.
  - exists d, (json_size data). split; [exact Hrun | split].
    + apply countNodes_counts_every_node.
    + rewrite Htotal. unfold total, stack_size. simpl. lia.
Qed.

End MetricsFacts.

(** ** The tree search *)

Module SearchFacts.
Import Search Documents.

Lemma in_indexed_from {A : Type} (xs : list A) :
  forall start i c,
    In (i, c) (combine (seq start (List.length xs)) xs)
    <-> start <= i /\ nth_error xs (i - start) = Some c.
Proof.
  induction xs as [ | x xs IH ]; intros start i c; simpl.
  - split; [ tauto | ]. intros [_ H]. destruct (i - start); discriminate.
  - rewrite IH. split.
    + intros [ H | [Hle H] ].
      * inversion H; subst. split; [ lia | ]. now rewrite Nat.sub_diag.
      * split; [ lia | ]. replace (i - start) with (S (i - S start)) by lia. exact H.
    + intros [Hle H]. destruct (i - start) as [ | n ] eqn:E.
      * left. inversion H; subst. f_equal. lia.
      * right. split; [ lia | ]. replace (i - S start) with n by lia. exact H.
Qed.

Lemma in_indexed {A : Type} (xs : list A) (i : nat) (c : A) :
  In (i, c) (JS.indexed xs) <-> nth_error xs i = Some c.
Proof.
  unfold JS.indexed. rewrite in_indexed_from, Nat.sub_0_r.
  split; [ tauto | ]. split; [ lia | assumption ].
Qed.

Lemma map_snd_indexed_from {A : Type} (xs : list A) :
  forall start, map snd (combine (seq start (List.length xs)) xs) = xs.
Proof.
  induction xs as [ | x xs IH ]; intros start; simpl; [ | rewrite IH ]; reflexivity.
Qed.

Lemma map_snd_indexed {A : Type} (xs : list A) : map snd (JS.indexed xs) = xs.
Proof. apply map_snd_indexed_from. Qed.

(** The nodes of a primitive value and of a container. *)
Lemma subnode_primitive (w : json) (p : list string) (v : json) :
  is_primitive w = true -> subnode w p v -> p = [] /\ v = w.
Proof. intros Hw H. destruct H; [ auto | discriminate | discriminate ]. Qed.

Lemma subnode_array (items : list json) (p : list string) (v : json) :
  subnode (JArray items) p v ->
  (p = [] /\ v = JArray items)
  \/ exists i c p', nth_error items i = Some c /\ subnode c p' v
                    /\ p = JS.nat_toString i :: p'.
Proof.
  intros H. inversion H; subst; [ left; split; reflexivity | right ].
  do 3 eexists. repeat split; eassumption.
Qed.

Lemma subnode_object (fields : list (string * json)) (p : list string) (v : json) :
  subnode (JObject fields) p v ->
  (p = [] /\ v = JObject fields)
  \/ exists k c p', In (k, c) fields /\ subnode c p' v /\ p = k :: p'.
Proof.
  intros H. inversion H; subst; [ left; split; reflexivity | right ].
  do 3 eexists. repeat split; eassumption.
Qed.

Section WithHost.
Context {host : Host}.
Variable caseSensitive : bool.
Variable searchTerm : string.

Local Abbreviation key_matches := (Search.key_matches caseSensitive searchTerm).
Local Abbreviation value_matches := (Search.value_matches caseSensitive searchTerm).
Local Abbreviation emitted := (Search.emitted caseSensitive searchTerm).
Local Abbreviation emitted_value := (Search.emitted_value caseSensitive searchTerm).
Local Abbreviation emitted_key := (Search.emitted_key caseSensitive searchTerm).

(** What is found below a child is found below its parent. *)
Lemma emitted_item (items : list json) (i : nat) (c : json) (q : list string)
    (r : SearchResult) :
  nth_error items i = Some c ->
  emitted c (q ++ [JS.nat_toString i]) r -> emitted (JArray items) q r.
Proof.
  intros Hi [ p v Hs Hprim Hm Hr | p fields k c' Hs Hin Hm Hr ];
    rewrite <- app_assoc in Hr; simpl in Hr.
  - eapply emitted_value; [ eapply sub_item; eauto | eauto .. ].
  - eapply emitted_key; [ eapply sub_item; eauto | eauto .. ].
Qed.

Lemma emitted_member (fields : list (string * json)) (k : string) (c : json)
    (q : list string) (r : SearchResult) :
  In (k, c) fields ->
  emitted c (q ++ [k]) r -> emitted (JObject fields) q r.
Proof.
  intros Hi [ p v Hs Hprim Hm Hr | p fields' k' c' Hs Hin Hm Hr ];
    rewrite <- app_assoc in Hr; simpl in Hr.
  - eapply emitted_value; [ eapply sub_member; eauto | eauto .. ].
  - eapply emitted_key; [ eapply sub_member; eauto | eauto .. ].
Qed.

Lemma scan_entries_spec (currentPath : list string) :
  forall entries stack results,
  exists hits,
    scan_entries caseSensitive searchTerm currentPath entries stack results
    = (push_all (member_entries currentPath entries) stack, results ++ hits)
    /\ (forall r, In r hits ->
          exists k c, In (k, c) entries /\ key_matches k /\ reports_key currentPath k r)
    /\ (forall k c, In (k, c) entries -> key_matches k ->
          exists r, In r hits /\ reports_key currentPath k r).
Proof.
  induction entries as [ | [key val] entries IH ]; intros stack results.
  - exists []. simpl. rewrite app_nil_r. repeat split; auto; contradiction.
  - simpl scan_entries.
    destruct (JS.includes (fold_case caseSensitive key) searchTerm) eqn:Hm.
    + match goal with
      | |- context [ scan_entries _ _ _ _ ?st (results ++ [?r0]) ] =>
          destruct (IH st (results ++ [r0])) as [hits [Hrun [Hsound Hcomplete]]];
          exists (r0 :: hits)
      end.
      split; [ | split ].
      * rewrite Hrun. unfold push_all, member_entries. simpl.
        rewrite <- !app_assoc. reflexivity.
      * intros r [ <- | Hr ].
        -- exists key, val. repeat split; simpl; auto.
        -- destruct (Hsound r Hr) as [k [c [Hin H]]]. exists k, c. simpl. tauto.
      * intros k c [ Heq | Hin ] Hk.
        -- inversion Heq; subst. eexists. split; [ left; reflexivity | ].
           repeat split; reflexivity.
        -- destruct (Hcomplete k c Hin Hk) as [r [Hr H]]. exists r. simpl. tauto.
    + destruct (IH ((val, currentPath ++ [key]) :: stack) results)
        as [hits [Hrun [Hsound Hcomplete]]].
      exists hits. split; [ | split ].
      * rewrite Hrun. unfold push_all, member_entries. simpl.
        rewrite <- !app_assoc. reflexivity.
      * intros r Hr. destruct (Hsound r Hr) as [k [c [Hin H]]]. exists k, c. simpl. tauto.
      * intros k c [ Heq | Hin ] Hk.
        -- inversion Heq; subst. unfold key_matches in Hk. congruence.
        -- apply (Hcomplete k c Hin Hk).
Qed.

Lemma search_loop_primitive (fuel : nat) (value : json) (currentPath : list string)
    (stack : list (json * list string)) (results : list SearchResult) :
  is_primitive value = true ->
  search_loop caseSensitive (S fuel) searchTerm ((value, currentPath) :: stack) results
  = search_loop caseSensitive fuel searchTerm stack
      (if JS.includes (fold_case caseSensitive (JS.ToString value)) searchTerm
       then results ++ [ {| path := JS.join "." currentPath;
                            type := Value;
                            text := JS.ToString value;
                            position := List.length results |} ]
       else results).
Proof. destruct value; intros H; try discriminate; reflexivity. Qed.

Lemma entries_size_push_all (kids stack : list (json * list string)) :
  entries_size (push_all kids stack) = entries_size kids + entries_size stack.
Proof.
  unfold entries_size, push_all. rewrite map_app, map_rev.
  apply (stack_size_push_all (map fst kids) (map fst stack)).
Qed.

Lemma entries_size_cons (w : json) (q : list string) (stack : list (json * list string)) :
  entries_size ((w, q) :: stack) = S (stack_size (children w)) + entries_size stack.
Proof.
  unfold entries_size, stack_size. simpl. now rewrite (json_size_children w).
Qed.

Lemma entries_size_items (q : list string) (items : list json) :
  entries_size (item_entries q items) = stack_size items.
Proof.
  unfold entries_size, item_entries. rewrite map_map. simpl.
  now rewrite map_snd_indexed.
Qed.

Lemma entries_size_members (q : list string) (fields : list (string * json)) :
  entries_size (member_entries q fields) = stack_size (map snd fields).
Proof.
  unfold entries_size, member_entries. now rewrite map_map.
Qed.

Lemma in_push_all {A : Type} (x : A) (xs stack : list A) :
  In x (push_all xs stack) <-> In x xs \/ In x stack.
Proof. unfold push_all. rewrite in_app_iff, <- in_rev. tauto. Qed.

(** The loop returns when it has one unit of fuel per node on its stack.
    What it adds to [results] is emitted by a node of a stack entry, and
    every such emission is added. *)
Lemma search_loop_spec (fuel : nat) :
  forall stack results,
    entries_size stack <= fuel ->
    exists final,
      search_loop caseSensitive fuel searchTerm stack results = Some final
      /\ (forall r, In r results -> In r final)
      /\ (forall r, In r final ->
            In r results \/ exists w q, In (w, q) stack /\ emitted w q r)
      /\ (forall w q r, In (w, q) stack -> emitted w q r ->
            exists r', In r' final /\ same_report r r').
Proof.
  induction fuel as [ | fuel IH ]; intros [ | [value currentPath] stack ] results Hfuel.
  - exists results. simpl. repeat split; auto; intros; contradiction.
  - rewrite entries_size_cons in Hfuel. lia.
  - exists results. simpl. repeat split; auto; intros; contradiction.
  - rewrite entries_size_cons in Hfuel.
    destruct (is_primitive value) eqn:Hprim.
    + (* a primitive *)
      rewrite search_loop_primitive by assumption.
      set (r0 := {| path := JS.join "." currentPath; type := Value;
                    text := JS.ToString value; position := List.length results |}).
      destruct (IH stack
                  (if JS.includes (fold_case caseSensitive (JS.ToString value)) searchTerm
                   then results ++ [r0] else results))
        as [final [Hrun [Hmono [Hsound Hcomplete]]]]; [ lia | ].
      exists final. split; [ exact Hrun | ].
      assert (Hhere : forall r, reports_value currentPath value r ->
                                value_matches value -> emitted value currentPath r).
      { intros r Hr Hm. apply (emitted_value value currentPath r [] value).
        - constructor.
        - assumption.
        - assumption.
        - now rewrite app_nil_r. }
      split; [ | split ].
      * intros r Hr. apply Hmono.
        destruct (JS.includes _ searchTerm); [ apply in_or_app | ]; auto.
      * intros r Hr. destruct (Hsound r Hr) as [ Hin | [w [q [Hin He]]] ].
        -- destruct (JS.includes _ searchTerm) eqn:Hm; [ | auto ].
           apply in_app_or in Hin. destruct Hin as [ Hin | [ <- | [] ] ]; [ auto | ].
           right. exists value, currentPath. split; [ left; reflexivity | ].
           apply Hhere; [ repeat split | exact Hm ].
        -- right. exists w, q. split; [ right | ]; assumption.
      * intros w q r [ Heq | Hin ] He; [ | eapply Hcomplete; eauto ].
        inversion Heq; subst w q; clear Heq.
        destruct He as [ p v Hs Hv Hm Hr | p fields k c Hs Hin Hm Hr ].
        -- destruct (subnode_primitive _ _ _ Hprim Hs) as [-> ->].
           rewrite app_nil_r in Hr. unfold value_matches in Hm.
           exists r0. split.
           ++ apply Hmono. rewrite Hm. apply in_or_app. right. left. reflexivity.
           ++ destruct Hr as [H1 [H2 H3]]. repeat split; simpl; assumption.
        -- destruct (subnode_primitive _ _ _ Hprim Hs) as [_ Heq]. subst value.
           discriminate.
    + destruct value as [ | b | n | s | items | fields ]; try discriminate; simpl children in Hfuel.
      * (* an array *)
        simpl search_loop. fold (item_entries currentPath items).
        destruct (IH (push_all (item_entries currentPath items) stack) results)
          as [final [Hrun [Hmono [Hsound Hcomplete]]]].
        { rewrite entries_size_push_all, entries_size_items. lia. }
        exists final. split; [ exact Hrun | split; [ exact Hmono | split ] ].
        -- intros r Hr. destruct (Hsound r Hr) as [ Hin | [w [q [Hin He]]] ]; [ auto | right ].
           apply in_push_all in Hin. destruct Hin as [ Hin | Hin ].
           ++ unfold item_entries in Hin. apply in_map_iff in Hin.
              destruct Hin as [[i c] [Heq Hin]]. simpl in Heq. inversion Heq; subst w q.
              apply in_indexed in Hin.
              exists (JArray items), currentPath. split; [ left; reflexivity | ].
              eapply emitted_item; eauto.
           ++ exists w, q. split; [ right | ]; assumption.
        -- intros w q r [ Heq | Hin ] He.
           ++ inversion Heq; subst w q; clear Heq.
              assert (Hdown : exists i c, nth_error items i = Some c
                                /\ emitted c (currentPath ++ [JS.nat_toString i]) r).
              { destruct He as [ p v Hs Hv Hm Hr | p fields k c Hs Hin Hm Hr ];
                  apply subnode_array in Hs;
                  destruct Hs as [ [_ Heq] | [i [c' [p' [Hi [Hs ->]]]]] ];
                  try (subst; discriminate).
                - exists i, c'. split; [ assumption | ].
                  eapply emitted_value; eauto. now rewrite <- app_assoc.
                - exists i, c'. split; [ assumption | ].
                  eapply emitted_key; eauto. now rewrite <- app_assoc. }
              destruct Hdown as [i [c [Hi He']]].
              apply (Hcomplete c (currentPath ++ [JS.nat_toString i]) r); [ | exact He' ].
              apply in_push_all. left. unfold item_entries. apply in_map_iff.
              exists (i, c). split; [ reflexivity | now apply in_indexed ].
           ++ apply (Hcomplete w q r); [ | exact He ]. apply in_push_all. now right.
      * (* an object *)
        simpl search_loop.
        destruct (scan_entries_spec currentPath fields stack results)
          as [hits [Hscan [Hhits_sound Hhits_complete]]].
        rewrite Hscan.
        destruct (IH (push_all (member_entries currentPath fields) stack) (results ++ hits))
          as [final [Hrun [Hmono [Hsound Hcomplete]]]].
        { rewrite entries_size_push_all, entries_size_members. lia. }
        exists final. split; [ exact Hrun | split; [ | split ] ].
        -- intros r Hr. apply Hmono, in_or_app. now left.
        -- intros r Hr. destruct (Hsound r Hr) as [ Hin | [w [q [Hin He]]] ].
           ++ apply in_app_or in Hin. destruct Hin as [ Hin | Hin ]; [ auto | right ].
              destruct (Hhits_sound r Hin) as [k [c [Hkc [Hm Hrep]]]].
              exists (JObject fields), currentPath. split; [ left; reflexivity | ].
              apply (emitted_key (JObject fields) currentPath r [] fields k c);
                [ constructor | assumption | assumption | now rewrite app_nil_r ].
           ++ right. apply in_push_all in Hin. destruct Hin as [ Hin | Hin ].
              ** unfold member_entries in Hin. apply in_map_iff in Hin.
                 destruct Hin as [[k c] [Heq Hin]]. simpl in Heq. inversion Heq; subst w q.
                 exists (JObject fields), currentPath. split; [ left; reflexivity | ].
                 eapply emitted_member; eauto.
              ** exists w, q. split; [ right | ]; assumption.
        -- intros w q r [ Heq | Hin ] He.
           ++ inversion Heq; subst w q; clear Heq.
              assert (Hcases :
                (exists k c, In (k, c) fields /\ key_matches k /\ reports_key currentPath k r)
                \/ exists k c, In (k, c) fields /\ emitted c (currentPath ++ [k]) r).
              { destruct He as [ p v Hs Hv Hm Hr | p fields' k c Hs Hin Hm Hr ];
                  apply subnode_object in Hs;
                  destruct Hs as [ [-> Heq] | [k' [c' [p' [Hi [Hs ->]]]]] ].
                - subst v. discriminate.
                - right. exists k', c'. split; [ assumption | ].
                  eapply emitted_value; eauto. now rewrite <- app_assoc.
                - inversion Heq; subst fields'. left. exists k, c.
                  rewrite app_nil_r in Hr. auto.
                - right. exists k', c'. split; [ assumption | ].
                  eapply emitted_key; eauto. now rewrite <- app_assoc. }
              destruct Hcases as [ [k [c [Hkc [Hm Hrep]]]] | [k [c [Hkc He']]] ].
              ** destruct (Hhits_complete k c Hkc Hm) as [r' [Hr' Hrep']].
                 exists r'. split; [ apply Hmono, in_or_app; now right | ].
                 destruct Hrep as [H1 [H2 H3]], Hrep' as [H1' [H2' H3']].
                 repeat split; congruence.
              ** apply (Hcomplete c (currentPath ++ [k]) r); [ | exact He' ].
                 apply in_push_all. left. unfold member_entries. apply in_map_iff.
                 exists (k, c). split; [ reflexivity | assumption ].
           ++ apply (Hcomplete w q r); [ | exact He ]. apply in_push_all. now right.
Qed.

End WithHost.

(** [performSearch] returns; with a non-empty term its results are the
    emissions of the nodes of [data]. *)
Lemma performSearch_spec {host : Host} (caseSensitive : bool) (term : string) (data : json) :
  exists results,
    performSearch caseSensitive term data = Some results
    /\ (forall r, In r results ->
          term <> "" /\ emitted caseSensitive (fold_case caseSensitive term) data [] r)
    /\ (forall r, term <> "" ->
          emitted caseSensitive (fold_case caseSensitive term) data [] r ->
          exists r', In r' results /\ same_report r r').
Proof.
  unfold performSearch. destruct (String.eqb_spec term "") as [ -> | Hterm ].
  - exists []. split; [ reflexivity | split ]; [ intros r [] | intros r H; now destruct H ].
  - destruct (search_loop_spec caseSensitive (fold_case caseSensitive term)
                (json_size data) [(data, [])] [])
      as [final [Hrun [_ [Hsound Hcomplete]]]].
    { unfold entries_size, stack_size. simpl. lia. }
    exists final. split; [ exact Hrun | split ].
    + intros r Hr. split; [ assumption | ].
      destruct (Hsound r Hr) as [ [] | [w [q [[Heq | []] He]]] ].
      now inversion Heq; subst.
    + intros r _ He. apply (Hcomplete data [] r); [ left; reflexivity | exact He ].
Qed.

(** C7: the search honours the case flag.  On [{"K":"V"}] the term [k]
    finds the key [K] when the search is not case sensitive and finds nothing
    when it is.  In general a key of an object of the document is reported
    exactly when the term is not empty and the key contains the term, and a
    primitive is reported exactly when the term is not empty and its string
    form contains the term; both sides of the comparison are lower-cased
    when [caseSensitive] is false and taken verbatim when it is true. *)
Theorem search_honours_case_flag {host : Host} :
  performSearch false "k" KV
  = Some [ {| path := "K"; type := Key; text := "K"; position := 0 |} ]
  /\ performSearch true "k" KV = Some []
  /\ forall (caseSensitive : bool) (term : string) (data : json),
     let fold s := if caseSensitive then s else JS.toLowerCase s in
     exists results,
       performSearch caseSensitive term data = Some results
       /\ (forall p fields k c,
             subnode data p (JObject fields) -> In (k, c) fields ->
             ((exists r, In r results /\ type r = Key
                         /\ path r = JS.join "." (p ++ [k]) /\ text r = k)
              <-> term <> "" /\ JS.includes (fold k) (fold term) = true))
       /\ (forall p v,
             subnode data p v -> is_primitive v = true ->
             ((exists r, In r results /\ type r = Value
                         /\ path r = JS.join "." p /\ text r = JS.ToString v)
              <-> term <> "" /\ JS.includes (fold (JS.ToString v)) (fold term) = true)).
Proof.
  split; [ reflexivity | split; [ reflexivity | ] ].
  intros caseSensitive term data fold.
  destruct (performSearch_spec caseSensitive term data)
    as [results [Hrun [Hsound Hcomplete]]].
  exists results. split; [ exact Hrun | split ].
  - intros p fields k c Hs Hin. split.
    + intros [r [Hr [Ht [Hp Hx]]]].
      destruct (Hsound r Hr) as [Hterm He]. split; [ exact Hterm | ].
      destruct He as [ p' v' _ _ _ [Ht' _] | p' fields' k' c' _ _ Hm [_ [_ Hx']] ].
      * congruence.
      * replace k with k' by congruence. exact Hm.
    + intros [Hterm Hm].
      destruct (Hcomplete {| path := JS.join "." (p ++ [k]); type := Key;
                             text := k; position := 0 |} Hterm)
        as [r' [Hr' [H1 [H2 H3]]]].
      * apply (emitted_key _ _ data [] _ p fields k c); auto.
        repeat split; reflexivity.
      * exists r'. simpl in *. repeat split; auto.
  - intros p v Hs Hprim. split.
    + intros [r [Hr [Ht [Hp Hx]]]].
      destruct (Hsound r Hr) as [Hterm He]. split; [ exact Hterm | ].
      destruct He as [ p' v' _ _ Hm [_ [_ Hx']] | p' fields' k' c' _ _ _ [Ht' _] ].
      * replace (JS.ToString v) with (JS.ToString v') by congruence. exact Hm.
      * congruence.
    + intros [Hterm Hm].
      destruct (Hcomplete {| path := JS.join "." p; type := Value;
                             text := JS.ToString v; position := 0 |} Hterm)
        as [r' [Hr' [H1 [H2 H3]]]].
      * apply (emitted_value _ _ data [] _ p v); auto.
        repeat split; reflexivity.
      * exists r'. simpl in *. repeat split; auto.
Qed.

(** C10: [performSearch] returns for every value, term and flag; each of
    its results of kind [Value] reports a primitive node of the value (one
    that is neither an array nor an object), and each result of kind [Key]
    reports a key of an object of the value. *)
Theorem search_results_have_a_source {host : Host}
    (caseSensitive : bool) (term : string) (data : json) :
  exists results,
    performSearch caseSensitive term data = Some results
    /\ forall r, In r results ->
         match type r with
         | Value =>
             exists p v,
               subnode data p v /\ is_primitive v = true
               /\ path r = JS.join "." p /\ text r = JS.ToString v
         | Key =>
             exists p fields k c,
               subnode data p (JObject fields) /\ In (k, c) fields
               /\ path r = JS.join "." (p ++ [k]) /\ text r = k
         end.
Proof.
  destruct (performSearch_spec caseSensitive term data)
    as [results [Hrun [Hsound _]]].
  exists results. split; [ exact Hrun | ].
  intros r Hr. destruct (Hsound r Hr) as [_ He].
  destruct He as [ p v Hs Hprim _ [Ht [Hp Hx]] | p fields k c Hs Hin _ [Ht [Hp Hx]] ];
    rewrite Ht; simpl in Hp.
  - exists p, v. auto.
  - exists p, fields, k, c. auto.
Qed.

End SearchFacts.

(** ** The validator: the recursion is well founded *)

Module ValidatorFacts.
Import Validator.

Lemma list_max_map_ge {A : Type} (f : A -> nat) (x : A) (l : list A) :
  In x l -> f x <= list_max (map f l).
Proof.
  induction l as [ | y l IH ]; simpl; [ tauto | ].
  intros [ -> | H ]; [ lia | specialize (IH H); lia ].
Qed.

Lemma height_item (x : json) (items : list json) :
  In x items -> height x < height (JArray items).
Proof. intros H. simpl. apply (list_max_map_ge height) in H. lia. Qed.

Lemma height_member (k : string) (x : json) (fields : list (string * json)) :
  In (k, x) fields -> height x < height (JObject fields).
Proof.
  intros H. simpl.
  apply (list_max_map_ge (fun kv => height (snd kv))) in H. simpl in H. lia.
Qed.

Lemma assoc_in (key : string) (fields : list (string * json)) (v : json) :
  JS.assoc key fields = Some v -> In (key, v) fields.
Proof.
  induction fields as [ | [k x] fields IH ]; simpl; [ discriminate | ].
  destruct (String.eqb_spec k key) as [ -> | _ ].
  - intros H. inversion H. now left.
  - intros H. right. auto.
Qed.

Lemma height_get (schema : json) (name : string) (v : json) :
  JS.get schema name = Some v -> height v < height schema.
Proof.
  destruct schema; simpl; try discriminate.
  intros H. eapply height_member, assoc_in, H.
Qed.

Lemma units_are_strings (s : string) (x : json) :
  In x (JS.units s) -> height x = 0.
Proof.
  induction s as [ | c s IH ]; simpl; [ tauto | ].
  intros [ <- | H ]; auto.
Qed.

Lemma height_entry (x : json) (k : string) (s : json) :
  In (k, s) (JS.Object_entries x) -> height s <= height x.
Proof.
  destruct x as [ | b | n | str | items | fields ]; simpl JS.Object_entries; try (simpl; tauto).
  - intros H. apply in_map_iff in H. destruct H as [[i c] [Heq H]].
    inversion Heq; subst. apply in_combine_r in H.
    rewrite (units_are_strings _ _ H). lia.
  - intros H. apply in_map_iff in H. destruct H as [[i c] [Heq H]].
    inversion Heq; subst. apply in_combine_r in H.
    apply height_item in H. lia.
  - intros H. apply height_member in H. lia.
Qed.

(** *** Statements that do not run out of fuel *)

Lemma finishes_skip : finishes skip.
Proof. intros errors. discriminate. Qed.

Lemma finishes_push (e : ValidationError) : finishes (push e).
Proof. intros errors. discriminate. Qed.

Lemma finishes_throw : finishes throw.
Proof. intros errors. discriminate. Qed.

Lemma finishes_seq (a b : action) : finishes a -> finishes b -> finishes (a ;; b).
Proof.
  intros Ha Hb errors. unfold seq. specialize (Ha errors).
  destruct (a errors) as [[ | | ] errors']; simpl in *; auto.
Qed.

Lemma finishes_when (c : bool) (a : action) : finishes a -> finishes (when c a).
Proof. intros Ha. destruct c; [ exact Ha | apply finishes_skip ]. Qed.

Lemma finishes_forEach {A : Type} (xs : list A) (f : A -> action) :
  (forall x, In x xs -> finishes (f x)) -> finishes (forEach xs f).
Proof.
  induction xs as [ | x xs IH ]; intros H; simpl.
  - apply finishes_skip.
  - apply finishes_seq; [ apply H; now left | apply IH; intros; apply H; now right ].
Qed.

Lemma filter_with_finishes {A : Type} (p : A -> completion * bool) (xs : list A) :
  (forall x, In x xs -> fst (p x) <> OutOfFuel) ->
  fst (filter_with p xs) <> OutOfFuel.
Proof.
  induction xs as [ | x xs IH ]; intros H; simpl; [ discriminate | ].
  pose proof (H x (or_introl eq_refl)) as Hx.
  assert (Hxs : fst (filter_with p xs) <> OutOfFuel) by (apply IH; intros; apply H; now right).
  destruct (p x) as [[ | | ] keep]; simpl in *; try congruence.
  destruct (filter_with p xs) as [[ | | ] kept]; simpl in *; congruence.
Qed.

Create HintDb finishes.

#[local] Hint Resolve finishes_skip finishes_push finishes_throw finishes_seq
  finishes_when : finishes.

(** Splits a statement along its conditionals. *)
Ltac finish :=
  repeat match goal with
    | |- finishes (_ ;; _) => apply finishes_seq
    | |- finishes (when _ _) => apply finishes_when
    | |- finishes (if ?c then _ else _) => destruct c
    | |- finishes (match ?x with _ => _ end) => destruct x
    | |- finishes _ => solve [ auto with finishes ]
    end.

Section WithHost.
Context {host : Host}.

Lemma checkRequired_finishes data schema path : finishes (checkRequired data schema path).
Proof.
  unfold checkRequired. finish.
  apply finishes_forEach. intros. finish.
Qed.

Lemma checkArray_finishes data schema path : finishes (checkArray data schema path).
Proof. unfold checkArray. finish. Qed.

Lemma checkString_finishes data schema path : finishes (checkString data schema path).
Proof. unfold checkString. finish. Qed.

Lemma checkNumber_finishes data schema path : finishes (checkNumber data schema path).
Proof. unfold checkNumber. finish. Qed.

Lemma checkEnum_finishes data schema path : finishes (checkEnum data schema path).
Proof. unfold checkEnum. finish. Qed.

Lemma checkConst_finishes data schema path : finishes (checkConst data schema path).
Proof. unfold checkConst. finish. Qed.


(** *** The statements with recursive calls *)

Lemma seq_ext (a a' b b' : action) :
  (forall errors, a errors = a' errors) ->
  (forall errors, b errors = b' errors) ->
  forall errors, (a ;; b) errors = (a' ;; b') errors.
Proof.
  intros Ha Hb errors. unfold seq. rewrite Ha.
  destruct (a' errors) as [[ | | ] errors']; auto.
Qed.

Lemma forEach_ext {A : Type} (xs : list A) (f g : A -> action) :
  (forall x errors, In x xs -> f x errors = g x errors) ->
  forall errors, forEach xs f errors = forEach xs g errors.
Proof.
  induction xs as [ | x xs IH ]; intros H errors; simpl; [ reflexivity | ].
  apply seq_ext.
  - intros. apply H. now left.
  - apply IH. intros. apply H. now right.
Qed.

Lemma filter_with_ext {A : Type} (p q : A -> completion * bool) (xs : list A) :
  (forall x, In x xs -> p x = q x) -> filter_with p xs = filter_with q xs.
Proof.
  induction xs as [ | x xs IH ]; intros H; simpl; [ reflexivity | ].
  rewrite (H x (or_introl eq_refl)), IH; [ reflexivity | ].
  intros. apply H. now right.
Qed.

Lemma matches_completion self data path subSchema :
  fst (matches self data path subSchema) = fst (self data subSchema path []).
Proof. unfold matches. now destruct (self data subSchema path []). Qed.

Section Stages.
Variables (data : jsval) (schema : json) (path : string).

Lemma height_property (properties : json) (prop : string) (propSchema : json) :
  JS.get schema "properties" = Some properties ->
  In (prop, propSchema) (JS.Object_entries properties) ->
  height propSchema < height schema.
Proof.
  intros Hget Hin. apply height_get in Hget. apply height_entry in Hin. lia.
Qed.

Lemma height_subschema (name : string) (subs : list json) (sub : json) :
  JS.get schema name = Some (JArray subs) -> In sub subs ->
  height sub < height schema.
Proof.
  intros Hget Hin. apply height_get in Hget. apply height_item in Hin. lia.
Qed.

Section Finishing.
Variable self : jsval -> json -> string -> action.
Hypothesis Hself : finishes_below (height schema) self.

Lemma checkProperties_finishes : finishes (checkProperties self data schema path).
Proof.
  unfold checkProperties.
  destruct (JS.get schema "properties") as [properties | ] eqn:Hget; [ | finish ].
  destruct (JS.truthy properties && JS.is_plain_object data); [ | finish ].
  apply finishes_seq.
  - apply finishes_forEach. intros [prop propSchema] Hin. apply finishes_when.
    apply Hself. eapply height_property; eauto.
  - finish. apply finishes_forEach. intros. finish.
Qed.

Lemma checkItems_finishes : finishes (checkItems self data schema path).
Proof.
  unfold checkItems.
  destruct (JS.get schema "items") as [items | ] eqn:Hget; [ | finish ].
  destruct data as [ | [ | | | | elements | ] | | ]; try solve [finish].
  destruct (JS.truthy items); [ | finish ].
  apply finishes_forEach. intros [index item] _. apply Hself.
  eapply height_get; eauto.
Qed.

Lemma filter_matches_finishes (name : string) (subs : list json) :
  JS.get schema name = Some (JArray subs) ->
  fst (filter_with (matches self data path) subs) <> OutOfFuel.
Proof.
  intros Hget. apply filter_with_finishes. intros sub Hin.
  rewrite matches_completion. apply Hself. eapply height_subschema; eauto.
Qed.

Lemma checkOneOf_finishes : finishes (checkOneOf self data schema path).
Proof.
  unfold checkOneOf.
  destruct (JS.get schema "oneOf") as [ [ | | | | subs | ] | ] eqn:Hget; try solve [finish].
  intros errors. pose proof (filter_matches_finishes "oneOf" subs Hget) as H.
  destruct (filter_with (matches self data path) subs) as [[ | | ] valid]; simpl in *;
    try congruence.
  apply finishes_when, finishes_push.
Qed.

Lemma checkAnyOf_finishes : finishes (checkAnyOf self data schema path).
Proof.
  unfold checkAnyOf.
  destruct (JS.get schema "anyOf") as [ [ | | | | subs | ] | ] eqn:Hget; try solve [finish].
  intros errors. pose proof (filter_matches_finishes "anyOf" subs Hget) as H.
  destruct (filter_with (matches self data path) subs) as [[ | | ] valid]; simpl in *;
    try congruence.
  apply finishes_when, finishes_push.
Qed.

Lemma checkAllOf_finishes : finishes (checkAllOf self data schema path).
Proof.
  unfold checkAllOf.
  destruct (JS.get schema "allOf") as [ [ | | | | subs | ] | ] eqn:Hget; try solve [finish].
  apply finishes_forEach. intros sub Hin. apply Hself.
  eapply height_subschema; eauto.
Qed.

Lemma body_finishes : finishes (validateAgainstSchema_body self data schema path).
Proof.
  unfold validateAgainstSchema_body.
  assert (H : finishes
    match typeCheck data schema path with
    | Some error => push error
    | None =>
        checkRequired data schema path ;;
        checkProperties self data schema path ;;
        checkItems self data schema path ;;
        checkArray data schema path ;;
        checkString data schema path ;;
        checkNumber data schema path ;;
        checkEnum data schema path ;;
        checkConst data schema path ;;
        checkOneOf self data schema path ;;
        checkAnyOf self data schema path ;;
        checkAllOf self data schema path
    end).
  { destruct (typeCheck data schema path); [ apply finishes_push | ].
    repeat apply finishes_seq;
      auto using checkRequired_finishes, checkProperties_finishes, checkItems_finishes,
        checkArray_finishes, checkString_finishes, checkNumber_finishes,
        checkEnum_finishes, checkConst_finishes, checkOneOf_finishes,
        checkAnyOf_finishes, checkAllOf_finishes. }
  destruct schema; auto using finishes_throw.
Qed.

End Finishing.

Section Agreeing.
Variables self self' : jsval -> json -> string -> action.
Hypothesis Hagree : agree_below (height schema) self self'.

Lemma checkProperties_ext errors :
  checkProperties self data schema path errors
  = checkProperties self' data schema path errors.
Proof.
  unfold checkProperties.
  destruct (JS.get schema "properties") as [properties | ] eqn:Hget; [ | reflexivity ].
  destruct (JS.truthy properties && JS.is_plain_object data); [ | reflexivity ].
  apply seq_ext; [ | reflexivity ].
  apply forEach_ext. intros [prop propSchema] errors' Hin.
  destruct (JS.has_property prop data); simpl; [ | reflexivity ].
  apply Hagree. eapply height_property; eauto.
Qed.

Lemma checkItems_ext errors :
  checkItems self data schema path errors = checkItems self' data schema path errors.
Proof.
  unfold checkItems.
  destruct (JS.get schema "items") as [items | ] eqn:Hget; [ | reflexivity ].
  destruct data as [ | [ | | | | elements | ] | | ]; try reflexivity.
  destruct (JS.truthy items); [ | reflexivity ].
  apply forEach_ext. intros [index item] errors' _. apply Hagree.
  eapply height_get; eauto.
Qed.

Lemma filter_matches_ext (name : string) (subs : list json) :
  JS.get schema name = Some (JArray subs) ->
  filter_with (matches self data path) subs = filter_with (matches self' data path) subs.
Proof.
  intros Hget. apply filter_with_ext. intros sub Hin. unfold matches.
  rewrite Hagree; [ reflexivity | ]. eapply height_subschema; eauto.
Qed.

Lemma checkOneOf_ext errors :
  checkOneOf self data schema path errors = checkOneOf self' data schema path errors.
Proof.
  unfold checkOneOf.
  destruct (JS.get schema "oneOf") as [ [ | | | | subs | ] | ] eqn:Hget; try reflexivity.
  now rewrite (filter_matches_ext "oneOf" subs Hget).
Qed.

Lemma checkAnyOf_ext errors :
  checkAnyOf self data schema path errors = checkAnyOf self' data schema path errors.
Proof.
  unfold checkAnyOf.
  destruct (JS.get schema "anyOf") as [ [ | | | | subs | ] | ] eqn:Hget; try reflexivity.
  now rewrite (filter_matches_ext "anyOf" subs Hget).
Qed.

Lemma checkAllOf_ext errors :
  checkAllOf self data schema path errors = checkAllOf self' data schema path errors.
Proof.
  unfold checkAllOf.
  destruct (JS.get schema "allOf") as [ [ | | | | subs | ] | ] eqn:Hget; try reflexivity.
  apply forEach_ext. intros sub errors' Hin. apply Hagree.
  eapply height_subschema; eauto.
Qed.

Lemma body_ext errors :
  validateAgainstSchema_body self data schema path errors
  = validateAgainstSchema_body self' data schema path errors.
Proof.
  unfold validateAgainstSchema_body.
  assert (H :
    match typeCheck data schema path with
    | Some error => push error
    | None =>
        checkRequired data schema path ;;
        checkProperties self data schema path ;;
        checkItems self data schema path ;;
        checkArray data schema path ;;
        checkString data schema path ;;
        checkNumber data schema path ;;
        checkEnum data schema path ;;
        checkConst data schema path ;;
        checkOneOf self data schema path ;;
        checkAnyOf self data schema path ;;
        checkAllOf self data schema path
    end errors =
    match typeCheck data schema path with
    | Some error => push error
    | None =>
        checkRequired data schema path ;;
        checkProperties self' data schema path ;;
        checkItems self' data schema path ;;
        checkArray data schema path ;;
        checkString data schema path ;;
        checkNumber data schema path ;;
        checkEnum data schema path ;;
        checkConst data schema path ;;
        checkOneOf self' data schema path ;;
        checkAnyOf self' data schema path ;;
        checkAllOf self' data schema path
    end errors).
  { destruct (typeCheck data schema path); [ reflexivity | ].
    revert errors.
    repeat (apply seq_ext; [ first [ apply checkProperties_ext | apply checkItems_ext
                                   | apply checkOneOf_ext | apply checkAnyOf_ext
                                   | reflexivity ] | ]).
    apply checkAllOf_ext. }
  destruct schema; auto.
Qed.

End Agreeing.
End Stages.

(** With more fuel than the schema is high, the validator does not run out
    of fuel and its result no longer depends on the fuel. *)
Lemma validate_fuel_enough (fuel : nat) :
  forall schema,
    height schema < fuel ->
    (forall data path, finishes (validate_fuel fuel data schema path))
    /\ (forall fuel', height schema < fuel' ->
        forall data path errors,
          validate_fuel fuel data schema path errors
          = validate_fuel fuel' data schema path errors).
Proof.
  induction fuel as [ | fuel IH ]; intros schema Hfuel; [ lia | ]. split.
  - intros data path. simpl. apply body_finishes.
    intros d s p Hs. apply IH. lia.
  - intros [ | fuel' ] Hfuel' data path errors; [ lia | ]. simpl.
    apply body_ext. intros d s p e Hs. apply IH; lia.
Qed.

(** [validateAgainstSchema] satisfies the recursive equation of the source
    function. *)
Lemma validateAgainstSchema_unfold data schema path errors :
  validateAgainstSchema data schema path errors
  = validateAgainstSchema_body validateAgainstSchema data schema path errors.
Proof.
  unfold validateAgainstSchema at 1. simpl. apply body_ext.
  intros d s p e Hs. unfold validateAgainstSchema.
  apply validate_fuel_enough; lia.
Qed.

Lemma validateAgainstSchema_finishes data schema path :
  finishes (validateAgainstSchema data schema path).
Proof. apply validate_fuel_enough. lia. Qed.

(** [validateJsonSchema] always returns a list of errors. *)
Lemma validateParsed_returns data parsed schemaString :
  exists errors, validateParsed data parsed schemaString = Some errors.
Proof.
  unfold validateParsed. destruct parsed as [schema | ]; [ | eauto ].
  pose proof (validateAgainstSchema_finishes data schema "" []) as H.
  destruct (validateAgainstSchema data schema "" []) as [[ | | ] errors]; simpl in H;
    eauto. congruence.
Qed.

End WithHost.
End ValidatorFacts.

(** ** The validator: the checks *)

Module ValidatorChecks.
Import Validator ValidatorFacts.

Section WithHost.
Context {host : Host}.

Lemma is_string_spec (x : json) (lit : string) :
  JS.is_string x lit = true <-> x = JString lit.
Proof.
  destruct x; simpl; try (split; [ discriminate | discriminate ]).
  destruct (String.eqb_spec s lit); split; congruence.
Qed.

Lemma typeCheck_fails (data : jsval) (schema : json) (path : string) (type : json) :
  JS.get schema "type" = Some type ->
  JS.truthy type = true ->
  fails_type_check data type ->
  exists error,
    typeCheck data schema path = Some error
    /\ Validator.path error = path /\ value error = data.
Proof.
  intros Hget Htruthy Hfails. unfold typeCheck, fails_type_check in *.
  rewrite Hget, Htruthy.
  destruct (JS.is_string type "integer").
  - destruct data as [ | [ | | n | | | ] | | ]; try (eexists; repeat split; reflexivity).
    destruct (JS.Number_isInteger n) eqn:Hint; simpl; [ | eexists; repeat split; reflexivity ].
    destruct (JS.Number_isFinite n) eqn:Hfin; simpl; [ | eexists; repeat split; reflexivity ].
    exfalso. apply Hfails. eauto.
  - destruct (JS.is_string type "number").
    + destruct data as [ | [ | | n | | | ] | | ]; try (eexists; repeat split; reflexivity).
      destruct (JS.Number_isFinite n) eqn:Hfin; simpl; [ | eexists; repeat split; reflexivity ].
      exfalso. apply Hfails. eauto.
    + destruct (JS.is_string type (getJsonType data)) eqn:Heq; simpl.
      * apply is_string_spec in Heq. contradiction.
      * eexists; repeat split; reflexivity.
Qed.


Lemma filter_with_matches (data : jsval) (path : string) (subs : list json) :
  (forall sub, In sub subs -> fst (validateAgainstSchema data sub path []) = Normal) ->
  filter_with (matches validateAgainstSchema data path) subs
  = (Normal,
     filter (fun sub =>
               (List.length (snd (validateAgainstSchema data sub path [])) =? 0)%nat)
       subs).
Proof.
  induction subs as [ | sub subs IH ]; intros H; simpl; [ reflexivity | ].
  rewrite IH by (intros; apply H; now right).
  pose proof (H sub (or_introl eq_refl)) as Hsub. unfold matches.
  destruct (validateAgainstSchema data sub path []) as [c subErrors].
  simpl in *. subst c. reflexivity.
Qed.

(** The [oneOf] check of lines 412 to 426, with the recursive calls of the
    validator itself, on subschemas that can each be run on the value: it
    appends one error, at the current path and stating the number of matches,
    when that number is not one, and nothing when it is one. *)
Lemma checkOneOf_reports
    (data : jsval) (schema : json) (path : string) (subs : list json)
    (errors : list ValidationError) :
  JS.get schema "oneOf" = Some (JArray subs) ->
  (forall sub, In sub subs -> fst (validateAgainstSchema data sub path []) = Normal) ->
  checkOneOf validateAgainstSchema data schema path errors
  = (Normal,
     if (matched data path subs =? 1)%nat then errors
     else errors ++
          [ {| path := path;
               message := "Data must match exactly one schema. Matched "
                          +++ JS.nat_toString (matched data path subs)
                          +++ " schemas.";
               value := data |} ]).
Proof.
  intros Hget Hruns. unfold checkOneOf. rewrite Hget.
  rewrite filter_with_matches by assumption. fold (matched data path subs).
  destruct (matched data path subs =? 1)%nat; reflexivity.
Qed.

(** *** A check whose keywords are absent does nothing *)

Lemma typeCheck_absent data schema path :
  JS.get schema "type" = None -> typeCheck data schema path = None.
Proof. intros H. unfold typeCheck. now rewrite H. Qed.

Lemma checkRequired_absent data schema path errors :
  JS.get schema "required" = None ->
  checkRequired data schema path errors = (Normal, errors).
Proof. intros H. unfold checkRequired. now rewrite H. Qed.

Lemma checkProperties_absent self data schema path errors :
  JS.get schema "properties" = None ->
  checkProperties self data schema path errors = (Normal, errors).
Proof. intros H. unfold checkProperties. now rewrite H. Qed.

Lemma checkItems_absent self data schema path errors :
  JS.get schema "items" = None ->
  checkItems self data schema path errors = (Normal, errors).
Proof. intros H. unfold checkItems. now rewrite H. Qed.

Lemma checkArray_absent data schema path errors :
  JS.get schema "minItems" = None -> JS.get schema "maxItems" = None ->
  JS.get schema "uniqueItems" = None ->
  checkArray data schema path errors = (Normal, errors).
Proof.
  intros H1 H2 H3. unfold checkArray. rewrite H1, H2, H3.
  destruct data as [ | [ | | | | | ] | | ]; reflexivity.
Qed.

Lemma checkString_absent data schema path errors :
  JS.get schema "minLength" = None -> JS.get schema "maxLength" = None ->
  JS.get schema "pattern" = None -> JS.get schema "format" = None ->
  checkString data schema path errors = (Normal, errors).
Proof.
  intros H1 H2 H3 H4. unfold checkString. rewrite H1, H2, H3, H4.
  destruct data as [ | [ | | | | | ] | | ]; reflexivity.
Qed.

Lemma checkNumber_absent data schema path errors :
  JS.get schema "minimum" = None -> JS.get schema "maximum" = None ->
  JS.get schema "exclusiveMinimum" = None -> JS.get schema "exclusiveMaximum" = None ->
  JS.get schema "multipleOf" = None ->
  checkNumber data schema path errors = (Normal, errors).
Proof.
  intros H1 H2 H3 H4 H5. unfold checkNumber. rewrite H1, H2, H3, H4, H5.
  destruct data as [ | [ | | n | | | ] | | ]; try reflexivity.
  destruct (JS.Number_isFinite n); reflexivity.
Qed.

Lemma checkEnum_absent data schema path errors :
  JS.get schema "enum" = None -> checkEnum data schema path errors = (Normal, errors).
Proof. intros H. unfold checkEnum. now rewrite H. Qed.

Lemma checkConst_absent data schema path errors :
  JS.get schema "const" = None -> checkConst data schema path errors = (Normal, errors).
Proof. intros H. unfold checkConst. now rewrite H. Qed.

Lemma checkOneOf_absent self data schema path errors :
  JS.get schema "oneOf" = None ->
  checkOneOf self data schema path errors = (Normal, errors).
Proof. intros H. unfold checkOneOf. now rewrite H. Qed.

Lemma checkAnyOf_absent self data schema path errors :
  JS.get schema "anyOf" = None ->
  checkAnyOf self data schema path errors = (Normal, errors).
Proof. intros H. unfold checkAnyOf. now rewrite H. Qed.

Lemma checkAllOf_absent self data schema path errors :
  JS.get schema "allOf" = None ->
  checkAllOf self data schema path errors = (Normal, errors).
Proof. intros H. unfold checkAllOf. now rewrite H. Qed.

(** Runs the checks of a call one after the other, skipping those whose
    keywords the schema does not have. *)
Ltac skip_absent :=
  repeat first
    [ rewrite checkRequired_absent by reflexivity
    | rewrite checkProperties_absent by reflexivity
    | rewrite checkItems_absent by reflexivity
    | rewrite checkArray_absent by reflexivity
    | rewrite checkString_absent by reflexivity
    | rewrite checkNumber_absent by reflexivity
    | rewrite checkEnum_absent by reflexivity
    | rewrite checkConst_absent by reflexivity
    | rewrite checkOneOf_absent by reflexivity
    | rewrite checkAnyOf_absent by reflexivity
    | rewrite checkAllOf_absent by reflexivity ].

(** A schema object without any recognized field accepts every value. *)
Lemma no_recognized_fields_accepts (data : jsval) (fields : list (string * json))
    (path : string) (errors : list ValidationError) :
  no_recognized_fields (JObject fields) ->
  validateAgainstSchema data (JObject fields) path errors = (Normal, errors).
Proof.
  intros H. rewrite validateAgainstSchema_unfold.
  unfold validateAgainstSchema_body, seq.
  rewrite typeCheck_absent by (apply H; simpl; tauto).
  rewrite checkRequired_absent by (apply H; simpl; tauto).
  rewrite checkProperties_absent by (apply H; simpl; tauto).
  rewrite checkItems_absent by (apply H; simpl; tauto).
  rewrite checkArray_absent by (apply H; simpl; tauto).
  rewrite checkString_absent by (apply H; simpl; tauto).
  rewrite checkNumber_absent by (apply H; simpl; tauto).
  rewrite checkEnum_absent by (apply H; simpl; tauto).
  rewrite checkConst_absent by (apply H; simpl; tauto).
  rewrite checkOneOf_absent by (apply H; simpl; tauto).
  rewrite checkAnyOf_absent by (apply H; simpl; tauto).
  apply checkAllOf_absent, H. simpl. tauto.
Qed.

Lemma empty_schema_accepts (data : jsval) (path : string)
    (errors : list ValidationError) :
  validateAgainstSchema data (JObject []) path errors = (Normal, errors).
Proof. apply no_recognized_fields_accepts. intros name _. reflexivity. Qed.

(** C6: validating any JSON value against the schema text [{}], which
    [JSON.parse] reads as the object without members, returns the empty list
    of errors. *)
Theorem empty_schema_accepts_every_value (v : json) :
  JSON_parse "{}" = Some (JObject []) ->
  validateJsonSchema (VJson v) "{}" = Some [].
Proof.
  intros Hparse. unfold validateJsonSchema, validateParsed.
  now rewrite Hparse, empty_schema_accepts.
Qed.

(** Two subschemas that both match, on a whole call: one error, stating
    that two schemas matched. *)
Example oneOf_two_matches
    (data : jsval) (s1 s2 : json) (path : string) (errors : list ValidationError) :
  validateAgainstSchema data s1 path [] = (Normal, []) ->
  validateAgainstSchema data s2 path [] = (Normal, []) ->
  validateAgainstSchema data (JObject [("oneOf", JArray [s1; s2])]) path errors
  = (Normal,
     errors ++
     [ {| path := path;
          message := "Data must match exactly one schema. Matched 2 schemas.";
          value := data |} ]).
Proof.
  intros H1 H2. rewrite validateAgainstSchema_unfold.
  unfold validateAgainstSchema_body, seq.
  rewrite typeCheck_absent by reflexivity. skip_absent.
  unfold checkOneOf. cbn [JS.get JS.assoc String.eqb Ascii.eqb Bool.eqb].
  rewrite filter_with_matches
    by (intros sub [ <- | [ <- | [] ] ]; [ now rewrite H1 | now rewrite H2 ]).
  cbn [filter]. rewrite H1, H2. simpl.
  skip_absent. reflexivity.
Qed.

End WithHost.



Lemma empty_schema_accepts_every_value_witness :
  validateJsonSchema (host := ExampleHost.example_host) (VJson (JArray [JNull])) "{}"
  = Some [].
Proof.
  apply (empty_schema_accepts_every_value (host := ExampleHost.example_host)).
  reflexivity.
Defined.

End ValidatorChecks.

(** ** The equality used by [enum], [const] and [uniqueItems] *)

Module EqualityFacts.
Import Validator ValidatorFacts ValidatorChecks Documents.

Lemma append_assoc (a b c : string) : (a +++ b) +++ c = a +++ (b +++ c).
Proof. induction a as [ | x a IH ]; simpl; [ reflexivity | now rewrite IH ]. Qed.

Lemma append_cancel_l (a x y : string) : a +++ x = a +++ y -> x = y.
Proof.
  induction a as [ | c a IH ]; simpl; intros H; [ exact H | ].
  inversion H. auto.
Qed.

(** *** A quoted string can be read back *)

Lemma unescape_escape_unit (c : ascii) (rest : string) :
  JS.unescape_unit (JS.escape_unit c +++ rest) = Some (c, rest).
Proof.
  destruct c as [[] [] [] [] [] [] [] []]; reflexivity.
Qed.

Lemma escape_then_quote_determines (k1 : string) :
  forall k2 x y,
    JS.escape k1 +++ String JS.dquote x = JS.escape k2 +++ String JS.dquote y ->
    k1 = k2 /\ x = y.
Proof.
  induction k1 as [ | c1 k1 IH ]; intros [ | c2 k2 ] x y H; simpl in H.
  - inversion H. auto.
  - apply (f_equal JS.unescape_unit) in H.
    rewrite append_assoc, unescape_escape_unit in H. discriminate.
  - apply (f_equal JS.unescape_unit) in H.
    rewrite append_assoc, unescape_escape_unit in H. discriminate.
  - apply (f_equal JS.unescape_unit) in H.
    rewrite !append_assoc, !unescape_escape_unit in H.
    inversion H; subst. destruct (IH k2 x y); [ assumption | ]. subst. auto.
Qed.

(** The quoted form of a string, followed by anything, determines the
    string. *)
Lemma quote_determines (k1 k2 x y : string) :
  JS.quote k1 +++ x = JS.quote k2 +++ y -> k1 = k2 /\ x = y.
Proof.
  unfold JS.quote. simpl. rewrite !append_assoc. simpl. intros H. inversion H.
  now apply escape_then_quote_determines.
Qed.

Section WithHost.
Context {host : Host}.

(** *** The text of an object fixes the order of its keys *)

Lemma stringify_object (fields : list (string * json)) :
  JS.stringify (JObject fields) = "{" +++ JS.members_then_close fields.
Proof. reflexivity. Qed.

Lemma members_then_close_cons (kv : string * json) (fields : list (string * json)) :
  JS.members_then_close (kv :: fields)
  = JS.member kv +++ match fields with
                  | [] => "}"
                  | _ => "," +++ JS.members_then_close fields
                  end.
Proof.
  unfold JS.members_then_close, JS.join. destruct fields as [ | kv' fields ]; simpl.
  - reflexivity.
  - now rewrite !append_assoc.
Qed.

Lemma same_key_same_member (k : string) (v1 v2 : json) (r1 r2 : list (string * json)) :
  NoDup (map fst ((k, v1) :: r1)) ->
  Permutation ((k, v1) :: r1) ((k, v2) :: r2) ->
  v1 = v2.
Proof.
  intros Hnodup Hperm.
  assert (Hnodup2 : NoDup (map fst ((k, v2) :: r2))).
  { eapply Permutation_NoDup; [ apply Permutation_map, Hperm | exact Hnodup ]. }
  assert (Hin : In (k, v1) ((k, v2) :: r2)).
  { eapply Permutation_in; [ exact Hperm | now left ]. }
  destruct Hin as [ Heq | Hin ]; [ congruence | ].
  simpl in Hnodup2. inversion Hnodup2 as [ | ? ? Hnotin _ ]; subst.
  exfalso. apply Hnotin. apply in_map_iff. exists (k, v1). auto.
Qed.

Lemma members_determine_order (o1 : list (string * json)) :
  forall o2,
    NoDup (map fst o1) -> Permutation o1 o2 ->
    JS.members_then_close o1 = JS.members_then_close o2 -> o1 = o2.
Proof.
  induction o1 as [ | [k1 v1] r1 IH ]; intros o2 Hnodup Hperm Htext.
  - symmetry. now apply Permutation_nil.
  - destruct o2 as [ | [k2 v2] r2 ].
    + apply Permutation_sym, Permutation_nil in Hperm. discriminate.
    + rewrite !members_then_close_cons in Htext. unfold JS.member in Htext.
      cbn [fst snd] in Htext. rewrite !(append_assoc (JS.quote _)) in Htext.
      apply quote_determines in Htext. destruct Htext as [<- Htail].
      assert (v2 = v1) by (symmetry; eapply same_key_same_member; eauto). subst v2.
      apply Permutation_cons_inv in Hperm. apply append_cancel_l in Htail.
      f_equal. apply IH.
      * simpl in Hnodup. now inversion Hnodup.
      * exact Hperm.
      * destruct r1 as [ | e1 r1 ], r2 as [ | e2 r2 ].
        -- reflexivity.
        -- apply Permutation_nil in Hperm. discriminate.
        -- apply Permutation_sym, Permutation_nil in Hperm. discriminate.
        -- simpl in Htail. now inversion Htail.
Qed.

(** Two objects with the same members have the same text only when their
    keys come in the same order. *)
Lemma stringify_object_order (o1 o2 : list (string * json)) :
  NoDup (map fst o1) -> Permutation o1 o2 ->
  JS.stringify (JObject o1) = JS.stringify (JObject o2) -> o1 = o2.
Proof.
  intros Hnodup Hperm Htext. rewrite !stringify_object in Htext.
  simpl in Htext. inversion Htext. now apply members_determine_order.
Qed.


Lemma push_is_visible (e : ValidationError) (errors : list ValidationError) :
  (Normal, errors ++ [e]) <> (Normal, errors).
Proof.
  intros H. inversion H as [Heq]. apply (f_equal (@List.length _)) in Heq.
  rewrite length_app in Heq. simpl in Heq. lia.
Qed.

(** C1, amended: the equality used by [const], [enum] and [uniqueItems] is
    the equality of the [JSON.stringify] texts, which list the keys of an
    object in enumeration order.  For two objects with the same members, the
    first passes the [const] check and the [enum] check against the second,
    and the two count as duplicates under [uniqueItems], exactly when their
    keys are enumerated in the same order. *)
Theorem structural_equality_follows_key_order
    (o1 o2 : list (string * json)) (schema : json) (path : string)
    (errors : list ValidationError) :
  NoDup (map fst o1) -> Permutation o1 o2 ->
  (JS.get schema "const" = Some (JObject o2) ->
   (checkConst (VJson (JObject o1)) schema path errors = (Normal, errors) <-> o1 = o2))
  /\ (JS.get schema "enum" = Some (JArray [JObject o2]) ->
      (checkEnum (VJson (JObject o1)) schema path errors = (Normal, errors) <-> o1 = o2))
  /\ (find_duplicates (JS.indexed [JObject o1; JObject o2]) [] [] = [1] <-> o1 = o2).
Proof.
  intros Hnodup Hperm.
  assert (Htext : JS.stringify (JObject o1) = JS.stringify (JObject o2) <-> o1 = o2).
  { split; [ now apply stringify_object_order | now intros -> ]. }
  remember (JS.stringify (JObject o1)) as s1 eqn:Hs1.
  remember (JS.stringify (JObject o2)) as s2 eqn:Hs2.
  split; [ | split ].
  - intros Hget. unfold checkConst. rewrite Hget.
    change (JS.JSON_stringify (VJson (JObject o1))) with (Some (JS.stringify (JObject o1))).
    unfold same_text. rewrite <- Hs1, <- Hs2.
    destruct (String.eqb_spec s1 s2) as [ Heq | Hneq ]; cbn [negb when]; unfold skip, push.
    + split; [ intros _; now apply Htext | reflexivity ].
    + split; [ intros H; now apply push_is_visible in H | intros H; now apply Htext in H ].
  - intros Hget. unfold checkEnum. rewrite Hget.
    change (JS.JSON_stringify (VJson (JObject o1))) with (Some (JS.stringify (JObject o1))).
    unfold same_text. cbn [existsb]. rewrite <- Hs1, <- Hs2.
    rewrite orb_false_r, String.eqb_sym.
    destruct (String.eqb_spec s1 s2) as [ Heq | Hneq ]; cbn [negb when]; unfold skip, push.
    + split; [ intros _; now apply Htext | reflexivity ].
    + split; [ intros H; now apply push_is_visible in H | intros H; now apply Htext in H ].
  - change (JS.indexed [JObject o1; JObject o2]) with [(0, JObject o1); (1, JObject o2)].
    cbn [find_duplicates JS.mem existsb].
    rewrite <- Hs1, <- Hs2. rewrite orb_false_r.
    destruct (String.eqb_spec s2 s1) as [ Heq | Hneq ]; cbn [app].
    + split; [ intros _; now apply Htext | reflexivity ].
    + split; [ discriminate | intros H; apply Htext in H; congruence ].
Qed.

End WithHost.

Lemma structural_equality_follows_key_order_witness :
  checkConst (host := ExampleHost.example_host)
    (VJson (JObject ab)) (JObject [("const", JObject ba)]) "" [] = (Normal, [])
  <-> ab = ba.
Proof.
  apply (structural_equality_follows_key_order (host := ExampleHost.example_host)
           ab ba (JObject [("const", JObject ba)]) "" []).
  - repeat constructor; simpl; intuition discriminate.
  - apply perm_swap.
  - reflexivity.
Defined.

(** C1 as stated fails: [{"a":"x","b":"y"}] holds the same members as
    [{"b":"y","a":"x"}], yet it fails the [const] check and the [enum] check
    against it, and the two are not duplicates under [uniqueItems]. *)
Lemma key_order_counterexample :
  Permutation ab ba
  /\ validateParsed (host := ExampleHost.example_host)
       (VJson (JObject ab)) (Some (JObject [("const", JObject ba)])) "" <> Some []
  /\ validateParsed (host := ExampleHost.example_host)
       (VJson (JObject ab)) (Some (JObject [("enum", JArray [JObject ba])])) "" <> Some []
  /\ validateParsed (host := ExampleHost.example_host)
       (VJson (JArray [JObject ab; JObject ba]))
       (Some (JObject [("uniqueItems", JBool true)])) "" = Some [].
Proof.
  split; [ apply perm_swap | ].
  split; [ vm_compute; discriminate | ].
  split; [ vm_compute; discriminate | reflexivity ].
Qed.

End EqualityFacts.

(** ** The array bounds and the required properties *)

Module BoundsFacts.
Import Validator ValidatorFacts ValidatorChecks.

Section WithHost.
Context {host : Host}.

(** A bound that the guard [schema.maxItems && ...] lets through is
    enforced. *)
Lemma maxItems_enforced_when_truthy
    (elements : list json) (schema : json) (path : string) (maxItems : json)
    (errors : list ValidationError) :
  JS.get schema "minItems" = None ->
  JS.get schema "maxItems" = Some maxItems ->
  JS.get schema "uniqueItems" = None ->
  JS.truthy maxItems = true ->
  PrimFloat.ltb (JS.ToNumber maxItems) (JS.Number_of_nat (List.length elements)) = true ->
  checkArray (VJson (JArray elements)) schema path errors
  = (Normal,
     errors ++
     [ {| path := path;
          message := "Array too long. Maximum items: " +++ JS.ToString maxItems
                     +++ ", got " +++ JS.nat_toString (List.length elements);
          value := VJson (JArray elements) |} ]).
Proof.
  intros Hmin Hmax Hunique Htruthy Hlong. unfold checkArray.
  rewrite Hmin, Hmax, Hunique, Htruthy, Hlong. reflexivity.
Qed.

(** C2: the claim fails on the code at [maxItems = 0].  The array [[1]] is
    longer than the bound, and [validateJsonSchema] reports nothing: the guard
    [schema.maxItems && ...] takes the bound 0 for an absent one. *)
Theorem maxItems_zero_is_not_enforced (schemaString : string) :
  let data := [JNumber 1] in
  let schema := JObject [("maxItems", JNumber 0)] in
  JS.get schema "maxItems" = Some (JNumber 0)
  /\ PrimFloat.ltb 0 (JS.Number_of_nat (List.length data)) = true
  /\ validateParsed (VJson (JArray data)) (Some schema) schemaString = Some [].
Proof. repeat split; reflexivity. Qed.

(** A required name that the value does not have and does not inherit: one
    error for the missing [b], at path [b] with no leading dot, carrying
    [undefined]. *)
Example required_a_b (schemaString : string) :
  validateParsed (VJson (JObject [("a", JNumber 1)]))
    (Some (JObject [("type", JString "object");
                    ("required", JArray [JString "a"; JString "b"])])) schemaString
  = Some [ {| path := "b";
              message := "Missing required property: b";
              value := VUndefined |} ].
Proof. reflexivity. Qed.

(** The required names that get an error: those that [prop in data] does
    not find. *)
Lemma checkRequired_reports
    (data : jsval) (schema : json) (path : string) (required : list json)
    (errors : list ValidationError) :
  JS.get schema "required" = Some (JArray required) ->
  JS.is_plain_object data = true ->
  checkRequired data schema path errors
  = (Normal,
     errors ++
     map (fun prop => {| path := member_path path prop;
                         message := "Missing required property: " +++ prop;
                         value := VUndefined |})
       (filter (fun prop => negb (JS.has_property prop data)) (map JS.ToString required))).
Proof.
  intros Hget Hplain. unfold checkRequired. rewrite Hget, Hplain. clear Hget.
  revert errors. induction required as [ | prop required IH ]; intros errors; simpl.
  - now rewrite app_nil_r.
  - unfold seq.
    destruct (JS.has_property (JS.ToString prop) data); simpl.
    + apply IH.
    + rewrite IH, <- app_assoc. reflexivity.
Qed.

(** C5: the general half of the claim fails on the code.  The name
    [toString] is not among the keys of [{}], and no error is reported for
    it: [prop in data] also finds what the object inherits from
    [Object.prototype]. *)
Theorem required_misses_inherited_names (schemaString : string) :
  let data := VJson (JObject []) in
  let schema := JObject [("required", JArray [JString "toString"])] in
  JS.mem "toString" (JS.own_keys data) = false
  /\ validateParsed data (Some schema) schemaString = Some [].
Proof. split; reflexivity. Qed.

End WithHost.
End BoundsFacts.

(** ** More on the metrics pass *)

Module MetricsMore.
Import Metrics Shape.

Lemma list_max_rev (l : list nat) : list_max (rev l) = list_max l.
Proof.
  induction l as [ | x l IH ]; simpl; [ reflexivity | ].
  rewrite list_max_app, IH. simpl. lia.
Qed.

Lemma list_max_shift (d : nat) (g : json -> nat) (l : list json) :
  Nat.max d (list_max (map (fun x => d + g x) l)) = d + list_max (map g l).
Proof. induction l as [ | x l IH ]; simpl; lia. Qed.

Lemma depth_children (v : json) :
  depth v = list_max (map (fun x => S (depth x)) (children v)).
Proof. destruct v; simpl; try reflexivity. now rewrite map_map. Qed.

Lemma reach_push_children (current : json) (d : nat) (stack : list (json * nat)) :
  Nat.max d (reach (push_all (map (fun item => (item, d + 1)) (children current)) stack))
  = Nat.max (d + depth current) (reach stack).
Proof.
  unfold reach, push_all. rewrite map_app, list_max_app, map_rev, list_max_rev, map_map.
  simpl. rewrite (depth_children current).
  pose proof (list_max_shift d (fun x => S (depth x)) (children current)) as H.
  replace (map (fun x => d + 1 + depth x) (children current))
    with (map (fun x => d + S (depth x)) (children current))
    by (apply map_ext; intros; lia).
  lia.
Qed.

Lemma getMaxDepth_loop_reach (fuel : nat) :
  forall stack maxDepth,
    stack_size (map fst stack) <= fuel ->
    getMaxDepth_loop fuel stack maxDepth = Some (Nat.max maxDepth (reach stack)).
Proof.
  induction fuel as [ | fuel IH ]; intros [ | [current d] stack ] maxDepth Hfuel.
  - simpl. f_equal. unfold reach. simpl. lia.
  - exfalso. unfold stack_size in Hfuel. simpl in Hfuel.
    rewrite (json_size_children current) in Hfuel. lia.
  - simpl. f_equal. unfold reach. simpl. lia.
  - simpl getMaxDepth_loop. rewrite IH.
    + f_equal.
      pose proof (reach_push_children current d stack) as H.
      unfold reach at 2. simpl. fold (reach stack). lia.
    + unfold push_all. rewrite map_app, map_rev, map_map. simpl. rewrite map_id.
      fold (push_all (children current) (map fst stack)).
      rewrite stack_size_push_all.
      unfold stack_size in Hfuel. simpl in Hfuel.
      rewrite (json_size_children current) in Hfuel.
      fold (stack_size (map fst stack)) in Hfuel. lia.
Qed.

Lemma getMaxDepth_depth (data : json) : getMaxDepth data = Some (depth data).
Proof.
  unfold getMaxDepth. rewrite getMaxDepth_loop_reach.
  - f_equal. unfold reach. simpl. lia.
  - unfold stack_size. simpl. lia.
Qed.

(** No node lies deeper than [depth]. *)
Lemma subnode_depth (w : json) (p : list string) (v : json) :
  Search.subnode w p v -> List.length p <= depth w.
Proof.
  induction 1 as [ v | items i c p v Hi _ IH | fields k c p v Hin _ IH ]; simpl.
  - lia.
  - apply nth_error_In in Hi.
    apply (ValidatorFacts.list_max_map_ge (fun x => S (depth x))) in Hi. lia.
  - apply (ValidatorFacts.list_max_map_ge (fun kv => S (depth (snd kv)))) in Hin.
    simpl in Hin. lia.
Qed.

Lemma list_max_attained {A : Type} (f : A -> nat) (l : list A) :
  l <> [] -> exists x, In x l /\ f x = list_max (map f l).
Proof.
  induction l as [ | x l IH ]; intros Hl; [ congruence | ].
  destruct l as [ | y l ].
  - exists x. simpl. split; [ auto | lia ].
  - destruct IH as [z [Hz Hmax]]; [ discriminate | ].
    simpl list_max. simpl map in Hmax. simpl list_max in Hmax.
    destruct (Nat.le_ge_cases (f x) (Nat.max (f y) (list_max (map f l)))).
    + exists z. split; [ now right | ]. simpl. lia.
    + exists x. split; [ now left | ]. simpl. lia.
Qed.

(** Some node lies at depth [depth]. *)
Lemma depth_reached (n : nat) :
  forall w, height w <= n ->
    exists p v, Search.subnode w p v /\ List.length p = depth w.
Proof.
  induction n as [ | n IH ]; intros w Hw.
  - destruct w as [ | b | x | s | items | fields ]; simpl in Hw; try lia;
      eexists [], _; (split; [ constructor | reflexivity ]).
  - destruct w as [ | b | x | s | items | fields ];
      try (eexists [], _; split; [ constructor | reflexivity ]).
    + destruct items as [ | x0 items0 ] eqn:E.
      * exists [], (JArray []). split; [ constructor | reflexivity ].
      * rewrite <- E in *.
        destruct (list_max_attained (fun x => S (depth x)) items) as [c [Hc Hmax]];
          [ congruence | ].
        destruct (IH c) as [p [v [Hs Hlen]]].
        { apply ValidatorFacts.height_item in Hc. lia. }
        destruct (In_nth_error _ _ Hc) as [i Hi].
        exists (JS.nat_toString i :: p), v. split.
        -- eapply Search.sub_item; eauto.
        -- simpl. rewrite Hlen. exact Hmax.
    + destruct fields as [ | f0 fields0 ] eqn:E.
      * exists [], (JObject []). split; [ constructor | reflexivity ].
      * rewrite <- E in *.
        destruct (list_max_attained (fun kv => S (depth (snd kv))) fields)
          as [[k c] [Hc Hmax]]; [ congruence | ].
        destruct (IH c) as [p [v [Hs Hlen]]].
        { apply ValidatorFacts.height_member in Hc. lia. }
        exists (k :: p), v. split.
        -- eapply Search.sub_member; eauto.
        -- simpl. rewrite Hlen. exact Hmax.
Qed.

(** X1: [countNodes] returns for every value, and returns the number of its
    nodes: one for the value itself plus the nodes of its elements or member
    values. *)
Theorem countNodes_is_the_number_of_nodes (data : json) :
  countNodes data = Some (json_size data)
  /\ json_size data = 1 + list_sum (map json_size (children data)).
Proof.
  split; [ apply MetricsFacts.countNodes_counts_every_node | ].
  apply (json_size_children data).
Qed.

(** X2: [getMaxDepth] returns for every value, and returns the length of the
    longest path of keys and indices from the value to one of its nodes. *)
Theorem getMaxDepth_is_the_longest_path (data : json) :
  exists d,
    getMaxDepth data = Some d
    /\ (exists p v, Search.subnode data p v /\ List.length p = d)
    /\ (forall p v, Search.subnode data p v -> List.length p <= d).
Proof.
  exists (depth data). split; [ apply getMaxDepth_depth | split ].
  - apply (depth_reached (height data)). lia.
  - apply subnode_depth.
Qed.

Lemma list_sum_push_all (f : json -> nat) (xs stack : list json) :
  list_sum (map f (push_all xs stack)) = list_sum (map f xs) + list_sum (map f stack).
Proof.
  unfold push_all. now rewrite map_app, list_sum_app, map_rev, list_sum_rev.
Qed.

Lemma tag_count_children (tag : string) (v : json) :
  tag_count tag v
  = (if type_tag v =? tag then 1 else 0) + list_sum (map (tag_count tag) (children v)).
Proof. destruct v; simpl; try reflexivity. now rewrite map_map. Qed.

Lemma lookup_store (d : distribution) (type tag : string) (n : nat) :
  lookup (store d type n) tag = if type =? tag then Some n else lookup d tag.
Proof.
  induction d as [ | [k m] d IH ]; simpl.
  - reflexivity.
  - destruct (String.eqb_spec k type) as [ -> | Hk ]; simpl.
    + destruct (type =? tag); reflexivity.
    + rewrite IH. destruct (String.eqb_spec type tag) as [ <- | _ ]; [ | reflexivity ].
      destruct (String.eqb_spec k type); [ contradiction | reflexivity ].
Qed.

Lemma count_of_bump (d : distribution) (type tag : string) :
  count_of (bump d type) tag = count_of d tag + (if type =? tag then 1 else 0).
Proof.
  unfold count_of, bump. rewrite lookup_store.
  destruct (String.eqb_spec type tag) as [ <- | _ ]; lia.
Qed.

Lemma keys_store (d : distribution) (type : string) (n : nat) :
  map fst (store d type n)
  = if JS.mem type (map fst d) then map fst d else map fst d ++ [type].
Proof.
  induction d as [ | [k m] d IH ]; simpl; [ reflexivity | ].
  rewrite (String.eqb_sym type k).
  destruct (k =? type); simpl; [ reflexivity | ].
  rewrite IH. unfold JS.mem. now destruct (existsb (String.eqb type) (map fst d)).
Qed.

Lemma mem_spec (key : string) (keys : list string) :
  JS.mem key keys = true <-> In key keys.
Proof.
  unfold JS.mem. rewrite existsb_exists. split.
  - intros [x [Hin Heq]]. apply String.eqb_eq in Heq. now subst.
  - intros H. exists key. split; [ assumption | apply String.eqb_refl ].
Qed.

Lemma keys_bump_nodup (d : distribution) (type : string) :
  NoDup (map fst d) -> NoDup (map fst (bump d type)).
Proof.
  intros H. unfold bump. rewrite keys_store.
  destruct (JS.mem type (map fst d)) eqn:Hmem; [ assumption | ].
  apply NoDup_app; [ assumption | repeat constructor; simpl; tauto | ].
  intros k Hk [ <- | [] ]. apply mem_spec in Hk. congruence.
Qed.

Lemma store_positive (d : distribution) (type : string) (n : nat) :
  0 < n -> Forall (fun kn => 0 < snd kn) d ->
  Forall (fun kn => 0 < snd kn) (store d type n).
Proof.
  intros Hn. induction 1 as [ | [k m] d Hm Hd IH ]; simpl.
  - repeat constructor. assumption.
  - destruct (k =? type); constructor; simpl; assumption.
Qed.

Lemma lookup_positive (d : distribution) (tag : string) (n : nat) :
  Forall (fun kn => 0 < snd kn) d -> lookup d tag = Some n -> 0 < n.
Proof.
  induction 1 as [ | [k m] d Hm _ IH ]; simpl; [ discriminate | ].
  destruct (k =? tag); [ intros H; inversion H; now subst | exact IH ].
Qed.

Lemma getTypeDistribution_loop_counts (fuel : nat) :
  forall stack d,
    stack_size stack <= fuel ->
    NoDup (map fst d) -> Forall (fun kn => 0 < snd kn) d ->
    exists d',
      getTypeDistribution_loop fuel stack d = Some d'
      /\ NoDup (map fst d') /\ Forall (fun kn => 0 < snd kn) d'
      /\ forall tag,
           count_of d' tag = count_of d tag + list_sum (map (tag_count tag) stack).
Proof.
  induction fuel as [ | fuel IH ]; intros [ | current stack ] d Hfuel Hkeys Hpos; simpl.
  - exists d. repeat split; auto.
  - exfalso. unfold stack_size in Hfuel. simpl in Hfuel.
    rewrite (json_size_children current) in Hfuel. lia.
  - exists d. repeat split; auto.
  - unfold stack_size in Hfuel. simpl in Hfuel.
    rewrite (json_size_children current) in Hfuel. fold (stack_size stack) in Hfuel.
    destruct (IH (push_all (children current) stack) (bump d (type_tag current)))
      as [d' [Hrun [Hkeys' [Hpos' Hcount]]]].
    + rewrite stack_size_push_all. lia.
    + now apply keys_bump_nodup.
    + apply store_positive; [ lia | assumption ].
    + exists d'. repeat split; auto. intros tag.
      rewrite Hcount, count_of_bump, list_sum_push_all, (tag_count_children tag current).
      lia.
Qed.

(** X3: [getTypeDistribution] returns for every value; the mapping it
    returns has one entry for each type tag borne by a node of the value, and
    the entry holds the number of those nodes. *)
Theorem typeDistribution_counts_each_tag (data : json) :
  exists d,
    getTypeDistribution data = Some d
    /\ NoDup (map fst d)
    /\ forall tag,
         lookup d tag
         = if (tag_count tag data =? 0)%nat then None else Some (tag_count tag data).
Proof.
  destruct (getTypeDistribution_loop_counts (json_size data) [data] [])
    as [d [Hrun [Hkeys [Hpos Hcount]]]].
  - unfold stack_size. simpl. lia.
  - constructor.
  - constructor.
  - exists d. split; [ exact Hrun | split; [ exact Hkeys | ] ].
    intros tag. specialize (Hcount tag). unfold count_of in Hcount. simpl in Hcount.
    rewrite Nat.add_0_r in Hcount.
    destruct (lookup d tag) as [n | ] eqn:Hlookup.
    + pose proof (lookup_positive d tag n Hpos Hlookup).
      destruct (Nat.eqb_spec (tag_count tag data) 0); [ lia | now subst ].
    + now rewrite <- Hcount.
Qed.

End MetricsMore.

(** ** The validator as a whole *)

Module ValidatorMore.
Import Validator ValidatorFacts ValidatorChecks ValidatorSpec.

(** *** The validator only appends *)

Lemma appends_skip : appends skip.
Proof. intros errors. unfold skip. simpl. now rewrite app_nil_r. Qed.

Lemma appends_push (e : ValidationError) : appends (push e).
Proof. intros errors. reflexivity. Qed.

Lemma appends_throw : appends throw.
Proof. intros errors. unfold throw. simpl. now rewrite app_nil_r. Qed.

Lemma appends_seq (a b : action) : appends a -> appends b -> appends (a ;; b).
Proof.
  intros Ha Hb errors. unfold seq. rewrite (Ha errors).
  destruct (a []) as [[ | | ] na]; simpl; try reflexivity.
  rewrite (Hb (errors ++ na)), (Hb na). simpl. now rewrite app_assoc.
Qed.

Lemma appends_when (c : bool) (a : action) : appends a -> appends (when c a).
Proof. intros Ha. destruct c; [ exact Ha | apply appends_skip ]. Qed.

Lemma appends_forEach {A : Type} (xs : list A) (f : A -> action) :
  (forall x, In x xs -> appends (f x)) -> appends (forEach xs f).
Proof.
  induction xs as [ | x xs IH ]; intros H; simpl.
  - apply appends_skip.
  - apply appends_seq; [ apply H; now left | apply IH; intros; apply H; now right ].
Qed.

Create HintDb appends.

#[local] Hint Resolve appends_skip appends_push appends_throw appends_seq
  appends_when : appends.

(** Splits a statement along its conditionals. *)
Ltac append :=
  repeat match goal with
    | |- appends (_ ;; _) => apply appends_seq
    | |- appends (when _ _) => apply appends_when
    | |- appends (forEach _ _) => apply appends_forEach; intros
    | |- appends (if ?c then _ else _) => destruct c
    | |- appends (match ?x with _ => _ end) => destruct x
    | |- appends (let (_, _) := ?x in _) => destruct x
    | |- appends _ => solve [ auto with appends ]
    end.

Section WithHost.
Context {host : Host}.

Section Stages.
Variable self : jsval -> json -> string -> action.
Hypothesis Hself : forall data schema path, appends (self data schema path).
Variables (data : jsval) (schema : json) (path : string).

Lemma checkRequired_appends : appends (checkRequired data schema path).
Proof. unfold checkRequired. append. Qed.

Lemma checkProperties_appends : appends (checkProperties self data schema path).
Proof. unfold checkProperties. append. Qed.

Lemma checkItems_appends : appends (checkItems self data schema path).
Proof. unfold checkItems. append. Qed.

Lemma checkArray_appends : appends (checkArray data schema path).
Proof. unfold checkArray. append. Qed.

Lemma checkString_appends : appends (checkString data schema path).
Proof. unfold checkString. append. Qed.

Lemma checkNumber_appends : appends (checkNumber data schema path).
Proof. unfold checkNumber. append. Qed.

Lemma checkEnum_appends : appends (checkEnum data schema path).
Proof. unfold checkEnum. append. Qed.

Lemma checkConst_appends : appends (checkConst data schema path).
Proof. unfold checkConst. append. Qed.

Lemma checkOneOf_appends : appends (checkOneOf self data schema path).
Proof.
  unfold checkOneOf.
  destruct (JS.get schema "oneOf") as [ [ | | | | subs | ] | ]; try solve [append].
  intros errors.
  destruct (filter_with (matches self data path) subs) as [[ | | ] valid]; simpl;
    try now rewrite app_nil_r.
  apply appends_when, appends_push.
Qed.

Lemma checkAnyOf_appends : appends (checkAnyOf self data schema path).
Proof.
  unfold checkAnyOf.
  destruct (JS.get schema "anyOf") as [ [ | | | | subs | ] | ]; try solve [append].
  intros errors.
  destruct (filter_with (matches self data path) subs) as [[ | | ] valid]; simpl;
    try now rewrite app_nil_r.
  apply appends_when, appends_push.
Qed.

Lemma checkAllOf_appends : appends (checkAllOf self data schema path).
Proof. unfold checkAllOf. append. Qed.

Lemma body_appends : appends (validateAgainstSchema_body self data schema path).
Proof.
  unfold validateAgainstSchema_body.
  assert (H : appends
    match typeCheck data schema path with
    | Some error => push error
    | None =>
        checkRequired data schema path ;;
        checkProperties self data schema path ;;
        checkItems self data schema path ;;
        checkArray data schema path ;;
        checkString data schema path ;;
        checkNumber data schema path ;;
        checkEnum data schema path ;;
        checkConst data schema path ;;
        checkOneOf self data schema path ;;
        checkAnyOf self data schema path ;;
        checkAllOf self data schema path
    end).
  { destruct (typeCheck data schema path); [ apply appends_push | ].
    repeat apply appends_seq;
      auto using checkRequired_appends, checkProperties_appends, checkItems_appends,
        checkArray_appends, checkString_appends, checkNumber_appends,
        checkEnum_appends, checkConst_appends, checkOneOf_appends,
        checkAnyOf_appends, checkAllOf_appends. }
  destruct schema; auto using appends_throw.
Qed.

End Stages.

Lemma validate_fuel_appends (fuel : nat) :
  forall data schema path, appends (validate_fuel fuel data schema path).
Proof.
  induction fuel as [ | fuel IH ]; intros data schema path.
  - intros errors. simpl. now rewrite app_nil_r.
  - simpl. apply body_appends. exact IH.
Qed.

Lemma validateAgainstSchema_appends data schema path :
  appends (validateAgainstSchema data schema path).
Proof. apply validate_fuel_appends. Qed.

(** X4: [validateAgainstSchema] only appends to the error list it is given:
    the errors already there stay in place, and the completion and the errors
    appended are those of a run on the empty list. *)
Theorem validator_only_appends
    (data : jsval) (schema : json) (path : string) (errors : list ValidationError) :
  validateAgainstSchema data schema path errors
  = (fst (validateAgainstSchema data schema path []),
     errors ++ snd (validateAgainstSchema data schema path [])).
Proof. apply validateAgainstSchema_appends. Qed.


(** *** Every error lies at the path of the call or below it *)

Lemma prefix_empty (s : string) : prefix "" s = true.
Proof. now destruct s. Qed.

Lemma prefix_refl (s : string) : prefix s s = true.
Proof.
  induction s as [ | c s IH ]; simpl; [ reflexivity | ].
  destruct (ascii_dec c c); [ exact IH | contradiction ].
Qed.

Lemma prefix_append (a b : string) : prefix a (a +++ b) = true.
Proof.
  induction a as [ | c a IH ]; simpl; [ now destruct b | ].
  destruct (ascii_dec c c); [ exact IH | contradiction ].
Qed.

Lemma prefix_trans (a : string) :
  forall b c, prefix a b = true -> prefix b c = true -> prefix a c = true.
Proof.
  induction a as [ | x a IH ]; intros b c Hab Hbc; [ apply prefix_empty | ].
  destruct b as [ | y b ]; [ discriminate | ].
  destruct c as [ | z c ]; [ discriminate | ].
  simpl in *.
  destruct (ascii_dec x y); [ subst | discriminate ].
  destruct (ascii_dec y z); [ | discriminate ]. eauto.
Qed.

Lemma prefix_member_path (path prop : string) : prefix path (member_path path prop) = true.
Proof.
  unfold member_path. destruct (String.eqb_spec path "") as [ -> | _ ].
  - apply prefix_empty.
  - apply prefix_append.
Qed.

Lemma prefix_item_path (path : string) (index : nat) :
  prefix path (item_path path index) = true.
Proof.
  unfold item_path. destruct (String.eqb_spec path "") as [ -> | _ ].
  - apply prefix_empty.
  - apply prefix_append.
Qed.

Lemma reports_under_skip (p : string) : reports_under p skip.
Proof. intros e []. Qed.

Lemma reports_under_throw (p : string) : reports_under p throw.
Proof. intros e []. Qed.

Lemma reports_under_push (p : string) (e : ValidationError) :
  prefix p (Validator.path e) = true -> reports_under p (push e).
Proof. intros H e' [ <- | [] ]. exact H. Qed.

Lemma reports_under_seq (p : string) (a b : action) :
  appends b -> reports_under p a -> reports_under p b -> reports_under p (a ;; b).
Proof.
  intros Hb Ha Hbp e. unfold seq. specialize (Ha e).
  destruct (a []) as [[ | | ] na]; simpl in *; auto.
  rewrite (Hb na). simpl. intros H. apply in_app_or in H. destruct H; auto.
Qed.

Lemma reports_under_when (p : string) (c : bool) (a : action) :
  reports_under p a -> reports_under p (when c a).
Proof. intros Ha. destruct c; [ exact Ha | apply reports_under_skip ]. Qed.

Lemma reports_under_forEach {A : Type} (p : string) (xs : list A) (f : A -> action) :
  (forall x, In x xs -> appends (f x)) ->
  (forall x, In x xs -> reports_under p (f x)) ->
  reports_under p (forEach xs f).
Proof.
  induction xs as [ | x xs IH ]; intros Happ H; simpl.
  - apply reports_under_skip.
  - apply reports_under_seq.
    + apply appends_forEach. intros; apply Happ; now right.
    + apply H. now left.
    + apply IH; intros; [ apply Happ | apply H ]; now right.
Qed.

Lemma reports_under_below (p q : string) (a : action) :
  prefix p q = true -> reports_under q a -> reports_under p a.
Proof. intros Hpq Ha e He. eapply prefix_trans; [ exact Hpq | now apply Ha ]. Qed.

Create HintDb under.

#[local] Hint Resolve reports_under_skip reports_under_throw reports_under_when
  prefix_refl prefix_member_path prefix_item_path : under.

(** Splits a statement along its conditionals. *)
Ltac under :=
  repeat match goal with
    | |- reports_under _ (_ ;; _) => apply reports_under_seq; [ solve [append] | | ]
    | |- reports_under _ (when _ _) => apply reports_under_when
    | |- reports_under _ (push _) => apply reports_under_push; simpl; auto with under
    | |- reports_under _ (forEach _ _) =>
        apply reports_under_forEach; [ intros; solve [append] | intros ]
    | |- reports_under _ (if ?c then _ else _) => destruct c
    | |- reports_under _ (match ?x with _ => _ end) => destruct x
    | |- reports_under _ _ => solve [ auto with under ]
    end.

Section Located.
Variable self : jsval -> json -> string -> action.
Hypothesis Happends : forall data schema path, appends (self data schema path).
Hypothesis Hunder : forall data schema path, reports_under path (self data schema path).
Variables (data : jsval) (schema : json) (path : string).

Lemma checkRequired_under : reports_under path (checkRequired data schema path).
Proof. unfold checkRequired. under. Qed.

Lemma checkProperties_under : reports_under path (checkProperties self data schema path).
Proof.
  unfold checkProperties.
  destruct (JS.get schema "properties") as [properties | ]; [ | under ].
  destruct (JS.truthy properties && JS.is_plain_object data); [ | under ].
  apply reports_under_seq; [ solve [append] | | under ].
  apply reports_under_forEach.
  - intros [prop propSchema] _. apply appends_when, Happends.
  - intros [prop propSchema] _. apply reports_under_when.
    eapply reports_under_below; [ apply prefix_member_path | apply Hunder ].
Qed.

Lemma checkItems_under : reports_under path (checkItems self data schema path).
Proof.
  unfold checkItems.
  destruct (JS.get schema "items") as [items | ]; [ | under ].
  destruct data as [ | [ | | | | elements | ] | | ]; try solve [under].
  destruct (JS.truthy items); [ | under ].
  apply reports_under_forEach.
  - intros [index item] _. apply Happends.
  - intros [index item] _.
    eapply reports_under_below; [ apply prefix_item_path | apply Hunder ].
Qed.

Lemma checkArray_under : reports_under path (checkArray data schema path).
Proof. unfold checkArray. under. Qed.

Lemma checkString_under : reports_under path (checkString data schema path).
Proof. unfold checkString. under. Qed.

Lemma checkNumber_under : reports_under path (checkNumber data schema path).
Proof. unfold checkNumber. under. Qed.

Lemma checkEnum_under : reports_under path (checkEnum data schema path).
Proof. unfold checkEnum. under. Qed.

Lemma checkConst_under : reports_under path (checkConst data schema path).
Proof. unfold checkConst. under. Qed.

Lemma checkOneOf_under : reports_under path (checkOneOf self data schema path).
Proof.
  unfold checkOneOf.
  destruct (JS.get schema "oneOf") as [ [ | | | | subs | ] | ]; try solve [under].
  intros e.
  destruct (filter_with (matches self data path) subs) as [[ | | ] valid]; simpl;
    try tauto.
  destruct (negb _); simpl; [ | tauto ].
  intros [ <- | [] ]. apply prefix_refl.
Qed.

Lemma checkAnyOf_under : reports_under path (checkAnyOf self data schema path).
Proof.
  unfold checkAnyOf.
  destruct (JS.get schema "anyOf") as [ [ | | | | subs | ] | ]; try solve [under].
  intros e.
  destruct (filter_with (matches self data path) subs) as [[ | | ] valid]; simpl;
    try tauto.
  destruct (_ =? _)%nat; simpl; [ | tauto ].
  intros [ <- | [] ]. apply prefix_refl.
Qed.

Lemma checkAllOf_under : reports_under path (checkAllOf self data schema path).
Proof.
  unfold checkAllOf. under.
Qed.

Lemma typeCheck_under (error : ValidationError) :
  typeCheck data schema path = Some error -> Validator.path error = path.
Proof.
  unfold typeCheck. intros H.
  repeat match type of H with
    | match ?x with _ => _ end = _ => destruct x
    | (if ?c then _ else _) = _ => destruct c
    end; inversion H; reflexivity.
Qed.

Lemma body_under : reports_under path (validateAgainstSchema_body self data schema path).
Proof.
  unfold validateAgainstSchema_body.
  assert (H : reports_under path
    match typeCheck data schema path with
    | Some error => push error
    | None =>
        checkRequired data schema path ;;
        checkProperties self data schema path ;;
        checkItems self data schema path ;;
        checkArray data schema path ;;
        checkString data schema path ;;
        checkNumber data schema path ;;
        checkEnum data schema path ;;
        checkConst data schema path ;;
        checkOneOf self data schema path ;;
        checkAnyOf self data schema path ;;
        checkAllOf self data schema path
    end).
  { destruct (typeCheck data schema path) as [error | ] eqn:Htype.
    - apply reports_under_push. rewrite (typeCheck_under error Htype). apply prefix_refl.
    - repeat (apply reports_under_seq;
              [ repeat apply appends_seq;
                auto using checkProperties_appends, checkItems_appends,
                  checkArray_appends, checkString_appends, checkNumber_appends,
                  checkEnum_appends, checkConst_appends, checkOneOf_appends,
                  checkAnyOf_appends, checkAllOf_appends
              | | ]);
        auto using checkRequired_under, checkProperties_under, checkItems_under,
          checkArray_under, checkString_under, checkNumber_under,
          checkEnum_under, checkConst_under, checkOneOf_under,
          checkAnyOf_under, checkAllOf_under. }
  destruct schema; auto using reports_under_throw.
Qed.

End Located.

Lemma validate_fuel_under (fuel : nat) :
  forall data schema path, reports_under path (validate_fuel fuel data schema path).
Proof.
  induction fuel as [ | fuel IH ]; intros data schema path.
  - intros e [].
  - simpl. apply body_under; [ apply validate_fuel_appends | exact IH ].
Qed.

(** X5: every error that [validateAgainstSchema] appends lies at the path of
    the call or below it: the path of the call is a prefix of the path of the
    error. *)
Theorem validator_reports_under_its_path
    (data : jsval) (schema : json) (path : string) (errors : list ValidationError)
    (e : ValidationError) :
  In e (snd (validateAgainstSchema data schema path errors)) ->
  In e errors \/ prefix path (Validator.path e) = true.
Proof.
  rewrite (validateAgainstSchema_appends data schema path errors). simpl.
  intros H. apply in_app_or in H. destruct H as [ H | H ]; [ now left | right ].
  now apply (validate_fuel_under (S (height schema)) data schema path).
Qed.


(** *** Schemas with a single keyword *)

Lemma only_keyword_object (keyword : string) (schema : json) (x : json) :
  JS.get schema keyword = Some x -> exists fields, schema = JObject fields.
Proof. destruct schema; simpl; try discriminate. eauto. Qed.

(** Discharges the absence of a keyword other than those of the schema. *)
Ltac absent H := apply H; [ simpl; tauto | discriminate .. ].

(** Skips the checks of the keywords that a schema with a single keyword
    does not have; runs a call on such a schema up to the check of its
    keyword. *)
Ltac skip_others H :=
  repeat first
    [ rewrite checkRequired_absent by absent H
    | rewrite checkProperties_absent by absent H
    | rewrite checkItems_absent by absent H
    | rewrite checkArray_absent by absent H
    | rewrite checkString_absent by absent H
    | rewrite checkNumber_absent by absent H
    | rewrite checkEnum_absent by absent H
    | rewrite checkConst_absent by absent H
    | rewrite checkOneOf_absent by absent H
    | rewrite checkAnyOf_absent by absent H
    | rewrite checkAllOf_absent by absent H ].

Ltac run_only H :=
  rewrite validateAgainstSchema_unfold;
  unfold validateAgainstSchema_body, seq;
  try rewrite typeCheck_absent by absent H;
  skip_others H.

Lemma forEach_concat {A : Type} (xs : list A) (f : A -> action) :
  (forall x, In x xs -> appends (f x)) ->
  (forall x, In x xs -> fst (f x []) = Normal) ->
  forall errors,
    forEach xs f errors = (Normal, errors ++ List.concat (map (fun x => snd (f x [])) xs)).
Proof.
  induction xs as [ | x xs IH ]; intros Happ Hnormal errors; simpl.
  - unfold skip. now rewrite app_nil_r.
  - unfold seq. rewrite (Happ x (or_introl eq_refl) errors).
    rewrite (Hnormal x (or_introl eq_refl)).
    rewrite IH;
      [ | intros; apply Happ; now right | intros; apply Hnormal; now right ].
    simpl. now rewrite app_assoc.
Qed.

(** A loop whose body only appends runs its body on each element in turn and
    stops at the first run that does not return. *)
Lemma forEach_sequenced {A : Type} (xs : list A) (f : A -> action) :
  (forall x, In x xs -> appends (f x)) ->
  forall errors,
    forEach xs f errors
    = (fst (sequenced (map (fun x => f x []) xs)),
       errors ++ snd (sequenced (map (fun x => f x []) xs))).
Proof.
  induction xs as [ | x xs IH ]; intros Happ errors; simpl.
  - unfold skip. now rewrite app_nil_r.
  - unfold seq. rewrite (Happ x (or_introl eq_refl) errors).
    destruct (f x []) as [[ | | ] es]; simpl; try reflexivity.
    rewrite IH by (intros; apply Happ; now right).
    destruct (sequenced (map (fun x0 => f x0 []) xs)) as [c rest]. simpl.
    now rewrite app_assoc.
Qed.

(** When every run returns, the outcome holds the errors of all of them. *)
Lemma sequenced_all_return (runs : list (completion * list ValidationError)) :
  (forall r, In r runs -> fst r = Normal) ->
  sequenced runs = (Normal, List.concat (map snd runs)).
Proof.
  induction runs as [ | [c es] runs IH ]; intros H; simpl; [ reflexivity | ].
  pose proof (H (c, es) (or_introl eq_refl)) as Hc. simpl in Hc. subst c.
  rewrite IH by (intros; apply H; now right). reflexivity.
Qed.

(** X6: [allOf] is a conjunction.  On a schema whose only keyword is [allOf],
    with subschemas that can each be run on the value, the errors appended
    are those of the first subschema, then those of the second, and so on,
    all for the same value at the same path. *)
Theorem allOf_concatenates
    (data : jsval) (schema : json) (path : string) (subs : list json)
    (errors : list ValidationError) :
  JS.get schema "allOf" = Some (JArray subs) ->
  only_keyword "allOf" schema ->
  (forall sub, In sub subs -> fst (validateAgainstSchema data sub path []) = Normal) ->
  validateAgainstSchema data schema path errors
  = (Normal,
     errors ++ List.concat (map (fun sub => snd (validateAgainstSchema data sub path [])) subs)).
Proof.
  intros Hget Honly Hruns.
  destruct (only_keyword_object _ _ _ Hget) as [fields ->].
  run_only Honly. unfold checkAllOf. rewrite Hget.
  apply (forEach_concat subs (fun sub => validateAgainstSchema data sub path)).
  - intros. apply validateAgainstSchema_appends.
  - exact Hruns.
Qed.

(** X7: [items] applies one schema to every element.  On a schema whose only
    keyword is a truthy [items], an array is validated element by element:
    its first element against [items] at path [path[0]], then its second
    element at [path[1]], and so on, up to and including the first element
    on which the validator does not return.  The errors appended are those of
    these runs in that order, and the call returns when all of them do. *)
Theorem items_concatenates
    (elements : list json) (schema : json) (path : string) (items : json)
    (errors : list ValidationError) :
  JS.get schema "items" = Some items ->
  JS.truthy items = true ->
  only_keyword "items" schema ->
  validateAgainstSchema (VJson (JArray elements)) schema path errors
  = let outcome :=
      sequenced
        (map (fun entry =>
                validateAgainstSchema (VJson (snd entry)) items
                  (item_path path (fst entry)) [])
           (JS.indexed elements)) in
    (fst outcome, errors ++ snd outcome).
Proof.
  intros Hget Htruthy Honly.
  destruct (only_keyword_object _ _ _ Hget) as [fields ->].
  run_only Honly. unfold checkItems. rewrite Hget, Htruthy. cbn [andb].
  rewrite (forEach_sequenced (JS.indexed elements)
             (fun entry => let (index, item) := entry in
                 let itemPath := item_path path index in
                 validateAgainstSchema (VJson item) items itemPath)).
  - replace (map (fun x : nat * json =>
                    (let (index, item) := x in
                     let itemPath := item_path path index in
                     validateAgainstSchema (VJson item) items itemPath) [])
               (JS.indexed elements))
      with (map (fun entry =>
                   validateAgainstSchema (VJson (snd entry)) items
                     (item_path path (fst entry)) [])
              (JS.indexed elements))
      by (apply map_ext; now intros [index item]).
    cbv zeta.
    destruct (sequenced _) as [[ | | ] es]; cbn [fst snd]; try reflexivity.
    skip_others Honly. reflexivity.
  - intros [index item] _. apply validateAgainstSchema_appends.
Qed.

(** X8: [anyOf] is a disjunction.  On a schema whose only keyword is
    [anyOf], with subschemas that can each be run on the value, exactly one
    error is appended, at the path of the call, when the value matches none of
    the subschemas, and nothing is appended when it matches one or more. *)
Theorem anyOf_requires_a_match
    (data : jsval) (schema : json) (path : string) (subs : list json)
    (errors : list ValidationError) :
  JS.get schema "anyOf" = Some (JArray subs) ->
  only_keyword "anyOf" schema ->
  (forall sub, In sub subs -> fst (validateAgainstSchema data sub path []) = Normal) ->
  validateAgainstSchema data schema path errors
  = (Normal,
     if (matched data path subs =? 0)%nat
     then errors ++
          [ {| path := path;
               message := "Data must match at least one schema. Matched 0 schemas.";
               value := data |} ]
     else errors).
Proof.
  intros Hget Honly Hruns.
  destruct (only_keyword_object _ _ _ Hget) as [fields ->].
  run_only Honly. unfold checkAnyOf. rewrite Hget.
  rewrite filter_with_matches by assumption. fold (matched data path subs).
  destruct (matched data path subs =? 0)%nat; unfold when, push, skip;
    skip_others Honly; reflexivity.
Qed.

(** X9: [validateJsonSchema] always returns a list of errors, whatever the
    value and the schema text.  When the text is not JSON, or is the JSON
    text [null], the list holds exactly one error, with path [schema], the
    message [Invalid schema format] and the schema text as value. *)
Theorem validateJsonSchema_always_returns (data : jsval) (schemaString : string) :
  exists errors,
    validateJsonSchema data schemaString = Some errors
    /\ (JSON_parse schemaString = None \/ JSON_parse schemaString = Some JNull ->
        errors = [ {| path := "schema";
                      message := "Invalid schema format";
                      value := VJson (JString schemaString) |} ]).
Proof.
  unfold validateJsonSchema.
  destruct (validateParsed_returns data (JSON_parse schemaString) schemaString)
    as [errors Hrun].
  exists errors. split; [ exact Hrun | ].
  intros [ Hparse | Hparse ]; rewrite Hparse in Hrun; simpl in Hrun;
    inversion Hrun; reflexivity.
Qed.

Lemma typeCheck_passes (data : jsval) (schema : json) (path : string) (type : json) :
  JS.get schema "type" = Some type ->
  ~ fails_type_check data type ->
  typeCheck data schema path = None.
Proof.
  intros Hget Hpass. unfold typeCheck, fails_type_check in *. rewrite Hget.
  destruct (JS.truthy type); [ | reflexivity ].
  destruct (JS.is_string type "integer").
  - destruct data as [ | [ | | n | | | ] | | ];
      try (exfalso; apply Hpass; intros [n' [H _]]; discriminate).
    destruct (JS.Number_isInteger n) eqn:Hint; simpl.
    + destruct (JS.Number_isFinite n) eqn:Hfin; simpl; [ reflexivity | ].
      exfalso. apply Hpass. intros [n' [H [_ H']]]. inversion H; subst. congruence.
    + exfalso. apply Hpass. intros [n' [H [H' _]]]. inversion H; subst. congruence.
  - destruct (JS.is_string type "number").
    + destruct data as [ | [ | | n | | | ] | | ];
        try (exfalso; apply Hpass; intros [n' [H _]]; discriminate).
      destruct (JS.Number_isFinite n) eqn:Hfin; simpl; [ reflexivity | ].
      exfalso. apply Hpass. intros [n' [H H']]. inversion H; subst. congruence.
    + destruct (JS.is_string type (getJsonType data)) eqn:Heq; simpl; [ reflexivity | ].
      exfalso. apply Hpass. intros ->. simpl in Heq.
      now rewrite String.eqb_refl in Heq.
Qed.

(** X10: a schema whose only keyword is a type (one that the guard
    [if (schema.type)] lets through) accepts exactly the values that pass the
    type check: a finite number without fractional part for ["integer"], a
    finite number for ["number"], and a value of that class for any other
    type. *)
Theorem type_only_schema_accepts_its_type
    (data : jsval) (schema : json) (path : string) (type : json)
    (errors : list ValidationError) :
  JS.get schema "type" = Some type ->
  JS.truthy type = true ->
  only_keyword "type" schema ->
  (validateAgainstSchema data schema path errors = (Normal, errors)
   <-> ~ fails_type_check data type).
Proof.
  intros Hget Htruthy Honly.
  destruct (only_keyword_object _ _ _ Hget) as [fields ->].
  split.
  - intros Hrun Hfails.
    destruct (typeCheck_fails data (JObject fields) path type Hget Htruthy Hfails)
      as [error [Hcheck _]].
    rewrite validateAgainstSchema_unfold in Hrun.
    unfold validateAgainstSchema_body in Hrun. rewrite Hcheck in Hrun.
    now apply EqualityFacts.push_is_visible in Hrun.
  - intros Hpass. rewrite validateAgainstSchema_unfold.
    unfold validateAgainstSchema_body, seq.
    rewrite (typeCheck_passes data (JObject fields) path type Hget Hpass).
    repeat first
      [ rewrite checkRequired_absent by absent Honly
      | rewrite checkProperties_absent by absent Honly
      | rewrite checkItems_absent by absent Honly
      | rewrite checkArray_absent by absent Honly
      | rewrite checkString_absent by absent Honly
      | rewrite checkNumber_absent by absent Honly
      | rewrite checkEnum_absent by absent Honly
      | rewrite checkConst_absent by absent Honly
      | rewrite checkOneOf_absent by absent Honly
      | rewrite checkAnyOf_absent by absent Honly ].
    apply checkAllOf_absent. absent Honly.
Qed.


(** X11: reading [schema.type] on the schema [null] throws: nothing is
    appended.  Any other schema without a recognized keyword, be it an
    object, an array, a string, a number or a boolean, accepts every
    value. *)
Theorem schema_without_keywords
    (data : jsval) (schema : json) (path : string) (errors : list ValidationError) :
  (schema = JNull -> validateAgainstSchema data schema path errors = (Thrown, errors))
  /\ (schema <> JNull -> no_recognized_fields schema ->
      validateAgainstSchema data schema path errors = (Normal, errors)).
Proof.
  split.
  - intros ->. reflexivity.
  - intros Hnull H. rewrite validateAgainstSchema_unfold.
    destruct schema; [ contradiction | .. ];
      unfold validateAgainstSchema_body, seq;
      rewrite typeCheck_absent by (apply H; simpl; tauto);
      rewrite checkRequired_absent by (apply H; simpl; tauto);
      rewrite checkProperties_absent by (apply H; simpl; tauto);
      rewrite checkItems_absent by (apply H; simpl; tauto);
      rewrite checkArray_absent by (apply H; simpl; tauto);
      rewrite checkString_absent by (apply H; simpl; tauto);
      rewrite checkNumber_absent by (apply H; simpl; tauto);
      rewrite checkEnum_absent by (apply H; simpl; tauto);
      rewrite checkConst_absent by (apply H; simpl; tauto);
      rewrite checkOneOf_absent by (apply H; simpl; tauto);
      rewrite checkAnyOf_absent by (apply H; simpl; tauto);
      apply checkAllOf_absent, H; simpl; tauto.
Qed.

(** *** Duplicates *)

Lemma find_duplicates_app (items : list (nat * json)) :
  forall seen duplicates,
    find_duplicates items seen duplicates
    = duplicates ++ find_duplicates items seen [].
Proof.
  induction items as [ | [index item] items IH ]; intros seen duplicates; simpl.
  - now rewrite app_nil_r.
  - destruct (JS.mem (JS.stringify item) seen).
    + rewrite (IH seen (duplicates ++ [index])), (IH seen [index]).
      now rewrite app_assoc.
    + apply IH.
Qed.

Lemma find_duplicates_none (items : list (nat * json)) :
  forall seen,
    find_duplicates items seen [] = []
    <-> NoDup (map (fun entry => JS.stringify (snd entry)) items)
        /\ forall entry, In entry items -> ~ In (JS.stringify (snd entry)) seen.
Proof.
  induction items as [ | [index item] items IH ]; intros seen; simpl.
  - split; [ intros _; split; [ constructor | tauto ] | reflexivity ].
  - destruct (JS.mem (JS.stringify item) seen) eqn:Hmem.
    + rewrite find_duplicates_app. split; [ discriminate | ].
      intros [_ H]. exfalso. apply (H (index, item)); [ now left | ].
      now apply MetricsMore.mem_spec.
    + rewrite IH. split.
      * intros [Hnodup Hseen]. split.
        -- constructor; [ | exact Hnodup ].
           intros Hin. apply in_map_iff in Hin. destruct Hin as [entry [Heq Hin]].
           apply (Hseen entry Hin). left. now symmetry.
        -- intros entry [ <- | Hin ]; simpl.
           ++ intros H. apply MetricsMore.mem_spec in H. congruence.
           ++ intros H. apply (Hseen entry Hin). now right.
      * intros [Hnodup Hseen]. inversion Hnodup as [ | ? ? Hnotin Hrest ]; subst. split.
        -- exact Hrest.
        -- intros entry Hin [ Heq | H ].
           ++ apply Hnotin. apply in_map_iff. exists entry. split; [ now symmetry | exact Hin ].
           ++ apply (Hseen entry); [ now right | exact H ].
Qed.

(** X12: [uniqueItems].  On a schema whose only keyword is [uniqueItems] set
    to [true], an array is accepted exactly when the [JSON.stringify] texts of
    its elements are pairwise different. *)
Theorem uniqueItems_accepts_distinct_texts
    (elements : list json) (schema : json) (path : string)
    (errors : list ValidationError) :
  JS.get schema "uniqueItems" = Some (JBool true) ->
  only_keyword "uniqueItems" schema ->
  (validateAgainstSchema (VJson (JArray elements)) schema path errors = (Normal, errors)
   <-> NoDup (map JS.stringify elements)).
Proof.
  intros Hget Honly.
  destruct (only_keyword_object _ _ _ Hget) as [fields ->].
  assert (Hnone : find_duplicates (JS.indexed elements) [] [] = []
                  <-> NoDup (map JS.stringify elements)).
  { rewrite find_duplicates_none.
    rewrite <- (SearchFacts.map_snd_indexed elements) at 2. rewrite map_map.
    split; [ tauto | intros H; split; [ exact H | intros entry _ [] ] ]. }
  run_only Honly. unfold checkArray.
  rewrite (Honly "minItems"), (Honly "maxItems"), Hget;
    [ | simpl; tauto | discriminate | simpl; tauto | discriminate ].
  unfold seq, skip.
  destruct (find_duplicates (JS.indexed elements) [] []) as [ | index duplicates ] eqn:Hdup;
    cbn [List.length Nat.ltb Nat.leb when]; unfold push, skip.
  - skip_others Honly. split; [ intros _; now apply Hnone | reflexivity ].
  - skip_others Honly. split.
    + intros H. now apply EqualityFacts.push_is_visible in H.
    + intros H. apply Hnone in H. discriminate.
Qed.

(** X13: a value is accepted by a schema whose only keyword is [const] with
    that value as constant, and by a schema whose only keyword is [enum] with
    that value among the candidates. *)
Theorem const_and_enum_accept_their_values
    (v : json) (schema : json) (path : string) (errors : list ValidationError) :
  (JS.get schema "const" = Some v /\ only_keyword "const" schema)
  \/ (exists values, JS.get schema "enum" = Some (JArray values) /\ In v values
                     /\ only_keyword "enum" schema) ->
  validateAgainstSchema (VJson v) schema path errors = (Normal, errors).
Proof.
  intros [ [Hget Honly] | [values [Hget [Hin Honly]]] ];
    destruct (only_keyword_object _ _ _ Hget) as [fields ->].
  - run_only Honly. unfold checkConst. rewrite Hget.
    unfold JS.JSON_stringify, same_text. rewrite String.eqb_refl.
    cbn [negb when]. unfold skip. skip_others Honly. reflexivity.
  - run_only Honly. unfold checkEnum. rewrite Hget.
    replace (existsb _ values) with true.
    + cbn [negb when]. unfold skip. skip_others Honly. reflexivity.
    + symmetry. apply existsb_exists. exists v. split; [ exact Hin | ].
      unfold JS.JSON_stringify, same_text. apply String.eqb_refl.
Qed.


(** The runs of the [properties] loop, each on an error list of its own. *)
Lemma declared_runs (data : jsval) (path : string) (properties : json) :
  map (fun x : string * json =>
         (let (prop, propSchema) := x in
          when (JS.has_property prop data)
            (let propPath := member_path path prop in
             validateAgainstSchema (JS.get_member data prop) propSchema propPath)) [])
    (JS.Object_entries properties)
  = map (fun entry =>
           if JS.has_property (fst entry) data
           then validateAgainstSchema (JS.get_member data (fst entry)) (snd entry)
                  (member_path path (fst entry)) []
           else (Normal, []))
      (JS.Object_entries properties).
Proof.
  apply map_ext. intros [prop propSchema]. simpl.
  now destruct (JS.has_property prop data).
Qed.

(** X15: [properties].  On a schema whose only keyword is a truthy
    [properties], an object is validated property by property, in the order
    of the declarations: each declared property that [in] finds in the object
    is validated against its own schema, at the path of the call extended by
    its name, and the others are passed over, up to and including the first
    property on which the validator does not return.  The errors appended are
    those of these runs in that order, and the call returns when all of them
    do. *)
Theorem properties_concatenates
    (data : jsval) (schema : json) (path : string) (properties : json)
    (errors : list ValidationError) :
  JS.get schema "properties" = Some properties ->
  JS.truthy properties = true ->
  JS.is_plain_object data = true ->
  only_keyword "properties" schema ->
  validateAgainstSchema data schema path errors
  = let outcome :=
      sequenced
        (map (fun entry =>
                if JS.has_property (fst entry) data
                then validateAgainstSchema (JS.get_member data (fst entry)) (snd entry)
                       (member_path path (fst entry)) []
                else (Normal, []))
           (JS.Object_entries properties)) in
    (fst outcome, errors ++ snd outcome).
Proof.
  intros Hget Htruthy Hplain Honly.
  destruct (only_keyword_object _ _ _ Hget) as [fields ->].
  run_only Honly. unfold checkProperties.
  rewrite Hget, Htruthy, Hplain, (Honly "additionalProperties");
    [ | simpl; tauto | discriminate ].
  cbn [andb]. unfold seq at 1.
  rewrite (forEach_sequenced (JS.Object_entries properties)
             (fun entry => let (prop, propSchema) := entry in
                 when (JS.has_property prop data)
                   (let propPath := member_path path prop in
                    validateAgainstSchema (JS.get_member data prop) propSchema propPath))).
  - rewrite (declared_runs data path properties). cbv zeta.
    destruct (sequenced _) as [[ | | ] es]; cbn [fst snd]; try reflexivity.
    unfold skip. skip_others Honly. reflexivity.
  - intros [prop propSchema] _. apply appends_when, validateAgainstSchema_appends.
Qed.

Lemma forEach_when_push {A : Type} (xs : list A) (c : A -> bool)
    (e : A -> ValidationError) (errors : list ValidationError) :
  forEach xs (fun x => when (c x) (push (e x))) errors
  = (Normal, errors ++ map e (filter c xs)).
Proof.
  revert errors. induction xs as [ | x xs IH ]; intros errors; simpl.
  - unfold skip. now rewrite app_nil_r.
  - unfold seq. destruct (c x); simpl.
    + rewrite IH, <- app_assoc. reflexivity.
    + apply IH.
Qed.

(** X27: [additionalProperties].  On a schema whose only keywords are a
    truthy [properties] and [additionalProperties] set to [false], an object
    is first validated property by property as for [properties] alone.  When
    all these runs return, their errors are followed by one error for each
    own key of the object that is not declared, in the order of the keys,
    each at the path of the call extended by the key and carrying the value
    of the member, and the call returns.  When one of the runs does not
    return, the call stops there and no undeclared key is reported. *)
Theorem additionalProperties_false_reports_undeclared_keys
    (data : jsval) (schema : json) (path : string) (properties : json)
    (errors : list ValidationError) :
  JS.get schema "properties" = Some properties ->
  JS.truthy properties = true ->
  JS.get schema "additionalProperties" = Some (JBool false) ->
  JS.is_plain_object data = true ->
  (forall name, In name keywords ->
     name <> "properties" -> name <> "additionalProperties" ->
     JS.get schema name = None) ->
  validateAgainstSchema data schema path errors
  = let outcome :=
      sequenced
        (map (fun entry =>
                if JS.has_property (fst entry) data
                then validateAgainstSchema (JS.get_member data (fst entry)) (snd entry)
                       (member_path path (fst entry)) []
                else (Normal, []))
           (JS.Object_entries properties)) in
    match fst outcome with
    | Normal =>
        (Normal,
         errors ++ snd outcome ++
         map (fun prop => {| path := member_path path prop;
                             message := "Additional property not allowed: " +++ prop;
                             value := JS.get_member data prop |})
           (filter (fun prop => negb (JS.mem prop (JS.Object_keys properties)))
              (JS.own_keys data)))
    | stopped => (stopped, errors ++ snd outcome)
    end.
Proof.
  intros Hget Htruthy Hfalse Hplain Honly.
  destruct (only_keyword_object _ _ _ Hget) as [fields ->].
  run_only Honly. unfold checkProperties.
  rewrite Hget, Htruthy, Hplain, Hfalse.
  cbn [andb]. unfold seq at 1.
  rewrite (forEach_sequenced (JS.Object_entries properties)
             (fun entry => let (prop, propSchema) := entry in
                 when (JS.has_property prop data)
                   (let propPath := member_path path prop in
                    validateAgainstSchema (JS.get_member data prop) propSchema propPath))).
  - rewrite (declared_runs data path properties). cbv zeta.
    destruct (sequenced _) as [[ | | ] es]; cbn [fst snd]; try reflexivity.
    rewrite forEach_when_push. skip_others Honly.
    now rewrite <- app_assoc.
  - intros [prop propSchema] _. apply appends_when, validateAgainstSchema_appends.
Qed.

(** A number that [Number.isInteger] accepts is finite. *)
Lemma isInteger_isFinite (x : float) :
  JS.Number_isInteger x = true -> JS.Number_isFinite x = true.
Proof.
  unfold JS.Number_isInteger, JS.Number_isFinite, PrimFloat.is_finite,
    PrimFloat.is_nan, PrimFloat.is_infinity.
  rewrite !FloatAxioms.eqb_spec, FloatAxioms.abs_spec.
  change (Prim2SF infinity) with (S754_infinity false).
  destruct (Prim2SF x) as [ s | s | | s m e ]; try discriminate; intros _.
  - destruct s; reflexivity.
  - unfold SFeqb, SFcompare, SFabs.
    rewrite Z.compare_refl, Pos.compare_refl. destruct s; reflexivity.
Qed.

(** X28: for a number, the type ["integer"] is [Number.isInteger] alone.  On
    a schema whose only keyword is the type ["integer"], a number is accepted
    when [Number.isInteger] holds of it and gets the one error [Expected
    integer, got decimal number] otherwise: the test of lines 146 to 153 for
    an integer that is not finite never fires, and the numbers that are not
    finite are reported as decimal numbers. *)
Theorem integer_type_is_Number_isInteger
    (n : float) (schema : json) (path : string) (errors : list ValidationError) :
  JS.get schema "type" = Some (JString "integer") ->
  only_keyword "type" schema ->
  validateAgainstSchema (VJson (JNumber n)) schema path errors
  = (Normal,
     if JS.Number_isInteger n then errors
     else errors ++
          [ {| path := path;
               message := "Expected integer, got decimal number " +++ NumberToString n;
               value := VJson (JNumber n) |} ]).
Proof.
  intros Hget Honly.
  destruct (only_keyword_object _ _ _ Hget) as [fields ->].
  rewrite validateAgainstSchema_unfold. unfold validateAgainstSchema_body.
  unfold typeCheck. rewrite Hget.
  change (JS.truthy (JString "integer")) with true.
  change (JS.is_string (JString "integer") "integer") with true.
  cbv iota.
  destruct (JS.Number_isInteger n) eqn:Hint; cbn [negb].
  - rewrite (isInteger_isFinite n Hint). cbn [negb]. unfold seq.
    skip_others Honly. reflexivity.
  - reflexivity.
Qed.

End WithHost.

(** *** Closed instances *)

(** The hypothesis that a closed schema has one keyword only. *)
Ltac one_keyword :=
  let name := fresh "name" in
  let Hin := fresh "Hin" in
  let Hne := fresh "Hne" in
  intros name Hin Hne; simpl in Hin;
  repeat (destruct Hin as [ <- | Hin ]; [ first [ reflexivity | now contradiction Hne ] | ]);
  destruct Hin.

Lemma validator_reports_under_its_path_witness :
  In {| path := "a"; message := "Expected number, got string";
        value := VJson (JString "x") |}
     (snd (validateAgainstSchema (host := ExampleHost.example_host)
             (VJson (JString "x")) (JObject [("type", JString "number")]) "a" []))
  /\ prefix "a" "a" = true.
Proof.
  assert (H : In {| path := "a"; message := "Expected number, got string";
                    value := VJson (JString "x") |}
                (snd (validateAgainstSchema (host := ExampleHost.example_host)
                        (VJson (JString "x")) (JObject [("type", JString "number")])
                        "a" [])))
    by (left; reflexivity).
  split; [ exact H | ].
  destruct (validator_reports_under_its_path (host := ExampleHost.example_host)
              (VJson (JString "x")) (JObject [("type", JString "number")]) "a" []
              {| path := "a"; message := "Expected number, got string";
                 value := VJson (JString "x") |} H)
    as [ [] | Hprefix ].
  exact Hprefix.
Defined.

Lemma allOf_concatenates_witness :
  validateAgainstSchema (host := ExampleHost.example_host) (VJson (JString "x"))
    (JObject [("allOf", JArray [JObject [("type", JString "number")]; JObject []])]) "a" []
  = (Normal,
     ([] ++ List.concat
              (map (fun sub =>
                      snd (validateAgainstSchema (host := ExampleHost.example_host)
                             (VJson (JString "x")) sub "a" []))
                 [JObject [("type", JString "number")]; JObject []]))%list).
Proof.
  apply (allOf_concatenates (host := ExampleHost.example_host) (VJson (JString "x"))
           (JObject [("allOf", JArray [JObject [("type", JString "number")]; JObject []])])
           "a" [JObject [("type", JString "number")]; JObject []] []).
  - reflexivity.
  - one_keyword.
  - intros sub [ <- | [ <- | [] ] ]; reflexivity.
Defined.

Lemma items_concatenates_witness :
  validateAgainstSchema (host := ExampleHost.example_host)
    (VJson (JArray [JString "x"; JBool true]))
    (JObject [("items", JObject [("type", JString "string")])]) "a" []
  = let outcome :=
      sequenced
        (map (fun entry =>
                validateAgainstSchema (host := ExampleHost.example_host)
                  (VJson (snd entry)) (JObject [("type", JString "string")])
                  (item_path "a" (fst entry)) [])
           (JS.indexed [JString "x"; JBool true])) in
    (fst outcome, [] ++ snd outcome).
Proof.
  apply (items_concatenates (host := ExampleHost.example_host)
           [JString "x"; JBool true]
           (JObject [("items", JObject [("type", JString "string")])]) "a"
           (JObject [("type", JString "string")]) []).
  - reflexivity.
  - reflexivity.
  - one_keyword.
Defined.

(** The loop stops at the element on which the validator throws: with
    [items] set to [{"minLength":5,"format":"valueOf"}] the first element
    gets its length error, the format lookup finds [Object.prototype.valueOf],
    whose call throws, and the second element is never validated. *)
Example items_stops_at_a_throw :
  validateAgainstSchema (host := ExampleHost.example_host)
    (VJson (JArray [JString "a"; JString "b"]))
    (JObject [("items", JObject [("minLength", JNumber 5);
                                 ("format", JString "valueOf")])]) "p" []
  = (Thrown,
     [ {| path := "p[0]";
          message := "String too short. Minimum length: 5, got 1";
          value := VJson (JString "a") |} ]).
Proof. reflexivity. Qed.

Lemma anyOf_requires_a_match_witness :
  validateAgainstSchema (host := ExampleHost.example_host) (VJson (JString "x"))
    (JObject [("anyOf", JArray [JObject [("type", JString "number")]])]) "a" []
  = (Normal,
     if (matched (host := ExampleHost.example_host) (VJson (JString "x")) "a"
           [JObject [("type", JString "number")]] =? 0)%nat
     then ([] ++
           [ {| path := "a";
                message := "Data must match at least one schema. Matched 0 schemas.";
                value := VJson (JString "x") |} ])%list
     else []).
Proof.
  apply (anyOf_requires_a_match (host := ExampleHost.example_host) (VJson (JString "x"))
           (JObject [("anyOf", JArray [JObject [("type", JString "number")]])])
           "a" [JObject [("type", JString "number")]] []).
  - reflexivity.
  - one_keyword.
  - intros sub [ <- | [] ]; reflexivity.
Defined.

Lemma type_only_schema_accepts_its_type_witness :
  validateAgainstSchema (host := ExampleHost.example_host) (VJson (JString "x"))
    (JObject [("type", JString "string")]) "a" []
  = (Normal, [])
  <-> ~ fails_type_check (VJson (JString "x")) (JString "string").
Proof.
  apply (type_only_schema_accepts_its_type (host := ExampleHost.example_host)
           (VJson (JString "x")) (JObject [("type", JString "string")]) "a"
           (JString "string") []).
  - reflexivity.
  - reflexivity.
  - one_keyword.
Defined.

Lemma uniqueItems_accepts_distinct_texts_witness :
  validateAgainstSchema (host := ExampleHost.example_host)
    (VJson (JArray [JString "a"; JString "b"]))
    (JObject [("uniqueItems", JBool true)]) "" []
  = (Normal, [])
  <-> NoDup (map (JS.stringify (host := ExampleHost.example_host))
               [JString "a"; JString "b"]).
Proof.
  apply (uniqueItems_accepts_distinct_texts (host := ExampleHost.example_host)
           [JString "a"; JString "b"] (JObject [("uniqueItems", JBool true)]) "" []).
  - reflexivity.
  - one_keyword.
Defined.

Lemma const_and_enum_accept_their_values_witness :
  validateAgainstSchema (host := ExampleHost.example_host) (VJson (JString "x"))
    (JObject [("enum", JArray [JString "w"; JString "x"])]) "a" []
  = (Normal, []).
Proof.
  apply (const_and_enum_accept_their_values (host := ExampleHost.example_host)
           (JString "x") (JObject [("enum", JArray [JString "w"; JString "x"])]) "a" []).
  right. exists [JString "w"; JString "x"]. split; [ reflexivity | split ].
  - right. left. reflexivity.
  - one_keyword.
Defined.


Lemma properties_concatenates_witness :
  validateAgainstSchema (host := ExampleHost.example_host)
    (VJson (JObject [("a", JString "x")]))
    (JObject [("properties", JObject [("a", JObject [("type", JString "number")])])]) "" []
  = let outcome :=
      sequenced
        (map (fun entry =>
                if JS.has_property (fst entry) (VJson (JObject [("a", JString "x")]))
                then validateAgainstSchema (host := ExampleHost.example_host)
                       (JS.get_member (VJson (JObject [("a", JString "x")])) (fst entry))
                       (snd entry) (member_path "" (fst entry)) []
                else (Normal, []))
           (JS.Object_entries (JObject [("a", JObject [("type", JString "number")])]))) in
    (fst outcome, [] ++ snd outcome).
Proof.
  apply (properties_concatenates (host := ExampleHost.example_host)
           (VJson (JObject [("a", JString "x")]))
           (JObject [("properties", JObject [("a", JObject [("type", JString "number")])])])
           "" (JObject [("a", JObject [("type", JString "number")])]) []).
  - reflexivity.
  - reflexivity.
  - reflexivity.
  - one_keyword.
Defined.

Lemma additionalProperties_false_reports_undeclared_keys_witness :
  validateAgainstSchema (host := ExampleHost.example_host)
    (VJson (JObject [("a", JString "x"); ("b", JBool true)]))
    (JObject [("properties", JObject [("a", JObject [("type", JString "number")])]);
              ("additionalProperties", JBool false)]) "" []
  = let outcome :=
      sequenced
        (map (fun entry =>
                if JS.has_property (fst entry)
                     (VJson (JObject [("a", JString "x"); ("b", JBool true)]))
                then validateAgainstSchema (host := ExampleHost.example_host)
                       (JS.get_member
                          (VJson (JObject [("a", JString "x"); ("b", JBool true)]))
                          (fst entry))
                       (snd entry) (member_path "" (fst entry)) []
                else (Normal, []))
           (JS.Object_entries (JObject [("a", JObject [("type", JString "number")])]))) in
    match fst outcome with
    | Normal =>
        (Normal,
         [] ++ snd outcome ++
         map (fun prop =>
                {| path := member_path "" prop;
                   message := "Additional property not allowed: " +++ prop;
                   value := JS.get_member
                              (VJson (JObject [("a", JString "x"); ("b", JBool true)]))
                              prop |})
           (filter (fun prop =>
                      negb (JS.mem prop
                              (JS.Object_keys
                                 (JObject [("a", JObject [("type", JString "number")])]))))
              (JS.own_keys (VJson (JObject [("a", JString "x"); ("b", JBool true)])))))
    | stopped => (stopped, [] ++ snd outcome)
    end.
Proof.
  apply (additionalProperties_false_reports_undeclared_keys
           (host := ExampleHost.example_host)
           (VJson (JObject [("a", JString "x"); ("b", JBool true)]))
           (JObject [("properties", JObject [("a", JObject [("type", JString "number")])]);
                     ("additionalProperties", JBool false)])
           "" (JObject [("a", JObject [("type", JString "number")])]) []).
  - reflexivity.
  - reflexivity.
  - reflexivity.
  - reflexivity.
  - intros name Hin Hp Ha. simpl in Hin.
    repeat (destruct Hin as [ <- | Hin ];
            [ first [ reflexivity | now contradiction Hp | now contradiction Ha ] | ]).
    destruct Hin.
Defined.

Lemma integer_type_is_Number_isInteger_witness :
  validateAgainstSchema (host := ExampleHost.example_host) (VJson (JNumber 5))
    (JObject [("type", JString "integer")]) "a" []
  = (Normal,
     if JS.Number_isInteger 5 then []
     else [] ++
          [ {| path := "a";
               message := "Expected integer, got decimal number "
                          +++ NumberToString (Host := ExampleHost.example_host) 5;
               value := VJson (JNumber 5) |} ]).
Proof.
  apply (integer_type_is_Number_isInteger (host := ExampleHost.example_host) 5
           (JObject [("type", JString "integer")]) "a" []).
  - reflexivity.
  - one_keyword.
Defined.

End ValidatorMore.

(** ** The oneOf check inside a call *)

Module OneOfFacts.
Import Validator ValidatorFacts ValidatorChecks ValidatorSpec.

(** Reading a schema without one of its fields. *)
Lemma get_without (name key : string) (schema : json) :
  key <> name -> JS.get (without name schema) key = JS.get schema key.
Proof.
  intros Hne. destruct schema as [ | | | | | fields ]; try reflexivity. simpl.
  induction fields as [ | [k v] fields IH ]; simpl; [ reflexivity | ].
  destruct (String.eqb_spec k name) as [ -> | Hk ]; simpl.
  - destruct (String.eqb_spec name key) as [ Heq | _ ]; [ congruence | exact IH ].
  - now rewrite IH.
Qed.

Lemma get_without_same (name : string) (schema : json) :
  JS.get (without name schema) name = None.
Proof.
  destruct schema as [ | | | | | fields ]; try reflexivity. simpl.
  induction fields as [ | [k v] fields IH ]; simpl; [ reflexivity | ].
  destruct (String.eqb_spec k name) as [ -> | Hk ]; simpl; [ exact IH | ].
  destruct (String.eqb_spec k name); [ contradiction | exact IH ].
Qed.

(** A filter that returns has called back on every element, and every call
    has returned. *)
Lemma filter_with_returns {A : Type} (p : A -> completion * bool) (xs : list A) :
  forall kept, filter_with p xs = (Normal, kept) ->
    forall x, In x xs -> fst (p x) = Normal.
Proof.
  induction xs as [ | y xs IH ]; intros kept Hrun x Hin; [ destruct Hin | ].
  simpl in Hrun. destruct (p y) as [[ | | ] keep] eqn:Ey; try discriminate.
  destruct (filter_with p xs) as [[ | | ] kept'] eqn:Exs; try discriminate.
  destruct Hin as [ <- | Hin ]; [ now rewrite Ey | now apply (IH kept') ].
Qed.

Section WithHost.
Context {host : Host}.

(** The other checks do not read the field [oneOf]. *)
Section Stages.
Variable self : jsval -> json -> string -> action.
Variables (data : jsval) (schema : json) (path : string).

Local Abbreviation schema' := (without "oneOf" schema).

Ltac same := intros; rewrite !get_without by discriminate; reflexivity.

Lemma typeCheck_without : typeCheck data schema' path = typeCheck data schema path.
Proof. unfold typeCheck. same. Qed.

Lemma checkRequired_without :
  checkRequired data schema' path = checkRequired data schema path.
Proof. unfold checkRequired. same. Qed.

Lemma checkProperties_without :
  checkProperties self data schema' path = checkProperties self data schema path.
Proof. unfold checkProperties. same. Qed.

Lemma checkItems_without :
  checkItems self data schema' path = checkItems self data schema path.
Proof. unfold checkItems. same. Qed.

Lemma checkArray_without : checkArray data schema' path = checkArray data schema path.
Proof. unfold checkArray. same. Qed.

Lemma checkString_without : checkString data schema' path = checkString data schema path.
Proof. unfold checkString. same. Qed.

Lemma checkNumber_without : checkNumber data schema' path = checkNumber data schema path.
Proof. unfold checkNumber. same. Qed.

Lemma checkEnum_without : checkEnum data schema' path = checkEnum data schema path.
Proof. unfold checkEnum. same. Qed.

Lemma checkConst_without : checkConst data schema' path = checkConst data schema path.
Proof. unfold checkConst. same. Qed.

Lemma checkAnyOf_without :
  checkAnyOf self data schema' path = checkAnyOf self data schema path.
Proof. unfold checkAnyOf. same. Qed.

Lemma checkAllOf_without :
  checkAllOf self data schema' path = checkAllOf self data schema path.
Proof. unfold checkAllOf. same. Qed.

End Stages.

(** One check of a run that returns: the check returns, and the checks
    that follow it run on the list it leaves. *)
Ltac stage H :=
  match type of H with
  | context [ match ?run with pair _ _ => _ end ] =>
      let e := fresh "e" in
      destruct run as [[ | | ] e]; cbn [fst] in H; cbv beta iota in H |- *;
      try discriminate H
  end.

Lemma oneOf_in_a_fresh_run
    (data : jsval) (schema : json) (path : string) (subs : list json) :
  JS.get schema "oneOf" = Some (JArray subs) ->
  typeCheck data schema path = None ->
  fst (validateAgainstSchema data schema path []) = Normal ->
  exists before after,
    validateAgainstSchema data (without "oneOf" schema) path [] = (Normal, before ++ after)
    /\ validateAgainstSchema data schema path []
       = (Normal,
          before ++
          (if (matched data path subs =? 1)%nat then []
           else [ {| path := path;
                     message := "Data must match exactly one schema. Matched "
                                +++ JS.nat_toString (matched data path subs)
                                +++ " schemas.";
                     value := data |} ]) ++
          after).
Proof.
  intros Hget Htype Hruns.
  destruct schema as [ | | | | | fields ]; try discriminate.
  rewrite validateAgainstSchema_unfold in Hruns.
  rewrite !validateAgainstSchema_unfold.
  unfold validateAgainstSchema_body in *. cbn [without].
  change (JObject (filter (fun kv => negb (fst kv =? "oneOf")) fields))
    with (without "oneOf" (JObject fields)).
  rewrite typeCheck_without, Htype in *.
  rewrite checkRequired_without, checkProperties_without, checkItems_without,
    checkArray_without, checkString_without, checkNumber_without,
    checkEnum_without, checkConst_without, checkAnyOf_without, checkAllOf_without.
  unfold seq in *.
  do 8 stage Hruns.
  assert (Hsubs : forall sub, In sub subs ->
                    fst (validateAgainstSchema data sub path []) = Normal).
  { intros sub Hin. rewrite <- (matches_completion validateAgainstSchema).
    unfold checkOneOf in Hruns. rewrite Hget in Hruns.
    destruct (filter_with (matches validateAgainstSchema data path) subs)
      as [[ | | ] kept] eqn:Ef; try discriminate Hruns.
    now apply (filter_with_returns _ _ kept Ef). }
  rewrite (checkOneOf_absent validateAgainstSchema data (without "oneOf" (JObject fields)) path)
    by apply get_without_same.
  rewrite (checkOneOf_reports data (JObject fields) path subs _ Hget Hsubs) in Hruns |- *.
  cbv beta iota in Hruns |- *.
  pose proof (ValidatorMore.checkAnyOf_appends validateAgainstSchema
                data (JObject fields) path)
    as Hany.
  pose proof (ValidatorMore.checkAllOf_appends validateAgainstSchema
                ValidatorMore.validateAgainstSchema_appends data (JObject fields) path)
    as Hall.
  exists e6.
  destruct (matched data path subs =? 1)%nat.
  - rewrite (Hany e6) in Hruns |- *.
    destruct (checkAnyOf validateAgainstSchema data (JObject fields) path [])
      as [[ | | ] anyOf]; cbn [fst snd] in Hruns |- *; try discriminate Hruns.
    rewrite (Hall (e6 ++ anyOf)) in Hruns |- *.
    destruct (checkAllOf validateAgainstSchema data (JObject fields) path [])
      as [[ | | ] allOf]; cbn [fst snd] in Hruns |- *; try discriminate Hruns.
    exists (anyOf ++ allOf). cbn [app]. rewrite <- !app_assoc. split; reflexivity.
  - rewrite (Hany e6). rewrite (Hany (e6 ++ [ _ ])) in Hruns |- *.
    destruct (checkAnyOf validateAgainstSchema data (JObject fields) path [])
      as [[ | | ] anyOf]; cbn [fst snd] in Hruns |- *; try discriminate Hruns.
    rewrite (Hall (e6 ++ anyOf)). rewrite (Hall ((e6 ++ [ _ ]) ++ anyOf)) in Hruns |- *.
    destruct (checkAllOf validateAgainstSchema data (JObject fields) path [])
      as [[ | | ] allOf]; cbn [fst snd] in Hruns |- *; try discriminate Hruns.
    exists (anyOf ++ allOf). rewrite <- !app_assoc. split; reflexivity.
Qed.


End WithHost.



End OneOfFacts.

(** ** More on the tree search *)

Module SearchMore.
Import Search SearchFacts SearchSpec.

Lemma numbered_nil : numbered [].
Proof. intros [ | i ] r H; discriminate. Qed.

Lemma numbered_snoc (results : list SearchResult) (r : SearchResult) :
  numbered results -> position r = List.length results -> numbered (results ++ [r]).
Proof.
  intros Hn Hr i r' Hi.
  destruct (Nat.lt_ge_cases i (List.length results)) as [ Hlt | Hge ].
  - rewrite nth_error_app1 in Hi by assumption. now apply Hn.
  - rewrite nth_error_app2 in Hi by assumption.
    destruct (i - List.length results) as [ | j ] eqn:E; simpl in Hi.
    + inversion Hi; subst. lia.
    + destruct j; discriminate.
Qed.

Section WithHost.
Context {host : Host}.
Variable caseSensitive : bool.
Variable searchTerm : string.

Local Abbreviation hits := (SearchSpec.hits caseSensitive searchTerm).
Local Abbreviation key_hit := (SearchSpec.key_hit caseSensitive searchTerm).

(** What [scan_entries] returns, exactly. *)
Lemma scan_entries_exact (currentPath : list string) :
  forall entries stack results,
    numbered results ->
    exists results',
      scan_entries caseSensitive searchTerm currentPath entries stack results
      = (push_all (member_entries currentPath entries) stack, results')
      /\ numbered results'
      /\ map strip results'
         = map strip results ++ flat_map (fun kv => key_hit currentPath (fst kv)) entries.
Proof.
  induction entries as [ | [key val] entries IH ]; intros stack results Hn.
  - exists results. simpl. rewrite app_nil_r. auto.
  - simpl scan_entries. unfold SearchSpec.key_hit. simpl flat_map.
    destruct (JS.includes (fold_case caseSensitive key) searchTerm) eqn:Hm.
    + match goal with
      | |- context [ scan_entries _ _ _ _ ?st (results ++ [?r0]) ] =>
          destruct (IH st (results ++ [r0])) as [results' [Hrun [Hn' Hstrip]]];
          [ now apply numbered_snoc | exists results' ]
      end.
      split; [ | split; [ exact Hn' | ] ].
      * rewrite Hrun. unfold push_all, member_entries. simpl.
        rewrite <- !app_assoc. reflexivity.
      * rewrite Hstrip, map_app, <- app_assoc. reflexivity.
    + destruct (IH ((val, currentPath ++ [key]) :: stack) results Hn)
        as [results' [Hrun [Hn' Hstrip]]].
      exists results'. split; [ | split; [ exact Hn' | exact Hstrip ] ].
      rewrite Hrun. unfold push_all, member_entries. simpl.
      rewrite <- !app_assoc. reflexivity.
Qed.

(** The matches below the entries of a stack. *)
Lemma hits_of_items (q : list string) (items : list json) :
  forall start,
    flat_map (fun e => hits (fst e) (snd e))
      (map (fun ix => (snd ix, q ++ [JS.nat_toString (fst ix)]))
         (combine (seq start (List.length items)) items))
    = (fix elements (l : list json) (i : nat) : list hit :=
         match l with
         | [] => []
         | x :: l => hits x (q ++ [JS.nat_toString i]) ++ elements l (S i)
         end) items start.
Proof.
  induction items as [ | x items IH ]; intros start; simpl; [ reflexivity | ].
  now rewrite IH.
Qed.

Lemma hits_of_members (q : list string) (fields : list (string * json)) :
  Permutation
    (flat_map (fun kv => key_hit q (fst kv)) fields
     ++ flat_map (fun e => hits (fst e) (snd e)) (member_entries q fields))
    ((fix members (l : list (string * json)) : list hit :=
        match l with
        | [] => []
        | (k, c) :: l => key_hit q k ++ hits c (q ++ [k]) ++ members l
        end) fields).
Proof.
  induction fields as [ | [k c] fields IH ]; simpl; [ constructor | ].
  rewrite <- !app_assoc. apply Permutation_app_head.
  rewrite !app_assoc.
  eapply Permutation_trans;
    [ apply Permutation_app_tail, Permutation_app_comm | ].
  rewrite <- !app_assoc. apply Permutation_app_head. exact IH.
Qed.

Lemma search_loop_exact (fuel : nat) :
  forall stack results,
    entries_size stack <= fuel ->
    numbered results ->
    exists final,
      search_loop caseSensitive fuel searchTerm stack results = Some final
      /\ numbered final
      /\ Permutation (map strip final)
           (map strip results ++ flat_map (fun e => hits (fst e) (snd e)) stack).
Proof.
  induction fuel as [ | fuel IH ]; intros [ | [value currentPath] stack ] results Hfuel Hn.
  - exists results. simpl. rewrite app_nil_r. auto.
  - rewrite entries_size_cons in Hfuel. lia.
  - exists results. simpl. rewrite app_nil_r. auto.
  - rewrite entries_size_cons in Hfuel.
    destruct (is_primitive value) eqn:Hprim.
    + rewrite search_loop_primitive by assumption.
      set (r0 := {| path := JS.join "." currentPath; type := Value;
                    text := JS.ToString value; position := List.length results |}).
      assert (Hhits :
        map strip (if JS.includes (fold_case caseSensitive (JS.ToString value)) searchTerm
                   then results ++ [r0] else results)
        = map strip results ++ hits value currentPath).
      { destruct value; try discriminate; simpl;
          destruct (JS.includes _ searchTerm);
          rewrite ?map_app, ?app_nil_r; reflexivity. }
      destruct (IH stack
                  (if JS.includes (fold_case caseSensitive (JS.ToString value)) searchTerm
                   then results ++ [r0] else results))
        as [final [Hrun [Hn' Hperm]]]; [ lia | | ].
      { destruct (JS.includes _ searchTerm); [ now apply numbered_snoc | exact Hn ]. }
      exists final. split; [ exact Hrun | split; [ exact Hn' | ] ].
      rewrite Hhits, <- app_assoc in Hperm. exact Hperm.
    + destruct value as [ | b | n | s | items | fields ]; try discriminate;
        simpl children in Hfuel.
      * simpl search_loop. fold (item_entries currentPath items).
        destruct (IH (push_all (item_entries currentPath items) stack) results)
          as [final [Hrun [Hn' Hperm]]]; [ | exact Hn | ].
        { rewrite entries_size_push_all, entries_size_items. lia. }
        exists final. split; [ exact Hrun | split; [ exact Hn' | ] ].
        eapply Permutation_trans; [ exact Hperm | ].
        apply Permutation_app_head. unfold push_all. rewrite flat_map_app.
        simpl flat_map. apply Permutation_app_tail.
        eapply Permutation_trans;
          [ apply Permutation_flat_map, Permutation_sym, Permutation_rev | ].
        unfold item_entries, JS.indexed. now rewrite hits_of_items.
      * simpl search_loop.
        destruct (scan_entries_exact currentPath fields stack results Hn)
          as [results' [Hscan [Hn' Hstrip]]].
        rewrite Hscan.
        destruct (IH (push_all (member_entries currentPath fields) stack) results')
          as [final [Hrun [Hn'' Hperm]]]; [ | exact Hn' | ].
        { rewrite entries_size_push_all, entries_size_members. lia. }
        exists final. split; [ exact Hrun | split; [ exact Hn'' | ] ].
        eapply Permutation_trans; [ exact Hperm | ].
        rewrite Hstrip, <- app_assoc. apply Permutation_app_head.
        unfold push_all. rewrite flat_map_app, app_assoc.
        simpl flat_map. apply Permutation_app_tail.
        eapply Permutation_trans; [ | apply hits_of_members ].
        apply Permutation_app_head.
        apply Permutation_flat_map, Permutation_sym, Permutation_rev.
Qed.

End WithHost.

Lemma performSearch_exact {host : Host} (caseSensitive : bool) (term : string)
    (data : json) :
  exists results,
    performSearch caseSensitive term data = Some results
    /\ numbered results
    /\ Permutation (map strip results)
         (if term =? "" then []
          else hits caseSensitive (fold_case caseSensitive term) data []).
Proof.
  unfold performSearch. destruct (term =? "").
  - exists []. split; [ reflexivity | split; [ apply numbered_nil | constructor ] ].
  - destruct (search_loop_exact caseSensitive (fold_case caseSensitive term)
                (json_size data) [(data, [])] [])
      as [final [Hrun [Hn Hperm]]].
    + unfold entries_size, stack_size. simpl. lia.
    + apply numbered_nil.
    + exists final. split; [ exact Hrun | split; [ exact Hn | ] ].
      simpl in Hperm. now rewrite app_nil_r in Hperm.
Qed.

(** X16: the position of a result is its index in the list that
    [performSearch] returns: positions run from 0 in the order in which the
    results were found. *)
Theorem search_positions_are_indices {host : Host}
    (caseSensitive : bool) (term : string) (data : json) :
  exists results,
    performSearch caseSensitive term data = Some results
    /\ forall i r, nth_error results i = Some r -> position r = i.
Proof.
  destruct (performSearch_exact caseSensitive term data) as [results [Hrun [Hn _]]].
  exists results. split; [ exact Hrun | exact Hn ].
Qed.

(** X17: [performSearch] reports every match once.  Without their positions,
    its results are, up to their order, the matching keys and the matching
    primitives of the document, each occurrence counted once; with an empty
    term there is none. *)
Theorem search_reports_each_match_once {host : Host}
    (caseSensitive : bool) (term : string) (data : json) :
  exists results,
    performSearch caseSensitive term data = Some results
    /\ Permutation (map strip results)
         (if term =? "" then []
          else hits caseSensitive (fold_case caseSensitive term) data []).
Proof.
  destruct (performSearch_exact caseSensitive term data) as [results [Hrun [_ Hperm]]].
  exists results. split; [ exact Hrun | exact Hperm ].
Qed.

End SearchMore.

(** ** Moving through the results *)

Module NavigationFacts.
Import Search Navigation.

Local Open Scope Z_scope.

(** The remainder of a number below twice the divisor. *)
Lemma rem_step (a n : Z) :
  0 <= a < 2 * n -> Z.rem a n = if a <? n then a else a - n.
Proof.
  intros H. rewrite Z.rem_mod_nonneg by lia.
  destruct (Z.ltb_spec a n) as [ Hlt | Hge ].
  - apply Z.mod_small. lia.
  - symmetry. apply (Z.mod_unique a n 1); lia.
Qed.

Lemma navigateSearch_next (n : nat) (i : Z) :
  0 <= i < Z.of_nat n ->
  navigateSearch next n i = if i + 1 <? Z.of_nat n then i + 1 else 0.
Proof.
  intros H. unfold navigateSearch.
  destruct (Nat.eqb_spec n 0) as [ -> | _ ]; [ simpl in H; lia | ].
  rewrite rem_step by lia.
  destruct (Z.ltb_spec (i + 1) (Z.of_nat n)); lia.
Qed.

Lemma navigateSearch_prev (n : nat) (i : Z) :
  0 <= i < Z.of_nat n ->
  navigateSearch prev n i = if i =? 0 then Z.of_nat n - 1 else i - 1.
Proof.
  intros H. unfold navigateSearch.
  destruct (Nat.eqb_spec n 0) as [ -> | _ ]; [ simpl in H; lia | ].
  rewrite rem_step by lia.
  destruct (Z.ltb_spec (i - 1 + Z.of_nat n) (Z.of_nat n)), (Z.eqb_spec i 0); lia.
Qed.

Lemma navigateSearch_in_range (d : direction) (n : nat) (i : Z) :
  0 <= i < Z.of_nat n -> 0 <= navigateSearch d n i < Z.of_nat n.
Proof.
  intros H. destruct d.
  - rewrite navigateSearch_next by assumption.
    destruct (Z.ltb_spec (i + 1) (Z.of_nat n)); lia.
  - rewrite navigateSearch_prev by assumption.
    destruct (Z.eqb_spec i 0); lia.
Qed.

Lemma next_then_prev (n : nat) (i : Z) :
  0 <= i < Z.of_nat n -> navigateSearch prev n (navigateSearch next n i) = i.
Proof.
  intros H.
  rewrite navigateSearch_prev by now apply navigateSearch_in_range.
  rewrite navigateSearch_next by assumption.
  destruct (Z.ltb_spec (i + 1) (Z.of_nat n)).
  - destruct (Z.eqb_spec (i + 1) 0); lia.
  - simpl. lia.
Qed.

Lemma prev_then_next (n : nat) (i : Z) :
  0 <= i < Z.of_nat n -> navigateSearch next n (navigateSearch prev n i) = i.
Proof.
  intros H.
  rewrite navigateSearch_next by now apply navigateSearch_in_range.
  rewrite navigateSearch_prev by assumption.
  destruct (Z.eqb_spec i 0).
  - destruct (Z.ltb_spec (Z.of_nat n - 1 + 1) (Z.of_nat n)); lia.
  - destruct (Z.ltb_spec (i - 1 + 1) (Z.of_nat n)); lia.
Qed.

Lemma navigateSearch_in_step (d : direction) (n : nat) (i : Z) :
  in_step n i -> in_step n (navigateSearch d n i).
Proof.
  intros [ [-> ->] | H ].
  - left. unfold navigateSearch. simpl. now destruct d.
  - right. now apply navigateSearch_in_range.
Qed.

Lemma handleKeyDown_in_step (key : string) (shiftKey onSearchInput : bool)
    (n : nat) (i : Z) :
  in_step n i -> in_step n (handleKeyDown key shiftKey onSearchInput n i).
Proof.
  intros H. unfold handleKeyDown.
  destruct (((key =? "F3")%string || ((key =? "Enter")%string && onSearchInput))
            && (0 <? n)%nat);
    destruct ((key =? "F3")%string && shiftKey && (0 <? n)%nat);
    auto using navigateSearch_in_step.
Qed.

Lemma handle_in_step (n : nat) (events : list event) :
  forall i, in_step n i -> in_step n (fold_left (handle n) events i).
Proof.
  induction events as [ | e events IH ]; intros i H; simpl; [ exact H | ].
  apply IH. destruct e; simpl.
  - now apply navigateSearch_in_step.
  - now apply handleKeyDown_in_step.
Qed.

Lemma iter_next (n : nat) (i : Z) (k : nat) :
  0 <= i < Z.of_nat n ->
  Nat.iter k (navigateSearch next n) i = (i + Z.of_nat k) mod Z.of_nat n.
Proof.
  intros H. induction k as [ | k IH ].
  - simpl. rewrite Z.add_0_r. symmetry. apply Z.mod_small. exact H.
  - rewrite Nat.iter_succ, IH. unfold navigateSearch.
    destruct (Nat.eqb_spec n 0) as [ -> | _ ]; [ simpl in H; lia | ].
    assert (Hm : 0 <= (i + Z.of_nat k) mod Z.of_nat n < Z.of_nat n)
      by (apply Z.mod_pos_bound; lia).
    rewrite Z.rem_mod_nonneg by lia.
    rewrite Zplus_mod_idemp_l. f_equal. lia.
Qed.

(** X18: next and previous stay on a result and undo each other.  With [n]
    results and the current index [i] that of a result, [navigateSearch]
    gives the index of a result again: next goes to [i + 1], and from the
    last result to the first; previous goes to [i - 1], and from the first
    result to the last; each undoes the other. *)
Theorem navigation_wraps_around (n : nat) (i : Z) :
  0 <= i < Z.of_nat n ->
  navigateSearch next n i = (if i + 1 <? Z.of_nat n then i + 1 else 0)
  /\ navigateSearch prev n i = (if i =? 0 then Z.of_nat n - 1 else i - 1)
  /\ navigateSearch prev n (navigateSearch next n i) = i
  /\ navigateSearch next n (navigateSearch prev n i) = i.
Proof.
  intros H.
  auto using navigateSearch_next, navigateSearch_prev, next_then_prev, prev_then_next.
Qed.

(** X19: going to the next result as many times as there are results comes
    back to the result one started from. *)
Theorem next_cycles_through_all_results (n : nat) (i : Z) :
  0 <= i < Z.of_nat n ->
  Nat.iter n (navigateSearch next n) i = i.
Proof.
  intros H. rewrite iter_next by assumption.
  replace (i + Z.of_nat n) with (i + 1 * Z.of_nat n) by lia.
  rewrite Z_mod_plus_full. apply Z.mod_small. exact H.
Qed.

(** X20: Shift+F3 does not go to the previous result.  The listener answers
    the key F3 with a step to the next result whether shift is held or not,
    and with shift held adds a step to the previous one: the index is where
    it was, while F3 alone moves to the next result. *)
Theorem shift_F3_does_not_move (onSearchInput : bool) (n : nat) (i : Z) :
  0 <= i < Z.of_nat n ->
  handleKeyDown "F3" true onSearchInput n i = i
  /\ handleKeyDown "F3" false onSearchInput n i = navigateSearch next n i.
Proof.
  intros H. unfold handleKeyDown.
  assert (Hn : (0 <? n)%nat = true) by (apply Nat.ltb_lt; lia).
  rewrite Hn. simpl. split; [ now apply next_then_prev | reflexivity ].
Qed.

(** X21: the current index always points at a result.  After a search, and
    after any clicks and key presses that follow it, the current index is -1
    when there are no results and the index of a result otherwise. *)
Theorem current_index_points_at_a_result {host : Host}
    (caseSensitive : bool) (jsonData : json) (term : string) (events : list event) :
  exists results index,
    runSearch caseSensitive jsonData term = Some (results, index)
    /\ let final := fold_left (handle (List.length results)) events index in
       (results = [] /\ final = -1)
       \/ (exists r, at_index results final = Some r).
Proof.
  assert (Hrun : exists results index,
            runSearch caseSensitive jsonData term = Some (results, index)
            /\ in_step (List.length results) index).
  { unfold runSearch. destruct (JS.truthy jsonData && negb (term =? "")%string).
    - destruct (SearchFacts.performSearch_spec caseSensitive term jsonData)
        as [results [-> _]].
      exists results. eexists. split; [ reflexivity | ].
      destruct results as [ | r results ]; simpl; [ left; auto | right; lia ].
    - exists [], (-1). split; [ reflexivity | left; auto ]. }
  destruct Hrun as [results [index [Hrun Hstep]]].
  exists results, index. split; [ exact Hrun | ].
  cbv zeta. apply (handle_in_step _ events) in Hstep.
  destruct Hstep as [ [Hlen Hfinal] | Hrange ].
  - left. split; [ | exact Hfinal ]. now destruct results.
  - right. unfold at_index.
    destruct (Z.ltb_spec (fold_left (handle (List.length results)) events index) 0);
      [ lia | ].
    destruct (nth_error results
                (Z.to_nat (fold_left (handle (List.length results)) events index)))
      as [ r | ] eqn:E; [ now exists r | ].
    apply nth_error_None in E. lia.
Qed.


(** *** Closed instances *)

Lemma navigation_wraps_around_witness :
  navigateSearch next 3 2 = 0
  /\ navigateSearch prev 3 2 = 1
  /\ navigateSearch prev 3 (navigateSearch next 3 2) = 2
  /\ navigateSearch next 3 (navigateSearch prev 3 2) = 2.
Proof. apply (navigation_wraps_around 3 2). simpl. lia. Defined.

Lemma next_cycles_through_all_results_witness :
  Nat.iter 3 (navigateSearch next 3) 1 = 1.
Proof. apply (next_cycles_through_all_results 3 1). simpl. lia. Defined.

Lemma shift_F3_does_not_move_witness :
  handleKeyDown "F3" true false 3 1 = 1
  /\ handleKeyDown "F3" false false 3 1 = navigateSearch next 3 1.
Proof. apply (shift_F3_does_not_move false 3 1). simpl. lia. Defined.

End NavigationFacts.

(** ** The tree node component *)

Module TreeNodeFacts.
Import Search SearchSpec Navigation TreeNode.

(** *** The nodes that are rendered *)

Lemma subnode_renders (w : json) (q : list string) (v : json) :
  subnode w q v -> exists p, renders w p v /\ map segment_toString p = q.
Proof.
  induction 1 as [ v | items i c q v Hi _ [p [Hr Hq]] | fields k c q v Hin _ [p [Hr Hq]] ].
  - exists []. split; [ constructor | reflexivity ].
  - exists (Index i :: p). split; [ now apply renders_item with c | simpl; now rewrite Hq ].
  - exists (Name k :: p). split; [ now apply renders_member with c | simpl; now rewrite Hq ].
Qed.

Lemma renders_member_last (w : json) (p : list segment) (fields : list (string * json))
    (k : string) (c : json) :
  renders w p (JObject fields) -> In (k, c) fields -> renders w (p ++ [Name k]) c.
Proof.
  intros H Hin. remember (JObject fields) as o eqn:Ho.
  induction H as [ v | items i c' p v Hi _ IH | fields' k' c' p v Hin' _ IH ].
  - subst v. simpl. apply renders_member with c; [ exact Hin | constructor ].
  - simpl. apply renders_item with c'; auto.
  - simpl. apply renders_member with c'; auto.
Qed.

Lemma isCurrentSearchResult_at (results : list SearchResult) (i : nat)
    (r : SearchResult) (p : list segment) :
  nth_error results i = Some r -> path r = currentPath p ->
  isCurrentSearchResult (Z.of_nat i) results p = true.
Proof.
  intros Hnth Hpath. unfold isCurrentSearchResult, at_index.
  destruct (Z.eqb_spec (Z.of_nat i) (-1)); [ lia | ].
  destruct (Z.ltb_spec (Z.of_nat i) 0); [ lia | ].
  rewrite Nat2Z.id, Hnth. now apply String.eqb_eq.
Qed.

Section WithHost.
Context {host : Host}.
Variable caseSensitive : bool.

(** *** Matches open the tree *)

Lemma hits_primitive (t : string) (v : json) (q : list string) :
  is_primitive v = true -> hits caseSensitive t v q <> [] ->
  JS.includes (fold_case caseSensitive (JS.ToString v)) t = true.
Proof.
  intros Hp H. destruct v; try discriminate; cbn [hits] in H;
    destruct (JS.includes _ t); congruence.
Qed.

Lemma hits_match_step (label t : string) (v : json) :
  (forall c q, height c < height v -> hits caseSensitive t c q <> [] ->
               matchesSearch_from caseSensitive label t c = true) ->
  forall q, hits caseSensitive t v q <> [] ->
            matchesSearch_from caseSensitive label t v = true.
Proof.
  intros Hbelow q Hhits.
  destruct v as [ | b | n | s | items | fields ];
    try (cbn [hits matchesSearch_from] in *;
         destruct (JS.includes (fold_case caseSensitive label) t); [ reflexivity | ];
         destruct (JS.includes _ t); congruence).
  - assert (Hc : forall c, In c items -> forall q, hits caseSensitive t c q <> [] ->
                   matchesSearch_from caseSensitive label t c = true).
    { intros c Hin q'. apply Hbelow. now apply ValidatorFacts.height_item. }
    clear Hbelow. simpl in Hhits |- *.
    destruct (JS.includes (fold_case caseSensitive label) t); [ reflexivity | ].
    revert Hhits.
    match goal with
    | |- ?G items 0 <> [] -> ?F items 0 = true =>
        enough (Hall : forall i, G items i <> [] -> F items i = true) by apply Hall
    end.
    induction items as [ | x items IH ]; intros i; simpl; [ congruence | ].
    destruct (hits caseSensitive t x (q ++ [JS.nat_toString i])) as [ | h hs ] eqn:E.
    + simpl. intros H. rewrite IH; [ apply orb_true_r | | exact H ].
      intros c Hin. apply Hc. now right.
    + intros _.
      assert (Hx : hits caseSensitive t x (q ++ [JS.nat_toString i]) <> [])
        by (rewrite E; discriminate).
      destruct (JS.includes (fold_case caseSensitive (JS.nat_toString i)) t);
        [ reflexivity | ].
      destruct (is_primitive x) eqn:Hp.
      * now rewrite (hits_primitive t x _ Hp Hx).
      * rewrite (Hc x (or_introl eq_refl) _ Hx). reflexivity.
  - assert (Hc : forall k c, In (k, c) fields -> forall q, hits caseSensitive t c q <> [] ->
                   matchesSearch_from caseSensitive label t c = true).
    { intros k c Hin q'. apply Hbelow. now apply ValidatorFacts.height_member with k. }
    clear Hbelow. simpl in Hhits |- *.
    destruct (JS.includes (fold_case caseSensitive label) t); [ reflexivity | ].
    revert Hhits.
    match goal with
    | |- ?G fields <> [] -> ?F fields = true =>
        enough (Hall : G fields <> [] -> F fields = true) by apply Hall
    end.
    induction fields as [ | [k x] fields IH ]; simpl; [ congruence | ].
    unfold SearchSpec.key_hit at 1.
    destruct (JS.includes (fold_case caseSensitive k) t); [ reflexivity | ].
    simpl.
    destruct (hits caseSensitive t x (q ++ [k])) as [ | h hs ] eqn:E.
    + simpl. intros H. rewrite IH; [ apply orb_true_r | | exact H ].
      intros k' c Hin. apply (Hc k' c). now right.
    + intros _.
      assert (Hx : hits caseSensitive t x (q ++ [k]) <> [])
        by (rewrite E; discriminate).
      destruct (is_primitive x) eqn:Hp.
      * now rewrite (hits_primitive t x _ Hp Hx).
      * rewrite (Hc k x (or_introl eq_refl) _ Hx). reflexivity.
Qed.

Lemma hits_match (label t : string) :
  forall n v q, height v < n -> hits caseSensitive t v q <> [] ->
                matchesSearch_from caseSensitive label t v = true.
Proof.
  induction n as [ | n IH ]; intros v q Hh Hhits; [ lia | ].
  apply hits_match_step with q; [ | exact Hhits ].
  intros c q' Hc. apply IH. lia.
Qed.

(** X22: a node under which the search finds something is opened.  When
    [performSearch] on a value returns at least one result, [matchesSearch]
    holds of that value and the term, whatever the label of the node that
    shows the value. *)
Theorem results_open_the_tree (label term : string) (data : json)
    (results : list SearchResult) :
  performSearch caseSensitive term data = Some results ->
  results <> [] ->
  matchesSearch caseSensitive label data term = true.
Proof.
  intros Hrun Hne.
  destruct (SearchMore.performSearch_exact caseSensitive term data)
    as [results' [Hrun' [_ Hperm]]].
  rewrite Hrun in Hrun'. inversion Hrun'; subst results'. clear Hrun'.
  assert (Hstrip : map strip results <> []) by (destruct results; [ congruence | discriminate ]).
  unfold matchesSearch. destruct (term =? "").
  - apply Permutation_sym, Permutation_nil in Hperm. contradiction.
  - apply hits_match with (n := S (height data)) (q := []); [ lia | ].
    intros Hnil. rewrite Hnil in Hperm.
    apply Permutation_sym, Permutation_nil in Hperm. contradiction.
Qed.

(** X23: the current result marks a node of the tree.  Every result of
    [performSearch], when it is the current one, is the current search
    result of a node that the tree renders: for a value result the node of
    the matching primitive, for a key result the node of the member with
    that key. *)
Theorem current_result_is_a_rendered_node (term : string) (data : json)
    (results : list SearchResult) (i : nat) (r : SearchResult) :
  performSearch caseSensitive term data = Some results ->
  nth_error results i = Some r ->
  exists p v,
    renders data p v
    /\ isCurrentSearchResult (Z.of_nat i) results p = true
    /\ match type r with
       | Value => is_primitive v = true /\ text r = JS.ToString v
       | Key => exists p', p = (p' ++ [Name (text r)])%list
       end.
Proof.
  intros Hrun Hnth.
  destruct (SearchFacts.performSearch_spec caseSensitive term data)
    as [results' [Hrun' [Hsound _]]].
  rewrite Hrun in Hrun'. inversion Hrun'; subst results'. clear Hrun'.
  destruct (Hsound r (nth_error_In _ _ Hnth)) as [_ He].
  destruct He as [ q v Hsub Hprim _ [Htype [Hpath Htext]]
                 | q fields k c Hsub Hin _ [Htype [Hpath Htext]] ];
    destruct (subnode_renders _ _ _ Hsub) as [p [Hr Hq]]; simpl in Hpath.
  - exists p, v. split; [ exact Hr | split ].
    + apply isCurrentSearchResult_at with r; [ exact Hnth | ].
      unfold currentPath. now rewrite Hq.
    + rewrite Htype. auto.
  - exists (p ++ [Name k])%list, c. split; [ now apply renders_member_last with fields | split ].
    + apply isCurrentSearchResult_at with r; [ exact Hnth | ].
      unfold currentPath. rewrite map_app, Hq. exact Hpath.
    + rewrite Htype, Htext. now exists p.
Qed.

End WithHost.

(** *** The paths of the validator and the paths of the tree *)

Lemma length_append (s t : string) :
  String.length (s +++ t) = String.length s + String.length t.
Proof. induction s as [ | a s IH ]; simpl; [ | rewrite IH ]; reflexivity. Qed.

Lemma append_nonempty_r (s t : string) : t <> "" -> s +++ t <> "".
Proof. intros Ht. destruct s; simpl; [ exact Ht | discriminate ]. Qed.

Lemma join_snoc (sep x : string) (xs : list string) :
  xs <> [] -> JS.join sep (xs ++ [x]) = JS.join sep xs +++ sep +++ x.
Proof.
  unfold JS.join. induction xs as [ | a xs IH ]; intros Hne; [ congruence | ].
  destruct xs as [ | b xs ]; [ reflexivity | ].
  change (String.concat sep ((a :: b :: xs) ++ [x]))
    with (a +++ sep +++ String.concat sep ((b :: xs) ++ [x])).
  rewrite IH by discriminate.
  change (String.concat sep (a :: b :: xs))
    with (a +++ sep +++ String.concat sep (b :: xs)).
  now rewrite !EqualityFacts.append_assoc.
Qed.

Lemma currentPath_snoc (path : list segment) (s : segment) :
  path <> [] ->
  currentPath (path ++ [s]) = currentPath path +++ "." +++ segment_toString s.
Proof.
  intros Hne. unfold currentPath. rewrite map_app. apply join_snoc.
  destruct path; [ congruence | discriminate ].
Qed.

Lemma validator_path_snoc (path : list segment) (s : segment) :
  validator_path (path ++ [s])
  = match s with
    | Index index => Validator.item_path (validator_path path) index
    | Name key => Validator.member_path (validator_path path) key
    end.
Proof. unfold validator_path. now rewrite fold_left_app. Qed.

(** The last code unit of a string that ends with another. *)
Lemma last_unit_append (s t : string) (c : ascii) :
  last_unit t = Some c -> last_unit (s +++ t) = Some c.
Proof.
  intros Ht. induction s as [ | a s IH ]; simpl; [ exact Ht | ].
  destruct (s +++ t); [ discriminate | exact IH ].
Qed.

Lemma last_unit_join (sep x : string) (xs : list string) (c : ascii) :
  last_unit x = Some c -> last_unit (JS.join sep (xs ++ [x])) = Some c.
Proof.
  intros Hx. destruct xs as [ | a xs ]; [ exact Hx | ].
  rewrite join_snoc by discriminate. now apply last_unit_append, last_unit_append.
Qed.

Lemma last_unit_item_path (p : string) (j : nat) :
  last_unit (Validator.item_path p j) = Some "]"%char.
Proof.
  unfold Validator.item_path.
  destruct (p =? "");
    [ apply (last_unit_append "["), (last_unit_append (JS.nat_toString j))
    | apply (last_unit_append p), (last_unit_append "["),
        (last_unit_append (JS.nat_toString j)) ];
    reflexivity.
Qed.

(** An index prints as decimal digits, the last of which is not a bracket. *)
Lemma to_little_uint_nonnil (n : nat) :
  forall acc, acc <> Decimal.Nil -> Nat.to_little_uint n acc <> Decimal.Nil.
Proof.
  induction n as [ | n IH ]; intros acc Hacc; simpl; [ exact Hacc | ].
  apply IH. destruct acc; simpl; discriminate.
Qed.

Lemma last_unit_revapp (d : Decimal.uint) :
  forall d', d' <> Decimal.Nil ->
    last_unit (NilEmpty.string_of_uint (Decimal.revapp d d'))
    = last_unit (NilEmpty.string_of_uint d').
Proof.
  induction d as [ | d IH | d IH | d IH | d IH | d IH | d IH | d IH | d IH | d IH | d IH ];
    intros d' Hd'; simpl Decimal.revapp; [ reflexivity | .. ];
    (rewrite IH by discriminate; destruct d'; [ congruence | .. ]; reflexivity).
Qed.

Lemma last_unit_nat_toString (n : nat) :
  exists c, last_unit (JS.nat_toString n) = Some c /\ c <> "]"%char.
Proof.
  unfold JS.nat_toString, Nat.to_uint, Decimal.rev.
  pose proof (to_little_uint_nonnil n Decimal.zero) as Hne.
  destruct (Nat.to_little_uint n Decimal.zero) as [ | d | d | d | d | d | d | d | d | d | d ];
    [ exfalso; apply Hne; [ discriminate | reflexivity ] | .. ];
    simpl Decimal.revapp; rewrite last_unit_revapp by discriminate;
    eexists; (split; [ reflexivity | discriminate ]).
Qed.

(** X24: an error at an array element does not mark the node of an array
    element.  The validator names the element [index] of the array at [path]
    by [path] followed by the index in brackets; the node of an element has
    the path of its array followed by a dot and the index.  When every error
    is one at an array element, [hasValidationError] is false at the node of
    every array element. *)
Theorem array_element_errors_mark_no_element
    (validationErrors : list Validator.ValidationError) (path : list segment)
    (index : nat) :
  (forall error, In error validationErrors ->
     exists p j, Validator.path error = Validator.item_path p j) ->
  hasValidationError validationErrors (path ++ [Index index]) = false.
Proof.
  intros Hall. unfold hasValidationError.
  destruct (existsb _ validationErrors) eqn:E; [ exfalso | reflexivity ].
  apply existsb_exists in E. destruct E as [error [Hin Heq]].
  apply String.eqb_eq in Heq.
  destruct (Hall error Hin) as [p [j Hp]].
  destruct (last_unit_nat_toString index) as [c [Hc Hne]].
  assert (Hlast : last_unit (currentPath (path ++ [Index index])) = Some c).
  { unfold currentPath. rewrite map_app. now apply last_unit_join. }
  rewrite <- Heq, Hp, last_unit_item_path in Hlast. congruence.
Qed.

(** The two paths of a node reached through keys that are not empty. *)
Lemma validator_path_names (keys : list string) :
  (forall k, In k keys -> k <> "") ->
  validator_path (map Name keys) = currentPath (map Name keys)
  /\ (keys <> [] -> validator_path (map Name keys) <> "").
Proof.
  induction keys as [ | k keys IH ] using rev_ind; intros Hkeys.
  - split; [ reflexivity | congruence ].
  - destruct IH as [IHeq IHne]; [ intros k' Hin; apply Hkeys, in_or_app; now left | ].
    assert (Hk : k <> "") by (apply Hkeys, in_or_app; right; now left).
    rewrite map_app. simpl map. rewrite validator_path_snoc.
    unfold Validator.member_path.
    destruct keys as [ | k0 keys ].
    + simpl. split; [ reflexivity | auto ].
    + specialize (IHne ltac:(discriminate)).
      destruct (String.eqb_spec (validator_path (map Name (k0 :: keys))) "")
        as [ Hempty | _ ]; [ contradiction | ].
      rewrite currentPath_snoc by discriminate. rewrite IHeq. split; [ reflexivity | ].
      intros _. apply append_nonempty_r, append_nonempty_r. exact Hk.
Qed.

(** X25: an error at a member reached through object keys marks its node.
    For a node reached from the root through keys only, none of them empty,
    the path under which the validator reports and the path of the node are
    the same string, and [hasValidationError] is true there. *)
Theorem object_member_errors_mark_their_node (keys : list string)
    (error : Validator.ValidationError) :
  (forall k, In k keys -> k <> "") ->
  Validator.path error = validator_path (map Name keys) ->
  validator_path (map Name keys) = currentPath (map Name keys)
  /\ hasValidationError [error] (map Name keys) = true.
Proof.
  intros Hkeys Hpath. destruct (validator_path_names keys Hkeys) as [Heq _].
  split; [ exact Heq | ].
  unfold hasValidationError. simpl. rewrite Hpath, Heq, String.eqb_refl. reflexivity.
Qed.

(** The validator's path of a node is at least as long as the node's, and
    longer below an array. *)
Lemma validator_path_longer (path : list segment) :
  (forall k, In (Name k) path -> k <> "") ->
  String.length (currentPath path) <= String.length (validator_path path)
  /\ ((exists i, In (Index i) path) ->
      String.length (currentPath path) < String.length (validator_path path))
  /\ (path <> [] -> validator_path path <> "").
Proof.
  induction path as [ | s path IH ] using rev_ind; intros Hkeys.
  - split; [ simpl; lia | split; [ intros [i []] | congruence ] ].
  - destruct IH as [IHle [IHlt IHne]];
      [ intros k Hin; apply Hkeys, in_or_app; now left | ].
    rewrite validator_path_snoc.
    destruct path as [ | s0 path ].
    + destruct s as [ index | key ]; simpl.
      * unfold currentPath. simpl. rewrite length_append. simpl.
        split; [ lia | split; [ intros _; lia | discriminate ] ].
      * assert (Hk : key <> "") by (apply Hkeys; now left).
        unfold currentPath, Validator.member_path. simpl.
        split; [ lia | split; [ | auto ] ].
        intros [i [Hi | []]]. discriminate.
    + specialize (IHne ltac:(discriminate)).
      rewrite currentPath_snoc by discriminate.
      unfold Validator.item_path, Validator.member_path.
      destruct (String.eqb_spec (validator_path (s0 :: path)) "") as [ Hempty | _ ];
        [ contradiction | ].
      destruct s as [ index | key ]; rewrite !length_append; simpl String.length.
      * split; [ lia | split; [ intros _; lia | ] ].
        intros _. destruct (validator_path (s0 :: path)); [ congruence | discriminate ].
      * split; [ lia | split ].
        -- intros [i Hi]. apply in_app_or in Hi. destruct Hi as [ Hi | [Hi | []] ].
           ++ assert (Hlt := IHlt (ex_intro _ i Hi)). lia.
           ++ discriminate.
        -- intros _. destruct (validator_path (s0 :: path)); [ congruence | discriminate ].
Qed.

(** X26: an error below an array element does not mark its node.  For a
    node reached from the root through at least one array index, the keys on
    the way not empty, the path under which the validator reports is longer
    than the path of the node, and [hasValidationError] is false there. *)
Theorem errors_below_arrays_mark_no_node (path : list segment)
    (error : Validator.ValidationError) :
  (forall k, In (Name k) path -> k <> "") ->
  (exists i, In (Index i) path) ->
  Validator.path error = validator_path path ->
  hasValidationError [error] path = false.
Proof.
  intros Hkeys Hindex Hpath.
  destruct (validator_path_longer path Hkeys) as [_ [Hlt _]].
  specialize (Hlt Hindex).
  unfold hasValidationError. simpl. rewrite orb_false_r.
  apply String.eqb_neq. intros Heq. rewrite Hpath in Heq. rewrite Heq in Hlt. lia.
Qed.


(** *** Closed instances *)

Lemma results_open_the_tree_witness :
  matchesSearch (host := ExampleHost.example_host) false "root" Documents.KV "k" = true.
Proof.
  apply (results_open_the_tree (host := ExampleHost.example_host) false "root" "k"
           Documents.KV
           [ {| path := "K"; type := Key; text := "K"; position := 0 |} ]).
  - reflexivity.
  - discriminate.
Defined.

Lemma current_result_is_a_rendered_node_witness :
  exists p v,
    renders Documents.KV p v
    /\ isCurrentSearchResult (Z.of_nat 0)
         [ {| path := "K"; type := Key; text := "K"; position := 0 |} ] p = true
    /\ exists p', p = (p' ++ [Name "K"])%list.
Proof.
  apply (current_result_is_a_rendered_node (host := ExampleHost.example_host) false "k"
           Documents.KV
           [ {| path := "K"; type := Key; text := "K"; position := 0 |} ] 0
           {| path := "K"; type := Key; text := "K"; position := 0 |}).
  - reflexivity.
  - reflexivity.
Defined.

Lemma array_element_errors_mark_no_element_witness :
  hasValidationError
    [ {| Validator.path := "a[0]"; Validator.message := "Expected number, got string";
         Validator.value := VJson (JString "x") |} ]
    ([Name "a"] ++ [Index 0]) = false.
Proof.
  apply (array_element_errors_mark_no_element
           [ {| Validator.path := "a[0]";
                Validator.message := "Expected number, got string";
                Validator.value := VJson (JString "x") |} ]
           [Name "a"] 0).
  intros error [ <- | [] ]. exists "a", 0. reflexivity.
Defined.

Lemma object_member_errors_mark_their_node_witness :
  validator_path (map Name ["a"; "b"]) = currentPath (map Name ["a"; "b"])
  /\ hasValidationError
       [ {| Validator.path := "a.b"; Validator.message := "Expected number, got string";
            Validator.value := VJson (JString "x") |} ]
       (map Name ["a"; "b"]) = true.
Proof.
  apply (object_member_errors_mark_their_node ["a"; "b"]
           {| Validator.path := "a.b";
              Validator.message := "Expected number, got string";
              Validator.value := VJson (JString "x") |}).
  - intros k [ <- | [ <- | [] ] ]; discriminate.
  - reflexivity.
Defined.

Lemma errors_below_arrays_mark_no_node_witness :
  hasValidationError
    [ {| Validator.path := "a[0].b"; Validator.message := "Expected number, got string";
         Validator.value := VJson (JString "x") |} ]
    [Name "a"; Index 0; Name "b"] = false.
Proof.
  apply (errors_below_arrays_mark_no_node [Name "a"; Index 0; Name "b"]
           {| Validator.path := "a[0].b";
              Validator.message := "Expected number, got string";
              Validator.value := VJson (JString "x") |}).
  - intros k [ H | [ H | [ H | [] ] ] ]; inversion H; discriminate.
  - exists 0. right. left. reflexivity.
  - reflexivity.
Defined.

End TreeNodeFacts.
